(** * Session actor of the background-agents control plane

    A shallow embedding of the per-session orchestration code:

    - [packages/control-plane/src/session/sandbox-handler.ts]
      (sandbox events, the prompt queue, stop, the push handshake),
    - the internal HTTP routes (event and message listing, create-PR and
      its manual fallback, the route table, WebSocket tokens, sandbox token
      verification),
    - [packages/control-plane/src/session/client-handler.ts] (client
      prompts, history fetch, the sandbox socket upgrade and close),
    - [db/secrets-validation] ([normalizeKey], [validateKey],
      [validateValue], [mergeSecrets]) and the repository secrets store,
    - [source-control/config.ts] and the provider factory.

    Conventions of the embedding.

    - A JavaScript string is a [string] of 8-bit characters.  [toLowerCase],
      [toUpperCase] and [trim] act on the ASCII range: letters [A-Z]/[a-z]
      change case, the white space characters are TAB, LF, VT, FF, CR and
      SPACE, every other character is left alone.  The UTF-8 size of a
      string is its number of characters.
    - [null] and [undefined] are [None].
    - A JavaScript number that holds an integer is a [Z]; [NaN] is a
      separate constructor of [number].
    - [Date.now()] and [generateId()] are arguments of the handlers.
    - Log lines are not part of the model. *)

From Stdlib Require Import ZArith Ascii String List Lia Bool.
From stdpp Require Import base option list gmap strings fin_maps pretty.

Import ListNotations.
Local Open Scope string_scope.
Local Open Scope Z_scope.

(* ===================================================================== *)
(** * JavaScript strings (ASCII fragment)                                  *)
(* ===================================================================== *)

Module JsString.

Definition code (c : ascii) : N := N_of_ascii c.

(** White space stripped by [String.prototype.trim] and skipped by
    [parseInt], restricted to the ASCII range. *)
Definition isWhiteSpace (c : ascii) : bool :=
  let n := code c in
  ((9 <=? n) && (n <=? 13) || (n =? 32))%N.

Definition isUpperLetter (c : ascii) : bool :=
  let n := code c in ((65 <=? n) && (n <=? 90))%N.

Definition isLowerLetter (c : ascii) : bool :=
  let n := code c in ((97 <=? n) && (n <=? 122))%N.

Definition toLowerChar (c : ascii) : ascii :=
  if isUpperLetter c then ascii_of_N (code c + 32) else c.

Definition toUpperChar (c : ascii) : ascii :=
  if isLowerLetter c then ascii_of_N (code c - 32) else c.

Definition chars (s : string) : list ascii := list_ascii_of_string s.
Definition ofChars (l : list ascii) : string := string_of_list_ascii l.

Fixpoint trimStartChars (l : list ascii) : list ascii :=
  match l with
  | [] => []
  | c :: r => if isWhiteSpace c then trimStartChars r else l
  end.

Definition trimEndChars (l : list ascii) : list ascii :=
  rev (trimStartChars (rev l)).

Definition trimChars (l : list ascii) : list ascii :=
  trimEndChars (trimStartChars l).

(** [s.trim()] *)
Definition trim (s : string) : string := ofChars (trimChars (chars s)).

(** [s.toLowerCase()] *)
Definition toLowerCase (s : string) : string :=
  ofChars (map toLowerChar (chars s)).

(** [s.toUpperCase()] *)
Definition toUpperCase (s : string) : string :=
  ofChars (map toUpperChar (chars s)).

(** Truthiness of a string value: [""] is falsy. *)
Definition truthy (s : string) : bool :=
  match s with
  | EmptyString => false
  | String _ _ => true
  end.

(** Truthiness of a possibly absent string. *)
Definition truthyOpt (o : option string) : bool :=
  match o with
  | Some s => truthy s
  | None => false
  end.

(** [a || b] on strings that may be absent. *)
Definition orElse (a b : option string) : option string :=
  if truthyOpt a then a else b.

(** [new TextEncoder().encode(s).length] *)
Definition utf8Length (s : string) : Z := Z.of_nat (String.length s).

(** Two characters that are equal up to letter case: the same character, or
    a letter and its counterpart of the other case. *)
Inductive caseVariant : ascii -> ascii -> Prop :=
| cv_same c : caseVariant c c
| cv_upper c : isLowerLetter c = true -> caseVariant c (toUpperChar c)
| cv_lower c : isUpperLetter c = true -> caseVariant c (toLowerChar c).


End JsString.

(* ===================================================================== *)
(** * JavaScript numbers, [parseInt] and [Math.min]                        *)
(* ===================================================================== *)

Inductive number : Type :=
| NaN
| Num (z : Z).

Module JsNumber.
Import JsString.

(** Value of a digit in radix 16 (which covers radix 10). *)
Definition digitValue (c : ascii) : option Z :=
  let n := Z.of_N (code c) in
  if (48 <=? n) && (n <=? 57) then Some (n - 48)
  else if (97 <=? n) && (n <=? 102) then Some (n - 87)
  else if (65 <=? n) && (n <=? 70) then Some (n - 55)
  else None.

(** The longest prefix of radix-[R] digits, read as an integer; [None]
    when that prefix is empty. *)
Fixpoint parseDigits (R : Z) (acc : option Z) (l : list ascii) : option Z :=
  match l with
  | [] => acc
  | c :: r =>
      match digitValue c with
      | Some d =>
          if d <? R
          then parseDigits R (Some (default 0 acc * R + d)) r
          else acc
      | None => acc
      end
  end.

(** [parseInt(s)] with no radix argument: leading white space is skipped,
    an optional sign is read, a [0x]/[0X] prefix selects radix 16, and the
    longest digit prefix is converted; an empty digit prefix gives [NaN]. *)
Definition parseInt (s : string) : number :=
  let S0 := trimStartChars (chars s) in
  let '(sign, S1) :=
    match S0 with
    | "-"%char :: r => (-1, r)
    | "+"%char :: r => (1, r)
    | _ => (1, S0)
    end in
  let '(R, S2) :=
    match S1 with
    | "0"%char :: "x"%char :: r => (16, r)
    | "0"%char :: "X"%char :: r => (16, r)
    | _ => (10, S1)
    end in
  match parseDigits R None S2 with
  | None => NaN
  | Some n => Num (sign * n)
  end.

(** [Math.min(a, b)]: [NaN] as soon as one argument is [NaN]. *)
Definition Math_min (a b : number) : number :=
  match a, b with
  | Num x, Num y => Num (Z.min x y)
  | _, _ => NaN
  end.

(** [a <= b] on numbers: every comparison with [NaN] is false. *)
Definition leb (a b : number) : bool :=
  match a, b with
  | Num x, Num y => x <=? y
  | _, _ => false
  end.

End JsNumber.

(* ===================================================================== *)
(** * Listing routes: the [limit] query parameter                          *)
(* ===================================================================== *)

Module ListRoutes.
Import JsString JsNumber.

(** [url.searchParams]: the query pairs in order. *)
Definition SearchParams := list (string * string).

(** [url.searchParams.get(name)]: the first value, [null] when absent. *)
Fixpoint get (name : string) (p : SearchParams) : option string :=
  match p with
  | [] => None
  | (k, v) :: r => if String.eqb k name then Some v else get name r
  end.

Definition VALID_EVENT_TYPES : list string :=
  [ "tool_call"; "tool_result"; "token"; "error"; "git_sync";
    "execution_complete"; "heartbeat"; "push_complete"; "push_error";
    "user_message" ].

Definition VALID_MESSAGE_STATUSES : list string :=
  [ "pending"; "processing"; "completed"; "failed" ].

Definition includes (l : list string) (x : string) : bool :=
  existsb (String.eqb x) l.

(** Arguments of [repository.listEvents]. *)
Record ListEventsArgs := mkListEventsArgs {
  le_cursor : option string;
  le_limit : number;
  le_type : option string;
  le_messageId : option string
}.

(** Arguments of [repository.listMessages]. *)
Record ListMessagesArgs := mkListMessagesArgs {
  lm_cursor : option string;
  lm_limit : number;
  lm_status : option string
}.

(** Outcome of the part of a listing handler that precedes the repository
    call: a 400 response, or the query handed to the repository. *)
Inductive Listing (A : Type) : Type :=
| BadRequest (error : string)
| Query (args : A).
Arguments BadRequest {A} error.
Arguments Query {A} args.

(** [handleListEvents], up to the call of [repository.listEvents]. *)
Definition handleListEvents (p : SearchParams) : Listing ListEventsArgs :=
  let cursor := get "cursor" p in
  let limit := Math_min (parseInt (default "50" (get "limit" p))) (Num 200) in
  let type := get "type" p in
  let messageId := get "message_id" p in
  if truthyOpt type && negb (includes VALID_EVENT_TYPES (default "" type))
  then BadRequest ("Invalid event type: " ++ default "" type)
  else Query (mkListEventsArgs cursor limit type messageId).

(** [handleListMessages], up to the call of [repository.listMessages]. *)
Definition handleListMessages (p : SearchParams) : Listing ListMessagesArgs :=
  let cursor := get "cursor" p in
  let limit := Math_min (parseInt (default "50" (get "limit" p))) (Num 100) in
  let status := get "status" p in
  if truthyOpt status && negb (includes VALID_MESSAGE_STATUSES (default "" status))
  then BadRequest ("Invalid message status: " ++ default "" status)
  else Query (mkListMessagesArgs cursor limit status).

End ListRoutes.

(* ===================================================================== *)
(** * Secrets: [normalizeKey] and [mergeSecrets]                           *)
(* ===================================================================== *)

Module Secrets.
Import JsString.

(** A [Record<string, string>] argument, as the list [Object.entries]
    enumerates it. *)
Definition SecretRecord := list (string * string).

Definition normalizeKey (key : string) : string := toUpperCase key.

(** One pass of [for (const [key, value] of Object.entries(r))
    merged[normalizeKey(key)] = value]. *)
Definition assignAll (r : SecretRecord) (merged : gmap string string)
  : gmap string string :=
  fold_left (fun acc kv => <[normalizeKey kv.1 := kv.2]> acc) r merged.

(** The loop [for (const value of Object.values(merged)) totalBytes += ...]. *)
Definition sumBytes (merged : gmap string string) : Z :=
  map_fold (fun _ value total => total + utf8Length value) 0 merged.

Record MergeResult := mkMergeResult {
  merged : gmap string string;
  totalBytes : Z;
  exceedsLimit : bool
}.

Definition defaultMaxCombinedBytes : Z := 131072.


(** [mergeSecrets(global, repo, maxCombinedBytes = 131072)] *)
Definition mergeSecrets (global repo : SecretRecord) (maxCombinedBytes : option Z)
  : MergeResult :=
  let limit := default defaultMaxCombinedBytes maxCombinedBytes in
  let m := assignAll repo (assignAll global ∅) in
  let total := sumBytes m in
  mkMergeResult m total (limit <? total).

End Secrets.

(* ===================================================================== *)
(** * Rows, events and messages of a session                               *)
(* ===================================================================== *)

Inductive MessageStatus : Type := pending | processing | completed | failed.

Global Instance MessageStatus_eq_dec : EqDecision MessageStatus.
Proof. solve_decision. Defined.

Record MessageRow := mkMessageRow {
  msg_id : string;
  author_id : string;
  content : string;
  source : string;
  msg_model : option string;
  msg_reasoning_effort : option string;
  attachments : option string;
  callback_context : option string;
  status : MessageStatus;
  created_at : Z;
  started_at : option Z;
  completed_at : option Z
}.

Record ParticipantRow := mkParticipantRow {
  part_id : string;
  user_id : string;
  github_user_id : option string;
  github_login : option string;
  github_email : option string;
  github_name : option string;
  role : string;
  github_access_token_encrypted : option string;
  github_refresh_token_encrypted : option string;
  github_token_expires_at : option Z;
  ws_auth_token : option string;
  ws_token_created_at : option Z;
  joined_at : Z
}.

Record SessionRow := mkSessionRow {
  session_id : string;
  session_name : option string;
  repo_owner : string;
  repo_name : string;
  branch_name : option string;
  current_sha : option string;
  session_model : string;
  session_reasoning_effort : option string;
  session_status : string
}.

Record SandboxRow := mkSandboxRow {
  sb_id : string;
  sb_status : string;
  git_sync_status : option string;
  last_heartbeat : option Z;
  auth_token : option string;
  modal_sandbox_id : option string
}.

(** An event sent by the sandbox (or built by the actor), after
    [JSON.parse].  [ev_messageId] is [None] when the object has no
    [messageId] key or holds [null] there.  [ev_timestamp] is kept in
    milliseconds; the JSON field holds that time divided by 1000.
    [ev_payload] stands for the fields the session code does not read. *)
Record SandboxEvent := mkSandboxEvent {
  ev_type : string;
  ev_messageId : option string;
  ev_success : bool;
  ev_status : option string;
  ev_sha : option string;
  ev_branchName : option string;
  ev_error : option string;
  ev_sandboxId : option string;
  ev_timestamp : option Z;
  ev_payload : option string
}.

(** A row of the event log; [er_data] stands for [JSON.stringify(event)]. *)
Record EventRow := mkEventRow {
  er_id : string;
  er_type : string;
  er_data : SandboxEvent;
  er_message_id : option string;
  er_created_at : Z
}.

(** JSON values, as [JSON.parse] returns them. *)
#[local] Unset Elimination Schemes.
Inductive Json : Type :=
| JNull
| JBool (b : bool)
| JNum (z : Z)
| JStr (s : string)
| JArr (l : list Json)
| JObj (fields : list (string * Json)).
#[local] Set Elimination Schemes.

(** A text column holding JSON, kept by what [JSON.parse] makes of it:
    [Malformed] text makes it throw. *)
Inductive JsonText : Type :=
| Malformed (raw : string)
| WellFormed (v : Json).

Record ArtifactRow := mkArtifactRow {
  art_id : string;
  art_type : string;
  art_url : option string;
  art_metadata : option JsonText;
  art_created_at : Z
}.

(** The transport description built by the provider; opaque to the
    session code. *)
Definition GitPushSpec : Type := string.

Record Author := mkAuthor {
  au_userId : string;
  au_githubName : option string;
  au_githubEmail : option string
}.

(** Commands sent to the sandbox socket. *)
Inductive SandboxCommand : Type :=
| cmd_prompt (messageId content model : string) (reasoningEffort : option string)
             (author : Author) (attachments : option string)
| cmd_stop
| cmd_push (pushSpec : GitPushSpec).

(** Messages broadcast to the client sockets. *)
Inductive ServerMessage : Type :=
| sm_sandbox_event (event : SandboxEvent)
| sm_processing_status (isProcessing : bool)
| sm_sandbox_spawning
| sm_sandbox_warming
| sm_sandbox_status (status : string)
| sm_artifact_created (id type url : string) (prNumber : option Z)
| sm_prompt_queued (messageId : string) (position : nat)
| sm_error (code message : string).

Definition Socket : Type := nat.

(** What a handler does to the world outside the actor's own state:
    frames sent to sockets, and calls into the lifecycle manager
    ([spawnSandbox], [onSandboxConnected], [triggerSnapshot],
    [updateLastActivity], [scheduleInactivityCheck],
    [scheduleDisconnectCheck]) and the callback channel
    ([notifySlackBot]), whose own work is outside the session handlers. *)
Inductive Effect : Type :=
| Broadcast (m : ServerMessage)
| Send (ws : Socket) (c : SandboxCommand)
| Reply (ws : Socket) (m : ServerMessage)
| SpawnSandbox
| OnSandboxConnected
| TriggerSnapshot (reason : string)
| UpdateLastActivity (t : Z)
| ScheduleInactivityCheck
| ScheduleDisconnectCheck
| NotifySlackBot (messageId : string) (success : bool).

(** State of a promise created by [pushBranchToRemote]. *)
Inductive PromiseState : Type :=
| Pending
| Resolved
| Rejected (message : string).

(** The actor: the rows of its repository, the sandbox socket of the
    WebSocket manager ([wsManager.getSandboxSocket()], one socket or
    [null]), the pending push resolvers (normalized branch name to
    promise), the promises, and the effects emitted so far. *)
Record State := mkState {
  session : option SessionRow;
  participants : list ParticipantRow;
  messages : list MessageRow;
  events : list EventRow;
  artifacts : list ArtifactRow;
  sandbox : option SandboxRow;
  sandboxSocket : option Socket;
  pendingPushResolvers : gmap string nat;
  promises : list PromiseState;
  effects : list Effect
}.

Definition with_session (x : option SessionRow) (s : State) : State :=
  mkState x (participants s) (messages s) (events s) (artifacts s) (sandbox s)
          (sandboxSocket s) (pendingPushResolvers s) (promises s) (effects s).

Definition with_participants (x : list ParticipantRow) (s : State) : State :=
  mkState (session s) x (messages s) (events s) (artifacts s) (sandbox s)
          (sandboxSocket s) (pendingPushResolvers s) (promises s) (effects s).

Definition with_messages (x : list MessageRow) (s : State) : State :=
  mkState (session s) (participants s) x (events s) (artifacts s) (sandbox s)
          (sandboxSocket s) (pendingPushResolvers s) (promises s) (effects s).

Definition with_events (x : list EventRow) (s : State) : State :=
  mkState (session s) (participants s) (messages s) x (artifacts s) (sandbox s)
          (sandboxSocket s) (pendingPushResolvers s) (promises s) (effects s).

Definition with_artifacts (x : list ArtifactRow) (s : State) : State :=
  mkState (session s) (participants s) (messages s) (events s) x (sandbox s)
          (sandboxSocket s) (pendingPushResolvers s) (promises s) (effects s).

Definition with_sandbox (x : option SandboxRow) (s : State) : State :=
  mkState (session s) (participants s) (messages s) (events s) (artifacts s) x
          (sandboxSocket s) (pendingPushResolvers s) (promises s) (effects s).

Definition with_sandboxSocket (x : option Socket) (s : State) : State :=
  mkState (session s) (participants s) (messages s) (events s) (artifacts s)
          (sandbox s) x (pendingPushResolvers s) (promises s) (effects s).

Definition with_pendingPushResolvers (x : gmap string nat) (s : State) : State :=
  mkState (session s) (participants s) (messages s) (events s) (artifacts s)
          (sandbox s) (sandboxSocket s) x (promises s) (effects s).

Definition with_promises (x : list PromiseState) (s : State) : State :=
  mkState (session s) (participants s) (messages s) (events s) (artifacts s)
          (sandbox s) (sandboxSocket s) (pendingPushResolvers s) x (effects s).

Definition with_effects (x : list Effect) (s : State) : State :=
  mkState (session s) (participants s) (messages s) (events s) (artifacts s)
          (sandbox s) (sandboxSocket s) (pendingPushResolvers s) (promises s) x.

(** A freshly activated actor: no rows, no socket, nothing pending. *)
Definition initialState : State :=
  mkState None [] [] [] [] None None ∅ [] [].

(** [a ?? b] *)
Definition nullish {A} (a b : option A) : option A :=
  match a with
  | Some _ => a
  | None => b
  end.

(* ===================================================================== *)
(** * The repository                                                       *)
(* ===================================================================== *)

Module Repository.

(** Modelled from the spec: the [SessionRepository] class
    ([session/repository]) is not among the source files.  Its rows are
    the entities of the data model; the message table is kept in creation
    order.  [getProcessingMessage] is "a Message with status=processing",
    [null] when there is none. *)
Definition getProcessingMessage (s : State) : option MessageRow :=
  find (fun m => bool_decide (status m = processing)) (messages s).

(** Modelled from the spec: "the oldest pending Message (FIFO by creation
    order)"; [SessionRepository.getNextPendingMessage] is missing. *)
Definition getNextPendingMessage (s : State) : option MessageRow :=
  find (fun m => bool_decide (status m = pending)) (messages s).

Definition markProcessing (id : string) (now : Z) (m : MessageRow) : MessageRow :=
  if String.eqb (msg_id m) id
  then mkMessageRow (msg_id m) (author_id m) (content m) (source m) (msg_model m)
         (msg_reasoning_effort m) (attachments m) (callback_context m)
         processing (created_at m) (Some now) (completed_at m)
  else m.

(** Modelled from the spec: "mark the Message processing (sets started
    timestamp)"; [SessionRepository.updateMessageToProcessing] is missing.
    The update addresses the row by its id. *)
Definition updateMessageToProcessing (id : string) (now : Z) (s : State) : State :=
  with_messages (map (markProcessing id now) (messages s)) s.

Definition markCompletion (id : string) (st : MessageStatus) (now : Z)
  (m : MessageRow) : MessageRow :=
  if String.eqb (msg_id m) id
  then mkMessageRow (msg_id m) (author_id m) (content m) (source m) (msg_model m)
         (msg_reasoning_effort m) (attachments m) (callback_context m)
         st (created_at m) (started_at m) (Some now)
  else m.

(** Modelled from the spec: "transition it to completed/failed" with the
    completed timestamp; [SessionRepository.updateMessageCompletion] is
    missing. *)
Definition updateMessageCompletion (id : string) (st : MessageStatus) (now : Z)
  (s : State) : State :=
  with_messages (map (markCompletion id st now) (messages s)) s.

(** Modelled from the spec: "persists a Message with status=pending";
    [SessionRepository.createMessage] is missing. *)
Definition createMessage (m : MessageRow) (s : State) : State :=
  with_messages (messages s ++ [m]) s.

(** Modelled from the spec: the Event log is append-only;
    [SessionRepository.createEvent] is missing. *)
Definition createEvent (e : EventRow) (s : State) : State :=
  with_events (events s ++ [e]) s.

(** Modelled from the spec: "heartbeats only update
    Sandbox.last_heartbeat"; [SessionRepository.updateSandboxHeartbeat] is
    missing. *)
Definition updateSandboxHeartbeat (now : Z) (s : State) : State :=
  with_sandbox
    ((fun sb => mkSandboxRow (sb_id sb) (sb_status sb) (git_sync_status sb)
                  (Some now) (auth_token sb) (modal_sandbox_id sb)) <$> sandbox s) s.

(** Modelled from the spec: "update Sandbox git-sync status";
    [SessionRepository.updateSandboxGitSyncStatus] is missing. *)
Definition updateSandboxGitSyncStatus (st : option string) (s : State) : State :=
  with_sandbox
    ((fun sb => mkSandboxRow (sb_id sb) (sb_status sb) st
                  (last_heartbeat sb) (auth_token sb) (modal_sandbox_id sb)) <$> sandbox s) s.

(** Modelled from the spec: the Sandbox status column;
    [SessionRepository.updateSandboxStatus] is missing. *)
Definition updateSandboxStatus (st : string) (s : State) : State :=
  with_sandbox
    ((fun sb => mkSandboxRow (sb_id sb) st (git_sync_status sb)
                  (last_heartbeat sb) (auth_token sb) (modal_sandbox_id sb)) <$> sandbox s) s.

(** Modelled from the spec: "Session current SHA";
    [SessionRepository.updateSessionCurrentSha] is missing. *)
Definition updateSessionCurrentSha (sha : string) (s : State) : State :=
  with_session
    ((fun r => mkSessionRow (session_id r) (session_name r) (repo_owner r)
                 (repo_name r) (branch_name r) (Some sha) (session_model r)
                 (session_reasoning_effort r) (session_status r)) <$> session s) s.

(** Modelled from the spec: the Session branch name, addressed by the
    session id; [SessionRepository.updateSessionBranch] is missing. *)
Definition updateSessionBranch (id branch : string) (s : State) : State :=
  with_session
    ((fun r => if String.eqb (session_id r) id
               then mkSessionRow (session_id r) (session_name r) (repo_owner r)
                      (repo_name r) (Some branch) (current_sha r) (session_model r)
                      (session_reasoning_effort r) (session_status r)
               else r) <$> session s) s.

(** Modelled from the spec: "exactly one row per actor instance", [null]
    before the first init; [SessionRepository.getSession] is missing. *)
Definition getSession (s : State) : option SessionRow := session s.

(** Modelled from the spec: "at most one live row per session";
    [SessionRepository.getSandbox] is missing. *)
Definition getSandbox (s : State) : option SandboxRow := sandbox s.

(** Modelled from the spec: the Participant row with a given id;
    [SessionRepository.getParticipantById] is missing. *)
Definition getParticipantById (id : string) (s : State) : option ParticipantRow :=
  find (fun p => String.eqb (part_id p) id) (participants s).

(** Modelled from the spec: "one row per distinct user", looked up by the
    user id; [SessionRepository.getParticipantByUserId] is missing. *)
Definition getParticipantByUserId (uid : string) (s : State) : option ParticipantRow :=
  find (fun p => String.eqb (user_id p) uid) (participants s).

(** Modelled from the spec: one row per distinct user;
    [SessionRepository.createParticipant] is missing. *)
Definition createParticipant (p : ParticipantRow) (s : State) : State :=
  with_participants (participants s ++ [p]) s.

(** Modelled from the spec: the author of the Message that is processing;
    [SessionRepository.getProcessingMessageAuthor] is missing. *)
Definition getProcessingMessageAuthor (s : State) : option string :=
  author_id <$> getProcessingMessage s.

(** Modelled from the spec: the length of the queue, the Messages that are
    pending or processing; [SessionRepository.getPendingOrProcessingCount]
    is missing. *)
Definition getPendingOrProcessingCount (s : State) : nat :=
  length (List.filter
            (fun m => bool_decide (status m = pending)
                      || bool_decide (status m = processing)) (messages s)).

(** Modelled from the spec: the Artifact rows of the session;
    [SessionRepository.listArtifacts] is missing. *)
Definition listArtifacts (s : State) : list ArtifactRow := artifacts s.

(** Modelled from the spec: Artifact rows are created, never replaced;
    [SessionRepository.createArtifact] is missing. *)
Definition createArtifact (a : ArtifactRow) (s : State) : State :=
  with_artifacts (artifacts s ++ [a]) s.

(** Modelled from the spec: stored token fields of a Participant, addressed
    by its id; [SessionRepository.updateParticipantTokens] is missing. *)
Definition updateParticipantTokens (id : string) (access : string)
  (refresh : option string) (expires : Z) (s : State) : State :=
  with_participants
    (map (fun p => if String.eqb (part_id p) id
                   then mkParticipantRow (part_id p) (user_id p) (github_user_id p)
                          (github_login p) (github_email p) (github_name p) (role p)
                          (Some access)
                          (nullish refresh (github_refresh_token_encrypted p))
                          (Some expires) (ws_auth_token p) (ws_token_created_at p)
                          (joined_at p)
                   else p) (participants s)) s.

End Repository.

(* ===================================================================== *)
(** * Collaborators that the session code calls                            *)
(* ===================================================================== *)

(** The model catalogue of [utils/models], which is not among the source
    files; the handlers only call it. *)
Class Models := {
  DEFAULT_MODEL : string;
  isValidModel : string -> bool;
  getValidModelOrDefault : option string -> string;
  getDefaultReasoningEffort : string -> option string;
  isValidReasoningEffort : string -> string -> bool
}.

(** The synchronous part of the [SourceControlProvider] interface.  Its
    asynchronous methods ([generatePushAuth], [getRepository],
    [createPullRequest]) answer through the results handed to the create-PR
    handler when it resumes. *)
Class SourceControlProvider := {
  providerName : string;
  (** [buildManualPullRequestUrl({owner, name, sourceBranch, targetBranch})] *)
  buildManualPullRequestUrl : string -> string -> string -> string -> string;
  (** [buildGitPushSpec({owner, name, sourceRef, targetBranch, auth, force})] *)
  buildGitPushSpec : string -> string -> string -> string -> string -> bool -> GitPushSpec
}.

(** Branch naming of [source-control/branch-resolution] and of the shared
    package, neither of which is among the source files. *)
Class BranchNaming := {
  generateBranchName : string -> string;
  (** [resolveHeadBranchForPr({requestedHeadBranch, sessionBranchName,
      generatedBranchName, baseBranch}).headBranch] *)
  resolveHeadBranchForPr : option string -> option string -> string -> string -> string
}.

(** The part of [Env] that the create-PR handler reads. *)
Record Env := mkEnv {
  WEB_APP_URL : option string;
  WORKER_URL : option string;
  GITHUB_CLIENT_ID : option string;
  GITHUB_CLIENT_SECRET : option string
}.

(* ===================================================================== *)
(** * sandbox-handler.ts                                                   *)
(* ===================================================================== *)

Module SandboxHandler.
Import JsString Repository.

Section WithModels.
Context `{Models}.

Definition emit (e : Effect) (s : State) : State :=
  with_effects (effects s ++ [e]) s.

(** [deps.broadcast(message)] *)
Definition broadcast (m : ServerMessage) (s : State) : State :=
  emit (Broadcast m) s.

(** [deps.safeSend(ws, message)] and [wsManager.send(ws, message)]; the
    boolean they return only reaches the log. *)
Definition safeSend (ws : Socket) (c : SandboxCommand) (s : State) : State :=
  emit (Send ws c) s.

(** [spawnSandbox(deps)]: hands over to the lifecycle manager. *)
Definition spawnSandbox (s : State) : State := emit SpawnSandbox s.

(** [processMessageQueue(deps)].  Everything before the closing
    [await spawnSandbox(deps)] runs without suspension.  The attachments
    are the text stored with the Message, which [JSON.parse] reads back. *)
Definition processMessageQueue (now : Z) (s : State) : State :=
  match getProcessingMessage s with
  | Some _ => s
  | None =>
      match getNextPendingMessage s with
      | None => s
      | Some message =>
          match sandboxSocket s with
          | None => spawnSandbox (broadcast sm_sandbox_spawning s)
          | Some sandboxWs =>
              let s1 := updateMessageToProcessing (msg_id message) now s in
              let s2 := broadcast (sm_processing_status true) s1 in
              let s3 := emit (UpdateLastActivity now) s2 in
              let author := getParticipantById (author_id message) s3 in
              let session := getSession s3 in
              let resolvedModel :=
                getValidModelOrDefault
                  (orElse (msg_model message) (session_model <$> session)) in
              let resolvedEffort :=
                nullish (msg_reasoning_effort message)
                  (nullish (session ≫= session_reasoning_effort)
                     (getDefaultReasoningEffort resolvedModel)) in
              let command :=
                cmd_prompt (msg_id message) (content message) resolvedModel
                  resolvedEffort
                  (mkAuthor (default "unknown" (user_id <$> author))
                     (author ≫= github_name) (author ≫= github_email))
                  (if truthyOpt (attachments message) then attachments message
                   else None) in
              safeSend sandboxWs command s3
          end
      end
  end.

(** The synthetic event that [stopExecution] broadcasts. *)
Definition syntheticExecutionComplete (id : string) (now : Z) : SandboxEvent :=
  mkSandboxEvent "execution_complete" (Some id) false None None None None
    (Some "") (Some now) None.

(** [stopExecution(deps)] *)
Definition stopExecution (now : Z) (s : State) : State :=
  let s1 :=
    match getProcessingMessage s with
    | Some processingMessage =>
        let a := updateMessageCompletion (msg_id processingMessage) failed now s in
        let b := broadcast (sm_sandbox_event
                   (syntheticExecutionComplete (msg_id processingMessage) now)) a in
        emit (NotifySlackBot (msg_id processingMessage) false) b
    | None => s
    end in
  let s2 := broadcast (sm_processing_status false) s1 in
  match sandboxSocket s2 with
  | Some sandboxWs => safeSend sandboxWs cmd_stop s2
  | None => s2
  end.

(** [normalizeBranchName(name)] *)
Definition normalizeBranchName (name : string) : string :=
  toLowerCase (trim name).

(** Settling a promise: only a pending promise changes. *)
Definition settle (pid : nat) (st : PromiseState) (s : State) : State :=
  match promises s !! pid with
  | Some Pending => with_promises (<[pid := st]> (promises s)) s
  | _ => s
  end.

(** [handlePushEvent(deps, event)] *)
Definition handlePushEvent (event : SandboxEvent) (s : State) : State :=
  match ev_branchName event with
  | None => s
  | Some branchName =>
      if negb (truthy branchName) then s
      else
        let normalizedBranch := normalizeBranchName branchName in
        match pendingPushResolvers s !! normalizedBranch with
        | None => s
        | Some resolver =>
            let s1 :=
              if String.eqb (ev_type event) "push_complete"
              then settle resolver Resolved s
              else if String.eqb (ev_type event) "push_error"
              then settle resolver
                     (Rejected (default "Push failed"
                                  (orElse (ev_error event) (Some "Push failed")))) s
              else s in
            with_pendingPushResolvers
              (delete normalizedBranch (pendingPushResolvers s1)) s1
        end
  end.

(** The Message an event is stored under: the one the event names, else
    the one that is processing. *)
Definition attributedMessage (event : SandboxEvent) (s : State) : option string :=
  match ev_messageId event with
  | Some id => Some id
  | None => msg_id <$> getProcessingMessage s
  end.

(** [processSandboxEvent(deps, event)]; [eventId] is the [generateId()] of
    the stored row.  An [execution_complete] event suspends the handler at
    [await deps.lifecycleManager.scheduleInactivityCheck()]; [afterAwait] is
    what runs once it resumes. *)
Definition processSandboxEvent_with (afterAwait : State -> State) (now : Z)
  (eventId : string) (event : SandboxEvent) (s : State) : State :=
  if String.eqb (ev_type event) "heartbeat"
  then updateSandboxHeartbeat now s
  else
    let eventMessageId := ev_messageId event in
    let processingMessage := getProcessingMessage s in
    let messageId := nullish eventMessageId (msg_id <$> processingMessage) in
    let s1 := createEvent
                (mkEventRow eventId (ev_type event) event messageId now) s in
    if String.eqb (ev_type event) "execution_complete"
    then
      let isStillProcessing :=
        match messageId, processingMessage with
        | Some completionMessageId, Some p =>
            String.eqb (msg_id p) completionMessageId
        | _, _ => false
        end in
      let s2 :=
        match messageId with
        | Some completionMessageId =>
            if isStillProcessing
            then
              let st := if ev_success event then completed else failed in
              let a := updateMessageCompletion completionMessageId st now s1 in
              let b := broadcast (sm_sandbox_event event) a in
              let c := broadcast
                         (sm_processing_status
                            (bool_decide (getProcessingMessage b <> None))) b in
              emit (NotifySlackBot completionMessageId (ev_success event)) c
            else s1
        | None => s1
        end in
      let s3 := emit (TriggerSnapshot "execution_complete") s2 in
      let s4 := emit (UpdateLastActivity now) s3 in
      let s5 := emit ScheduleInactivityCheck s4 in
      afterAwait s5
    else
      let s2 :=
        if String.eqb (ev_type event) "git_sync"
        then
          let a := updateSandboxGitSyncStatus (ev_status event) s1 in
          match ev_sha event with
          | Some sha => if truthy sha then updateSessionCurrentSha sha a else a
          | None => a
          end
        else s1 in
      let s3 :=
        if String.eqb (ev_type event) "push_complete"
           || String.eqb (ev_type event) "push_error"
        then handlePushEvent event s2
        else s2 in
      broadcast (sm_sandbox_event event) s3.

(** The handler run to its end: after the await comes
    [await processMessageQueue(deps)]. *)
Definition processSandboxEvent (now : Z) (eventId : string)
  (event : SandboxEvent) (s : State) : State :=
  processSandboxEvent_with (processMessageQueue now) now eventId event s.

(** The handler as far as it gets before another handler runs at its
    await. *)
Definition processSandboxEvent_suspended (now : Z) (eventId : string)
  (event : SandboxEvent) (s : State) : State :=
  processSandboxEvent_with (fun s' => s') now eventId event s.

(** What [pushBranchToRemote] has done when it reaches its [await]. *)
Inductive PushStart : Type :=
| PushSatisfied
| PushAwaiting (promise : nat) (normalizedBranch : string).

(** [pushBranchToRemote(deps, branchName, pushSpec)] up to
    [await pushPromise]: without a sandbox socket it returns
    [{ success: true }] at once; otherwise it registers the resolver of a new
    promise under the normalized branch name and sends the push command. *)
Definition pushBranchToRemote_start (branchName : string) (pushSpec : GitPushSpec)
  (s : State) : PushStart * State :=
  match sandboxSocket s with
  | None => (PushSatisfied, s)
  | Some sandboxWs =>
      let normalizedBranch := normalizeBranchName branchName in
      let pid := length (promises s) in
      let s1 := with_promises (promises s ++ [Pending]) s in
      let s2 := with_pendingPushResolvers
                  (<[normalizedBranch := pid]> (pendingPushResolvers s1)) s1 in
      (PushAwaiting pid normalizedBranch, safeSend sandboxWs (cmd_push pushSpec) s2)
  end.

(** The 180 second timer of [pushBranchToRemote], when it fires. *)
Definition pushTimeout (pid : nat) (normalizedBranch : string) (s : State) : State :=
  match pendingPushResolvers s !! normalizedBranch with
  | Some _ =>
      settle pid (Rejected "Push operation timed out after 180 seconds")
        (with_pendingPushResolvers
           (delete normalizedBranch (pendingPushResolvers s)) s)
  | None => s
  end.

(** Result of [pushBranchToRemote]. *)
Inductive PushResult : Type :=
| PushSuccess
| PushFailure (error : string).

(** What [pushBranchToRemote] returns without waiting, if anything. *)
Definition immediateResult (w : PushStart) : option PushResult :=
  match w with
  | PushSatisfied => Some PushSuccess
  | PushAwaiting _ _ => None
  end.

(** [pushBranchToRemote] after [await pushPromise], for a settled promise. *)
Definition pushBranchToRemote_finish (p : PromiseState) : option PushResult :=
  match p with
  | Pending => None
  | Resolved => Some PushSuccess
  | Rejected message =>
      Some (PushFailure ("Failed to push branch: Error: " ++ message))
  end.

End WithModels.
End SandboxHandler.

(* ===================================================================== *)
(** * The session actor: prompts, sandbox socket, inbound actions          *)
(* ===================================================================== *)

Module SessionDO.
Import JsString Repository SandboxHandler.

Section WithModels.
Context `{Models}.

(** [createParticipantRecord(deps, userId, name)] *)
Definition createParticipantRecord (id userId name : string) (now : Z) (s : State)
  : ParticipantRow * State :=
  let row := mkParticipantRow id userId None None None (Some name) "member"
               None None None None None now in
  (row, createParticipant row s).

(** [writeUserMessageEvent(deps, participant, content, messageId, now)] *)
Definition writeUserMessageEvent (eventId : string) (participant : ParticipantRow)
  (content messageId : string) (now : Z) (s : State) : State :=
  let userMessageEvent :=
    mkSandboxEvent "user_message" (Some messageId) false None None None None
      None (Some now) (Some content) in
  let s1 := createEvent
              (mkEventRow eventId "user_message" userMessageEvent (Some messageId) now)
              s in
  broadcast (sm_sandbox_event userMessageEvent) s1.

(** [validateReasoningEffort(log, model, effort)] *)
Definition validateReasoningEffort (model : string) (effort : option string)
  : option string :=
  match effort with
  | Some e =>
      if negb (truthy e) then None
      else if isValidReasoningEffort model e then Some e
      else None
  | None => None
  end.

(** Body of [POST /internal/prompt]; [attachments] and [callbackContext]
    are kept as the text [JSON.stringify] makes of them. *)
Record PromptBody := mkPromptBody {
  pb_content : string;
  pb_authorId : string;
  pb_source : string;
  pb_model : option string;
  pb_reasoningEffort : option string;
  pb_attachments : option string;
  pb_callbackContext : option string
}.

(** The three [generateId()] results one enqueue may use. *)
Record PromptIds := mkPromptIds {
  pi_participant : string;
  pi_message : string;
  pi_event : string
}.

(** [handleEnqueuePrompt(deps, request, url)] *)
Definition handleEnqueuePrompt (body : PromptBody) (ids : PromptIds) (now : Z)
  (s : State) : State :=
  let '(participant, s1) :=
    match getParticipantByUserId (pb_authorId body) s with
    | Some p => (p, s)
    | None =>
        createParticipantRecord (pi_participant ids) (pb_authorId body)
          (pb_authorId body) now s
    end in
  let messageId := pi_message ids in
  let messageModel :=
    match pb_model body with
    | Some m => if truthy m && isValidModel m then Some m else None
    | None => None
    end in
  let effectiveModelForEffort :=
    default DEFAULT_MODEL
      (orElse (orElse messageModel (session_model <$> getSession s1))
         (Some DEFAULT_MODEL)) in
  let messageReasoningEffort :=
    validateReasoningEffort effectiveModelForEffort (pb_reasoningEffort body) in
  let s2 :=
    createMessage
      (mkMessageRow messageId (part_id participant) (pb_content body)
         (pb_source body) messageModel messageReasoningEffort
         (pb_attachments body) (pb_callbackContext body) pending now None None)
      s1 in
  let s3 := writeUserMessageEvent (pi_event ids) participant (pb_content body)
              messageId now s2 in
  processMessageQueue now s3.

(** What [getClientInfo(deps, ws)] knows of a subscribed client socket. *)
Record ClientInfo := mkClientInfo {
  ci_userId : string;
  ci_name : string
}.

(** The [prompt] frame of a client socket; [attachments] as the text
    [JSON.stringify] makes of them. *)
Record ClientPromptData := mkClientPromptData {
  cp_content : string;
  cp_model : option string;
  cp_reasoningEffort : option string;
  cp_attachments : option string
}.

(** [handlePromptMessage(deps, ws, data)]; [client] is the result of
    [getClientInfo(deps, ws)]. *)
Definition handlePromptMessage (ws : Socket) (client : option ClientInfo)
  (data : ClientPromptData) (ids : PromptIds) (now : Z) (s : State) : State :=
  match client with
  | None => emit (Reply ws (sm_error "NOT_SUBSCRIBED" "Must subscribe first")) s
  | Some client =>
      let messageId := pi_message ids in
      let '(participant, s1) :=
        match getParticipantByUserId (ci_userId client) s with
        | Some p => (p, s)
        | None =>
            createParticipantRecord (pi_participant ids) (ci_userId client)
              (ci_name client) now s
        end in
      let messageModel :=
        match cp_model data with
        | Some m => if truthy m && isValidModel m then Some m else None
        | None => None
        end in
      let effectiveModelForEffort :=
        default DEFAULT_MODEL
          (orElse (orElse messageModel (session_model <$> getSession s1))
             (Some DEFAULT_MODEL)) in
      let messageReasoningEffort :=
        validateReasoningEffort effectiveModelForEffort (cp_reasoningEffort data) in
      let s2 :=
        createMessage
          (mkMessageRow messageId (part_id participant) (cp_content data) "web"
             messageModel messageReasoningEffort (cp_attachments data) None
             pending now None None)
          s1 in
      let s3 := writeUserMessageEvent (pi_event ids) participant (cp_content data)
                  messageId now s2 in
      let position := getPendingOrProcessingCount s3 in
      let s4 := emit (Reply ws (sm_prompt_queued messageId position)) s3 in
      processMessageQueue now s4
  end.

(** [handleTyping(deps)]; [isSpawning] is the answer of
    [lifecycleManager.isSpawning()]. *)
Definition handleTyping (isSpawning : bool) (s : State) : State :=
  match sandboxSocket s with
  | Some _ => s
  | None =>
      if isSpawning then s
      else spawnSandbox (broadcast sm_sandbox_warming s)
  end.

(** Outcome of a sandbox WebSocket upgrade request. *)
Inductive UpgradeStatus : Type :=
| Gone410
| Forbidden403
| Unauthorized401
| Switching101.

(** [SessionDO.handleSandboxWebSocketUpgrade(request, url)]; [ws] is the
    server end of the new socket pair.  An accepted upgrade suspends at
    [await this.lifecycleManager.scheduleInactivityCheck()]; [afterAwait] is
    what runs once it resumes. *)
Definition handleSandboxWebSocketUpgrade_with (afterAwait : State -> State)
  (authHeader sandboxId : option string) (ws : Socket) (now : Z) (s : State)
  : UpgradeStatus * State :=
  let sb := getSandbox s in
  let expectedToken :=
    match sb with
    | None => "undefined"
    | Some r => default "null" (auth_token r)
    end in
  let expectedSandboxId := sb ≫= modal_sandbox_id in
  let st := sb_status <$> sb in
  if bool_decide (st = Some "stopped") || bool_decide (st = Some "stale")
  then (Gone410, s)
  else if truthyOpt expectedSandboxId
          && negb (bool_decide (sandboxId = expectedSandboxId))
  then (Forbidden403, s)
  else if negb (truthyOpt authHeader)
          || negb (bool_decide (authHeader = Some ("Bearer " ++ expectedToken)))
  then (Unauthorized401, s)
  else
    let s1 := with_sandboxSocket (Some ws) s in
    let s2 := emit OnSandboxConnected s1 in
    let s3 := updateSandboxStatus "ready" s2 in
    let s4 := broadcast (sm_sandbox_status "ready") s3 in
    let s5 := emit (UpdateLastActivity now) s4 in
    let s6 := emit ScheduleInactivityCheck s5 in
    (Switching101, afterAwait s6).

(** The upgrade run to its end: after the await comes
    [processMessageQueue(this.deps)]. *)
Definition handleSandboxWebSocketUpgrade (authHeader sandboxId : option string)
  (ws : Socket) (now : Z) (s : State) : UpgradeStatus * State :=
  handleSandboxWebSocketUpgrade_with (processMessageQueue now) authHeader
    sandboxId ws now s.

(** The upgrade as far as it gets before another handler runs at its
    await. *)
Definition handleSandboxWebSocketUpgrade_suspended
  (authHeader sandboxId : option string) (ws : Socket) (now : Z) (s : State)
  : UpgradeStatus * State :=
  handleSandboxWebSocketUpgrade_with (fun s' => s') authHeader sandboxId ws now s.

(** [SessionDO.webSocketClose(ws, code, reason, wasClean)] for a socket
    tagged as the sandbox's. *)
Definition webSocketClose (ws : Socket) (code : Z) (s : State) : State :=
  if bool_decide (sandboxSocket s = Some ws)
  then
    let s1 := with_sandboxSocket None s in
    if (code =? 1000) || (code =? 1001)
    then updateSandboxStatus "stopped" s1
    else emit ScheduleDisconnectCheck s1
  else s.

(** What reaches the actor from outside.  A handler that awaits in its
    middle appears twice: run to its end, and suspended at its await, in
    which case [ProcessQueue] is what it does when it resumes. *)
Inductive Action : Type :=
| Enqueue (body : PromptBody) (ids : PromptIds) (now : Z)
| ClientPrompt (ws : Socket) (client : option ClientInfo)
               (data : ClientPromptData) (ids : PromptIds) (now : Z)
| Typing (isSpawning : bool)
| ProcessQueue (now : Z)
| Stop (now : Z)
| FromSandbox (event : SandboxEvent) (eventId : string) (now : Z)
| FromSandboxSuspended (event : SandboxEvent) (eventId : string) (now : Z)
| SandboxUpgrade (authHeader sandboxId : option string) (ws : Socket) (now : Z)
| SandboxUpgradeSuspended (authHeader sandboxId : option string) (ws : Socket)
                          (now : Z)
| SandboxClose (ws : Socket) (code : Z).

Definition apply (a : Action) (s : State) : State :=
  match a with
  | Enqueue body ids now => handleEnqueuePrompt body ids now s
  | ClientPrompt ws client data ids now =>
      handlePromptMessage ws client data ids now s
  | Typing isSpawning => handleTyping isSpawning s
  | ProcessQueue now => processMessageQueue now s
  | Stop now => stopExecution now s
  | FromSandbox event eventId now => processSandboxEvent now eventId event s
  | FromSandboxSuspended event eventId now =>
      processSandboxEvent_suspended now eventId event s
  | SandboxUpgrade authHeader sandboxId ws now =>
      (handleSandboxWebSocketUpgrade authHeader sandboxId ws now s).2
  | SandboxUpgradeSuspended authHeader sandboxId ws now =>
      (handleSandboxWebSocketUpgrade_suspended authHeader sandboxId ws now s).2
  | SandboxClose ws code => webSocketClose ws code s
  end.

(** [generateId()] never repeats an id: a prompt is admissible when its
    message id is not the id of a stored Message. *)
Definition admissible (a : Action) (s : State) : Prop :=
  match a with
  | Enqueue _ ids _ => pi_message ids ∉ map msg_id (messages s)
  | ClientPrompt _ _ _ ids _ => pi_message ids ∉ map msg_id (messages s)
  | _ => True
  end.

(** States the actor reaches from [s] by admissible actions. *)
Inductive reaches (s : State) : State -> Prop :=
| reaches_refl : reaches s s
| reaches_step t a :
    reaches s t -> admissible a t -> reaches s (apply a t).

Definition reachable (s : State) : Prop := reaches initialState s.

(** Number of Messages whose status is [processing]. *)
Definition processingCount (s : State) : nat :=
  length (filter (fun m => status m = processing) (messages s)).

(** Status of the Message with a given id. *)
Definition statusOf (id : string) (s : State) : option MessageStatus :=
  status <$> find (fun m => String.eqb (msg_id m) id) (messages s).

(** An execution-complete broadcast that names the Message [id]. *)
Definition isExecutionCompleteFor (id : string) (e : Effect) : bool :=
  match e with
  | Broadcast (sm_sandbox_event ev) =>
      String.eqb (ev_type ev) "execution_complete"
      && bool_decide (ev_messageId ev = Some id)
  | _ => false
  end.

Definition executionCompleteCount (id : string) (l : list Effect) : nat :=
  length (List.filter (isExecutionCompleteFor id) l).

(** The client-visible completion handling: a sandbox-event broadcast or
    a callback notification. *)
Definition isCompletionHandling (e : Effect) : bool :=
  match e with
  | Broadcast (sm_sandbox_event _) => true
  | NotifySlackBot _ _ => true
  | _ => false
  end.

(** A Message that has ended. *)
Definition finished (o : option MessageStatus) : Prop :=
  o = Some completed \/ o = Some failed.

(** Any two Messages that are processing are the same Message. *)
Definition singleFlight (s : State) : Prop :=
  forall a b, In a (messages s) -> In b (messages s) ->
    status a = processing -> status b = processing -> msg_id a = msg_id b.

(** What every state the actor reaches satisfies: message ids are distinct,
    at most one Message is processing, and an execution-complete broadcast
    has been emitted at most once per Message, and only for a Message that
    has ended. *)
Definition wellFormed (s : State) : Prop :=
  NoDup (map msg_id (messages s))
  /\ singleFlight s
  /\ forall id,
       (executionCompleteCount id (effects s) <= 1)%nat
       /\ ((0 < executionCompleteCount id (effects s))%nat ->
           finished (statusOf id s)).

(** An effect that is not an execution-complete broadcast. *)
Definition quiet (e : Effect) : Prop := forall id, isExecutionCompleteFor id e = false.

(** From a well-formed state [s], the state [s'] is well formed again, its
    effects extend those of [s], and a Message that had ended in [s] has
    the same status in [s']. *)
Definition evolves (s s' : State) : Prop :=
  wellFormed s ->
  wellFormed s'
  /\ (exists l, effects s' = (effects s ++ l)%list)
  /\ (forall id, finished (statusOf id s) -> statusOf id s' = statusOf id s).

Definition hasId (id : string) (m : MessageRow) : bool := String.eqb (msg_id m) id.

(** The row [m] once it is marked processing at [now]. *)
Definition started (m : MessageRow) (now : Z) : MessageRow :=
  mkMessageRow (msg_id m) (author_id m) (content m) (source m) (msg_model m)
    (msg_reasoning_effort m) (attachments m) (callback_context m)
    processing (created_at m) (Some now) (completed_at m).

End WithModels.
End SessionDO.

(* ===================================================================== *)
(** * The create-PR route                                                  *)
(* ===================================================================== *)

Module CreatePr.
Import JsString Repository SandboxHandler.

(** Responses of [handleCreatePR]. *)
Inductive Response : Type :=
| JsonError (httpStatus : Z) (error : string)
| ManualPr (createPrUrl headBranch baseBranch : string)
| PrCreated (prNumber : Z) (prUrl state : string).

(** What a rejected call throws. *)
Inductive Thrown : Type :=
| ProviderError (message : string) (httpStatus : option Z)
| OtherError (message : string)
| NotAnError.

Record CreatePrBody := mkCreatePrBody {
  pr_title : string;
  pr_body : string;
  pr_baseBranch : option string;
  pr_headBranch : option string
}.

Record RepoInfo := mkRepoInfo {
  defaultBranch : string;
  repoFullName : string
}.

Record PrResult := mkPrResult {
  prr_id : Z;
  prr_webUrl : string;
  prr_state : string
}.

(** What a successful token refresh yields: the re-encrypted tokens and the
    lifetime the provider announced. *)
Record RefreshedTokens := mkRefreshedTokens {
  rt_access_encrypted : string;
  rt_refresh_encrypted : option string;
  rt_expires_in : option Z
}.

(** Argument of [sourceControlProvider.createPullRequest]. *)
Record PullRequestRequest := mkPullRequestRequest {
  prq_title : string;
  prq_body : string;
  prq_sourceBranch : string;
  prq_targetBranch : string
}.

(** Locals of [handleCreatePR] once the first check has passed. *)
Record PrStart := mkPrStart {
  ps_body : CreatePrBody;
  ps_session : SessionRow;
  ps_participant : ParticipantRow;
  ps_sessionId : string;
  ps_generatedHeadBranch : string
}.

(** Locals of [handleCreatePR] once the branches are resolved. *)
Record PrBranches := mkPrBranches {
  pb_start : PrStart;
  pb_pushAuth : string;
  pb_repoInfo : RepoInfo;
  pb_baseBranch : string;
  pb_headBranch : string
}.

(** A create-PR request in flight: the call it is suspended on, with the
    locals it holds, or its response. *)
Inductive PrTask : Type :=
| AwaitPushAuth (st : PrStart)
| AwaitRepository (st : PrStart) (pushAuth : string)
| AwaitPush (b : PrBranches) (w : PushStart)
| AwaitRefresh (b : PrBranches) (latestArtifacts : list ArtifactRow)
| AwaitDecrypt (b : PrBranches) (latestArtifacts : list ArtifactRow)
               (resolvedParticipant : ParticipantRow)
| AwaitCreatePullRequest (b : PrBranches) (auth : string)
                         (req : PullRequestRequest)
| Finished (r : Response).

(** The answer that resumes a suspended request. *)
Inductive Resumption : Type :=
| GotPushAuth (r : Thrown + string)
| GotRepository (r : Thrown + RepoInfo)
| PushSettled
| GotRefresh (r : option RefreshedTokens)
| GotDecrypt (r : option string)
| GotPullRequest (r : Thrown + PrResult).

Definition alreadyCreated : Response :=
  JsonError 409 "A pull request has already been created for this session.".

Definition isPr (a : ArtifactRow) : bool := String.eqb (art_type a) "pr".

(** [artifacts.find((artifact) => artifact.type === "pr")] *)
Definition findPrArtifact (l : list ArtifactRow) : option ArtifactRow :=
  find isPr l.

(** Number of Artifacts of type "pr". *)
Definition prArtifactCount (s : State) : nat :=
  length (List.filter isPr (artifacts s)).

(** The outer [catch] of [handleCreatePR]. *)
Definition caught (e : Thrown) : Response :=
  match e with
  | ProviderError message httpStatus =>
      JsonError (match httpStatus with
                 | Some st => if st =? 0 then 500 else st
                 | None => 500
                 end) message
  | OtherError message => JsonError 500 message
  | NotAnError => JsonError 500 "Failed to create PR"
  end.

(** [getPromptingParticipantForPR(deps)] *)
Definition getPromptingParticipantForPR (s : State) : Response + ParticipantRow :=
  match getProcessingMessageAuthor s with
  | None =>
      inl (JsonError 400
             "No active prompt found. PR creation must be triggered by a user prompt.")
  | Some authorId =>
      match getParticipantById authorId s with
      | None => inl (JsonError 401 "User not found. Please re-authenticate.")
      | Some participant => inr participant
      end
  end.

(** [isGitHubTokenExpired(participant)] with the default buffer of 60000 ms. *)
Definition isGitHubTokenExpired (participant : ParticipantRow) (now : Z) : bool :=
  match github_token_expires_at participant with
  | None => false
  | Some expiresAt => if expiresAt =? 0 then false else expiresAt <=? now + 60000
  end.

(** [parseArtifactMetadata(deps, artifact)] *)
Definition parseArtifactMetadata (a : ArtifactRow) : option Json :=
  match art_metadata a with
  | Some (WellFormed v) => Some v
  | Some (Malformed _) => None
  | None => None
  end.

(** [metadata[name]] on a parsed value: [undefined] unless the value is an
    object with that key (the last occurrence counts). *)
Definition field (name : string) (v : Json) : option Json :=
  match v with
  | JObj fields =>
      fold_left (fun acc kv => if String.eqb kv.1 name then Some kv.2 else acc)
        fields None
  | _ => None
  end.

(** Truthiness of a parsed JSON value. *)
Definition jsonTruthy (v : Json) : bool :=
  match v with
  | JNull => false
  | JBool b => b
  | JNum z => negb (z =? 0)
  | JStr s => truthy s
  | JArr _ => true
  | JObj _ => true
  end.

Definition isJsonString (v : option Json) (s : string) : bool :=
  match v with
  | Some (JStr x) => String.eqb x s
  | _ => false
  end.

(** [getExistingManualBranchArtifact(deps, artifacts, headBranch)] *)
Fixpoint getExistingManualBranchArtifact (l : list ArtifactRow) (headBranch : string)
  : option (ArtifactRow * Json) :=
  match l with
  | [] => None
  | artifact :: rest =>
      if negb (String.eqb (art_type artifact) "branch")
      then getExistingManualBranchArtifact rest headBranch
      else
        match parseArtifactMetadata artifact with
        | None => getExistingManualBranchArtifact rest headBranch
        | Some metadata =>
            if negb (jsonTruthy metadata)
            then getExistingManualBranchArtifact rest headBranch
            else if isJsonString (field "mode" metadata) "manual_pr"
                    && isJsonString (field "head" metadata) headBranch
            then Some (artifact, metadata)
            else getExistingManualBranchArtifact rest headBranch
        end
  end.

(** [getCreatePrUrlFromManualArtifact(existing, fallbackUrl)] *)
Definition getCreatePrUrlFromManualArtifact (existing : ArtifactRow * Json)
  (fallbackUrl : string) : string :=
  match field "createPrUrl" existing.2 with
  | Some (JStr metadataUrl) =>
      if truthy metadataUrl then metadataUrl
      else if truthyOpt (art_url existing.1) then default fallbackUrl (art_url existing.1)
      else fallbackUrl
  | _ =>
      if truthyOpt (art_url existing.1) then default fallbackUrl (art_url existing.1)
      else fallbackUrl
  end.

Section WithCollaborators.
Context `{SourceControlProvider} `{BranchNaming}.
Variable env : Env.

(** The metadata of a manual-PR artifact, as it is stored. *)
Definition manualMetadata (headBranch baseBranch url : string) : Json :=
  JObj [ ("head", JStr headBranch); ("base", JStr baseBranch);
         ("mode", JStr "manual_pr"); ("createPrUrl", JStr url);
         ("provider", JStr providerName) ].

(** [buildManualPrFallbackResponse(deps, session, headBranch, baseBranch,
    artifacts, reason)]; the reason only reaches the log. *)
Definition buildManualPrFallbackResponse (session : SessionRow)
  (headBranch baseBranch : string) (arts : list ArtifactRow)
  (artifactId : string) (now : Z) (s : State) : Response * State :=
  let manualCreatePrUrl :=
    buildManualPullRequestUrl (repo_owner session) (repo_name session)
      headBranch baseBranch in
  match getExistingManualBranchArtifact arts headBranch with
  | Some existingManualArtifact =>
      let createPrUrl :=
        getCreatePrUrlFromManualArtifact existingManualArtifact manualCreatePrUrl in
      (ManualPr createPrUrl headBranch baseBranch, s)
  | None =>
      let s1 :=
        createArtifact
          (mkArtifactRow artifactId "branch" (Some manualCreatePrUrl)
             (Some (WellFormed (manualMetadata headBranch baseBranch manualCreatePrUrl)))
             now) s in
      let s2 := broadcast
                  (sm_artifact_created artifactId "branch" manualCreatePrUrl None) s1 in
      (ManualPr manualCreatePrUrl headBranch baseBranch, s2)
  end.

(** [handleCreatePR] from its entry to [await generatePushAuth()]. *)
Definition begin (body : CreatePrBody) (s : State) : PrTask :=
  match getSession s with
  | None => Finished (JsonError 404 "Session not found")
  | Some session =>
      match getPromptingParticipantForPR s with
      | inl response => Finished response
      | inr promptingParticipant =>
          let sessionId :=
            default (session_id session)
              (orElse (session_name session) (Some (session_id session))) in
          let generatedHeadBranch := generateBranchName sessionId in
          let initialArtifacts := listArtifacts s in
          match findPrArtifact initialArtifacts with
          | Some _ => Finished alreadyCreated
          | None =>
              AwaitPushAuth
                (mkPrStart body session promptingParticipant sessionId
                   generatedHeadBranch)
          end
      end
  end.

(** After [generatePushAuth()]. *)
Definition afterPushAuth (st : PrStart) (r : Thrown + string) : PrTask :=
  match r with
  | inl (ProviderError message _) => Finished (JsonError 500 message)
  | inl _ => Finished (JsonError 500 "Failed to generate push authentication")
  | inr token => AwaitRepository st token
  end.

(** After [getRepository()], up to [await pushBranchToRemote(...)]. *)
Definition afterRepository (st : PrStart) (pushAuth : string)
  (r : Thrown + RepoInfo) (s : State) : PrTask * State :=
  match r with
  | inl e => (Finished (caught e), s)
  | inr repoInfo =>
      let session := ps_session st in
      let baseBranch :=
        default (defaultBranch repoInfo)
          (orElse (pr_baseBranch (ps_body st)) (Some (defaultBranch repoInfo))) in
      let headBranch :=
        resolveHeadBranchForPr (pr_headBranch (ps_body st)) (branch_name session)
          (ps_generatedHeadBranch st) baseBranch in
      let pushSpec :=
        buildGitPushSpec (repo_owner session) (repo_name session) "HEAD"
          headBranch pushAuth true in
      let '(w, s1) := pushBranchToRemote_start headBranch pushSpec s in
      (AwaitPush (mkPrBranches st pushAuth repoInfo baseBranch headBranch) w, s1)
  end.

Definition newline : string := String (ascii_of_nat 10) EmptyString.

(** The request sent to [createPullRequest]: the body gets the session
    link footer. *)
Definition pullRequestRequest (b : PrBranches) : PullRequestRequest :=
  let st := pb_start b in
  let webAppUrl :=
    default "" (orElse (orElse (WEB_APP_URL env) (WORKER_URL env)) (Some "")) in
  let sessionUrl := webAppUrl ++ "/session/" ++ ps_sessionId st in
  let fullBody :=
    pr_body (ps_body st) ++ newline ++ newline ++ "---" ++ newline
    ++ "*Created with [Open-Inspect](" ++ sessionUrl ++ ")*" in
  mkPullRequestRequest (pr_title (ps_body st)) fullBody (pb_headBranch b)
    (pb_baseBranch b).

(** The manual fallback, with the locals of the request. *)
Definition fallback (b : PrBranches) (latestArtifacts : list ArtifactRow)
  (artifactId : string) (now : Z) (s : State) : PrTask * State :=
  let '(r, s1) :=
    buildManualPrFallbackResponse (ps_session (pb_start b)) (pb_headBranch b)
      (pb_baseBranch b) latestArtifacts artifactId now s in
  (Finished r, s1).

(** After the push: the session branch is recorded, the artifacts are
    checked again, and [resolvePromptingUserAuthForPR] runs up to its first
    [await]. *)
Definition afterPush (b : PrBranches) (pushResult : PushResult)
  (artifactId : string) (now : Z) (s : State) : PrTask * State :=
  match pushResult with
  | PushFailure e => (Finished (JsonError 500 e), s)
  | PushSuccess =>
      let st := pb_start b in
      let s1 := updateSessionBranch (session_id (ps_session st)) (pb_headBranch b) s in
      let latestArtifacts := listArtifacts s1 in
      match findPrArtifact latestArtifacts with
      | Some _ => (Finished alreadyCreated, s1)
      | None =>
          let participant := ps_participant st in
          if negb (truthyOpt (github_access_token_encrypted participant))
          then fallback b latestArtifacts artifactId now s1
          else if isGitHubTokenExpired participant now
          then
            if negb (truthyOpt (github_refresh_token_encrypted participant))
            then fallback b latestArtifacts artifactId now s1
            else if negb (truthyOpt (GITHUB_CLIENT_ID env))
                    || negb (truthyOpt (GITHUB_CLIENT_SECRET env))
            then fallback b latestArtifacts artifactId now s1
            else (AwaitRefresh b latestArtifacts, s1)
          else (AwaitDecrypt b latestArtifacts participant, s1)
      end
  end.

(** After the calls of [refreshParticipantToken]; [None] stands for any of
    them throwing. *)
Definition afterRefresh (b : PrBranches) (latestArtifacts : list ArtifactRow)
  (r : option RefreshedTokens) (artifactId : string) (now : Z) (s : State)
  : PrTask * State :=
  match r with
  | None => fallback b latestArtifacts artifactId now s
  | Some newTokens =>
      let id := part_id (ps_participant (pb_start b)) in
      let newExpiresAt :=
        match rt_expires_in newTokens with
        | Some e => if e =? 0 then now + 8 * 60 * 60 * 1000 else now + e * 1000
        | None => now + 8 * 60 * 60 * 1000
        end in
      let s1 := updateParticipantTokens id (rt_access_encrypted newTokens)
                  (rt_refresh_encrypted newTokens) newExpiresAt s in
      match getParticipantById id s1 with
      | None => fallback b latestArtifacts artifactId now s1
      | Some refreshed =>
          if negb (truthyOpt (github_access_token_encrypted refreshed))
          then fallback b latestArtifacts artifactId now s1
          else (AwaitDecrypt b latestArtifacts refreshed, s1)
      end
  end.

(** After [decryptToken]; [None] stands for it throwing. *)
Definition afterDecrypt (b : PrBranches) (latestArtifacts : list ArtifactRow)
  (r : option string) (artifactId : string) (now : Z) (s : State)
  : PrTask * State :=
  match r with
  | None => fallback b latestArtifacts artifactId now s
  | Some accessToken =>
      (AwaitCreatePullRequest b accessToken (pullRequestRequest b), s)
  end.

(** After [createPullRequest]: the PR artifact is stored and announced. *)
Definition afterCreatePullRequest (b : PrBranches) (r : Thrown + PrResult)
  (artifactId : string) (now : Z) (s : State) : PrTask * State :=
  match r with
  | inl e => (Finished (caught e), s)
  | inr prResult =>
      let s1 :=
        createArtifact
          (mkArtifactRow artifactId "pr" (Some (prr_webUrl prResult))
             (Some (WellFormed
                      (JObj [ ("number", JNum (prr_id prResult));
                              ("state", JStr (prr_state prResult));
                              ("head", JStr (pb_headBranch b));
                              ("base", JStr (pb_baseBranch b)) ])))
             now) s in
      let s2 :=
        broadcast
          (sm_artifact_created artifactId "pr" (prr_webUrl prResult)
             (Some (prr_id prResult))) s1 in
      (Finished (PrCreated (prr_id prResult) (prr_webUrl prResult)
                   (prr_state prResult)), s2)
  end.

(** One resumption of a suspended request.  [None]: the answer is not the
    one the request waits for, or its push promise is still pending. *)
Definition resume (a : Resumption) (artifactId : string) (now : Z)
  (t : PrTask) (s : State) : option (PrTask * State) :=
  match t, a with
  | AwaitPushAuth st, GotPushAuth r => Some (afterPushAuth st r, s)
  | AwaitRepository st pushAuth, GotRepository r =>
      Some (afterRepository st pushAuth r s)
  | AwaitPush b PushSatisfied, PushSettled =>
      Some (afterPush b PushSuccess artifactId now s)
  | AwaitPush b (PushAwaiting pid _), PushSettled =>
      match promises s !! pid ≫= pushBranchToRemote_finish with
      | Some pushResult => Some (afterPush b pushResult artifactId now s)
      | None => None
      end
  | AwaitRefresh b latestArtifacts, GotRefresh r =>
      Some (afterRefresh b latestArtifacts r artifactId now s)
  | AwaitDecrypt b latestArtifacts _, GotDecrypt r =>
      Some (afterDecrypt b latestArtifacts r artifactId now s)
  | AwaitCreatePullRequest b _ _, GotPullRequest r =>
      Some (afterCreatePullRequest b r artifactId now s)
  | _, _ => None
  end.

(** The answers of the outside world to one request. *)
Record World := mkWorld {
  w_pushAuth : Thrown + string;
  w_repository : Thrown + RepoInfo;
  w_refresh : option RefreshedTokens;
  w_decrypt : option string;
  w_pullRequest : Thrown + PrResult
}.

Definition answer (w : World) (t : PrTask) : Resumption :=
  match t with
  | AwaitPushAuth _ => GotPushAuth (w_pushAuth w)
  | AwaitRepository _ _ => GotRepository (w_repository w)
  | AwaitPush _ _ => PushSettled
  | AwaitRefresh _ _ => GotRefresh (w_refresh w)
  | AwaitDecrypt _ _ _ => GotDecrypt (w_decrypt w)
  | AwaitCreatePullRequest _ _ _ => GotPullRequest (w_pullRequest w)
  | Finished _ => PushSettled
  end.

(** Runs a request to its response without letting anything else in; it
    stops early only on a push promise that is still pending. *)
Fixpoint drive (fuel : nat) (w : World) (artifactId : string) (now : Z)
  (t : PrTask) (s : State) : PrTask * State :=
  match fuel with
  | O => (t, s)
  | S n =>
      match t with
      | Finished _ => (t, s)
      | _ =>
          match resume (answer w t) artifactId now t s with
          | Some (t1, s1) => drive n w artifactId now t1 s1
          | None => (t, s)
          end
      end
  end.

(** [handleCreatePR(deps, request, url)], run on its own: a request passes
    through at most six suspensions. *)
Definition handleCreatePR (w : World) (artifactId : string) (now : Z)
  (body : CreatePrBody) (s : State) : PrTask * State :=
  drive 6 w artifactId now (begin body s) s.

(** Several requests in flight in one actor. *)
Record System := mkSystem {
  sys_state : State;
  sys_tasks : list PrTask
}.

(** A create-PR request arrives, or the request at index [i] resumes. *)
Inductive PrEvent : Type :=
| Arrive (body : CreatePrBody)
| Resume (i : nat) (a : Resumption) (artifactId : string) (now : Z).

Definition sysStep (sys : System) (e : PrEvent) : System :=
  match e with
  | Arrive body =>
      mkSystem (sys_state sys) (sys_tasks sys ++ [begin body (sys_state sys)])
  | Resume i a artifactId now =>
      match sys_tasks sys !! i with
      | Some t =>
          match resume a artifactId now t (sys_state sys) with
          | Some (t1, s1) => mkSystem s1 (<[i := t1]> (sys_tasks sys))
          | None => sys
          end
      | None => sys
      end
  end.

Definition sysRun (sys : System) (l : list PrEvent) : System :=
  fold_left sysStep l sys.

(** The prompting user has no usable OAuth credential: no stored access
    token; or a token that has expired and cannot be refreshed; or a token,
    still valid or just refreshed, that cannot be decrypted. *)
Definition noUsableCredential (p : ParticipantRow) (now : Z) (w : World) : Prop :=
  truthyOpt (github_access_token_encrypted p) = false
  \/ (truthyOpt (github_access_token_encrypted p) = true
      /\ isGitHubTokenExpired p now = true
      /\ (truthyOpt (github_refresh_token_encrypted p) = false
          \/ truthyOpt (GITHUB_CLIENT_ID env) = false
          \/ truthyOpt (GITHUB_CLIENT_SECRET env) = false
          \/ w_refresh w = None
          \/ w_decrypt w = None))
  \/ (truthyOpt (github_access_token_encrypted p) = true
      /\ isGitHubTokenExpired p now = false
      /\ w_decrypt w = None).

(** The two branch names a request works with, given the repository the
    provider reports. *)
Definition baseBranchOf (body : CreatePrBody) (repoInfo : RepoInfo) : string :=
  default (defaultBranch repoInfo)
    (orElse (pr_baseBranch body) (Some (defaultBranch repoInfo))).

Definition headBranchOf (body : CreatePrBody) (session : SessionRow)
  (repoInfo : RepoInfo) : string :=
  resolveHeadBranchForPr (pr_headBranch body) (branch_name session)
    (generateBranchName
       (default (session_id session)
          (orElse (session_name session) (Some (session_id session)))))
    (baseBranchOf body repoInfo).

(** The artifact that the manual fallback stores. *)
Definition manualArtifact (session : SessionRow) (headBranch baseBranch : string)
  (artifactId : string) (now : Z) : ArtifactRow :=
  let url := buildManualPullRequestUrl (repo_owner session) (repo_name session)
               headBranch baseBranch in
  mkArtifactRow artifactId "branch" (Some url)
    (Some (WellFormed (manualMetadata headBranch baseBranch url))) now.

End WithCollaborators.
End CreatePr.

(* ===================================================================== *)
(** * Sample collaborators and states                                      *)
(* ===================================================================== *)

Module Fixtures.
Import JsString.

#[export] Instance sampleModels : Models := {|
  DEFAULT_MODEL := "model-a";
  isValidModel := fun m => String.eqb m "model-a" || String.eqb m "model-b";
  getValidModelOrDefault := fun m =>
    match m with
    | Some x => if String.eqb x "model-b" then "model-b" else "model-a"
    | None => "model-a"
    end;
  getDefaultReasoningEffort := fun _ => Some "medium";
  isValidReasoningEffort := fun _ e => String.eqb e "low" || String.eqb e "medium"
|}.

#[export] Instance sampleProvider : SourceControlProvider := {|
  providerName := "github";
  buildManualPullRequestUrl := fun owner name sourceBranch targetBranch =>
    "https://github.com/" ++ owner ++ "/" ++ name ++ "/pull/new/"
    ++ targetBranch ++ "..." ++ sourceBranch;
  buildGitPushSpec := fun owner name sourceRef targetBranch auth force =>
    owner ++ "/" ++ name ++ " " ++ sourceRef ++ ":" ++ targetBranch
|}.

(** Head branch: the requested one, else the session's, else the generated
    one. *)
#[export] Instance sampleBranchNaming : BranchNaming := {|
  generateBranchName := fun sessionId => "open-inspect/" ++ sessionId;
  resolveHeadBranchForPr := fun requested sessionBranch generated baseBranch =>
    default generated (orElse requested (orElse sessionBranch (Some generated)))
|}.

Definition sampleEnv : Env := mkEnv (Some "https://app.example") None None None.

Definition sampleSession : SessionRow :=
  mkSessionRow "s1" (Some "session-one") "acme" "widgets" None None "model-a"
    None "active".

(** A participant without OAuth tokens. *)
Definition alice : ParticipantRow :=
  mkParticipantRow "p1" "alice" None None None (Some "Alice") "owner"
    None None None None None 0.

(** A participant with an OAuth access token that does not expire. *)
Definition bob : ParticipantRow :=
  mkParticipantRow "p2" "bob" None None None (Some "Bob") "member"
    (Some "enc-token") None None None None 0.

Definition message (id author : string) (st : MessageStatus) : MessageRow :=
  mkMessageRow id author "do it" "web" None None None None st 0 None None.

Definition sampleSandbox : SandboxRow :=
  mkSandboxRow "sb1" "ready" None None (Some "tok") None.

(** A session whose sandbox is connected, with nothing queued. *)
Definition connected : State :=
  mkState (Some sampleSession) [alice; bob] [] [] [] (Some sampleSandbox)
    (Some 7%nat) ∅ [] [].

(** A session without sandbox socket in which a message of [author] is
    processing. *)
Definition prompting (author : string) : State :=
  mkState (Some sampleSession) [alice; bob] [message "m1" author processing]
    [] [] (Some sampleSandbox) None ∅ [] [].

Definition event (type : string) (messageId branchName : option string)
  : SandboxEvent :=
  mkSandboxEvent type messageId true None None branchName None None None None.

Definition prompt (content author : string) : SessionDO.PromptBody :=
  SessionDO.mkPromptBody content author "web" None None None None.

(** The sandbox connects to a fresh actor, then a prompt arrives: the
    prompt is dispatched at once. *)
Definition running : State :=
  SessionDO.apply
    (SessionDO.Enqueue (prompt "hi" "alice") (SessionDO.mkPromptIds "p9" "m1" "e1") 1)
    (SessionDO.apply
       (SessionDO.SandboxUpgrade (Some "Bearer undefined") None 7%nat 0)
       initialState).

Definition createPrBody (headBranch : option string) : CreatePr.CreatePrBody :=
  CreatePr.mkCreatePrBody "Add widget" "Adds the widget." None headBranch.

Definition sampleRepo : CreatePr.RepoInfo := CreatePr.mkRepoInfo "main" "acme/widgets".

(** A world in which the provider answers and nothing can be decrypted. *)
Definition sampleWorld : CreatePr.World :=
  CreatePr.mkWorld (inr "app-token") (inr sampleRepo) None None
    (inr (CreatePr.mkPrResult 1 "https://github.com/acme/widgets/pull/1" "open")).

(** Two create-PR requests for different head branches, both suspended on
    [createPullRequest] before either stores its artifact. *)
Definition race : list CreatePr.PrEvent :=
  [ CreatePr.Arrive (createPrBody (Some "feature-a"));
    CreatePr.Resume 0 (CreatePr.GotPushAuth (inr "app-token")) "a1" 10;
    CreatePr.Resume 0 (CreatePr.GotRepository (inr sampleRepo)) "a1" 11;
    CreatePr.Resume 0 CreatePr.PushSettled "a1" 12;
    CreatePr.Resume 0 (CreatePr.GotDecrypt (Some "oauth-token")) "a1" 13;
    CreatePr.Arrive (createPrBody (Some "feature-b"));
    CreatePr.Resume 1 (CreatePr.GotPushAuth (inr "app-token")) "a2" 14;
    CreatePr.Resume 1 (CreatePr.GotRepository (inr sampleRepo)) "a2" 15;
    CreatePr.Resume 1 CreatePr.PushSettled "a2" 16;
    CreatePr.Resume 1 (CreatePr.GotDecrypt (Some "oauth-token")) "a2" 17;
    CreatePr.Resume 0
      (CreatePr.GotPullRequest
         (inr (CreatePr.mkPrResult 1 "https://github.com/acme/widgets/pull/1" "open")))
      "a1" 18;
    CreatePr.Resume 1
      (CreatePr.GotPullRequest
         (inr (CreatePr.mkPrResult 2 "https://github.com/acme/widgets/pull/2" "open")))
      "a2" 19 ].

End Fixtures.

(* ===================================================================== *)
(** * Secrets: validation and the repository secrets store                 *)
(* ===================================================================== *)

(** [auth/crypto], which is not among the source files: a call is taken as
    a function of its arguments, [None] standing for a rejected promise. *)
Class Crypto := {
  (** [encryptToken(value, encryptionKey)] *)
  encryptToken : string -> string -> option string;
  (** [decryptToken(encrypted, encryptionKey)] *)
  decryptToken : string -> string -> option string
}.

Module SecretsValidation.
Import JsString Secrets.

Definition MAX_KEY_LENGTH : Z := 256.
Definition MAX_VALUE_SIZE : Z := 16384.
Definition MAX_TOTAL_VALUE_SIZE : Z := 65536.
Definition MAX_SECRETS_PER_SCOPE : nat := 50.

Definition RESERVED_KEYS : list string :=
  [ "PYTHONUNBUFFERED"; "SANDBOX_ID"; "CONTROL_PLANE_URL"; "SANDBOX_AUTH_TOKEN";
    "REPO_OWNER"; "REPO_NAME"; "GITHUB_APP_TOKEN"; "SESSION_CONFIG";
    "RESTORED_FROM_SNAPSHOT"; "OPENCODE_CONFIG_CONTENT"; "PATH"; "HOME";
    "USER"; "SHELL"; "TERM"; "PWD"; "LANG" ].

(** [RESERVED_KEYS.has(key)] *)
Definition isReserved (key : string) : bool :=
  existsb (String.eqb key) RESERVED_KEYS.

Definition isDigit (c : ascii) : bool :=
  let n := code c in ((48 <=? n) && (n <=? 57))%N.

(** The class [[A-Za-z_]]. *)
Definition isKeyStart (c : ascii) : bool :=
  isUpperLetter c || isLowerLetter c || (code c =? 95)%N.

(** The class [[A-Za-z0-9_]]. *)
Definition isKeyChar (c : ascii) : bool := isKeyStart c || isDigit c.

(** [VALID_KEY_PATTERN.test(key)] for [/^[A-Za-z_][A-Za-z0-9_]*$/]. *)
Definition matchesKeyPattern (key : string) : bool :=
  match chars key with
  | [] => false
  | c :: r => isKeyStart c && forallb isKeyChar r
  end.

(** The message of a thrown [SecretsValidationError]. *)
Definition SecretsValidationError : Type := string.

(** [validateKey(key)]: [inl] is the error it throws. *)
Definition validateKey (key : string) : SecretsValidationError + unit :=
  if negb (truthy key) || (MAX_KEY_LENGTH <? Z.of_nat (String.length key))
  then inl "Key too long or empty"
  else if negb (matchesKeyPattern key)
  then inl "Key must match [A-Za-z_][A-Za-z0-9_]*"
  else if isReserved (toUpperCase key)
  then inl ("Key '" ++ key ++ "' is reserved")
  else inr tt.

(** [validateValue(value)] on a string. *)
Definition validateValue (value : string) : SecretsValidationError + unit :=
  if MAX_VALUE_SIZE <? utf8Length value
  then inl "Value exceeds 16384 bytes"
  else inr tt.

End SecretsValidation.

Module RepoSecretsStore.
Import JsString Secrets SecretsValidation.

(** A row of [repo_secrets] without the two columns that address it. *)
Record SecretRow := mkSecretRow {
  rs_repo_owner : string;
  rs_repo_name : string;
  rs_encrypted_value : string;
  rs_created_at : Z;
  rs_updated_at : Z
}.

(** The table [repo_secrets]: the statements address a row by
    [(repo_id, key)], the conflict target of the insert. *)
Definition Table : Type := gmap (Z * string) SecretRow.

(** The statement that [setSecrets] prepares for one key, with its bound
    values. *)
Record Upsert := mkUpsert {
  up_repo_id : Z;
  up_repo_owner : string;
  up_repo_name : string;
  up_key : string;
  up_encrypted_value : string;
  up_now : Z
}.

(** [INSERT ... ON CONFLICT(repo_id, key) DO UPDATE SET repo_owner,
    repo_name, encrypted_value, updated_at]: a row that exists keeps its
    [created_at]. *)
Definition runUpsert (t : Table) (u : Upsert) : Table :=
  let created :=
    match t !! (up_repo_id u, up_key u) with
    | Some old => rs_created_at old
    | None => up_now u
    end in
  <[(up_repo_id u, up_key u) :=
      mkSecretRow (up_repo_owner u) (up_repo_name u) (up_encrypted_value u)
        created (up_now u)]> t.

(** [db.batch(statements)] *)
Definition batch (statements : list Upsert) (t : Table) : Table :=
  fold_left runUpsert statements t.

(** The rows that [... WHERE repo_id = ?] selects, in the order the
    database yields them. *)
Definition selectRows (repoId : Z) (t : Table) : list (string * SecretRow) :=
  omap (fun kv => if kv.1.1 =? repoId then Some (kv.1.2, kv.2) else None)
    (map_to_list t).

(** [SELECT key FROM repo_secrets WHERE repo_id = ?] *)
Definition selectKeys (repoId : Z) (t : Table) : list string :=
  (selectRows repoId t).*1.

(** [normalized[key] = value] on an object whose keys are kept in
    insertion order. *)
Fixpoint assign (key value : string) (o : list (string * string))
  : list (string * string) :=
  match o with
  | [] => [(key, value)]
  | (k, v) :: r =>
      if String.eqb k key then (k, value) :: r else (k, v) :: assign key value r
  end.

(** The first loop of [setSecrets]: every entry is normalized and
    validated; the sizes of all values are summed. *)
Fixpoint normalizeEntries (secrets : SecretRecord)
  (normalized : list (string * string)) (totalValueBytes : Z)
  : SecretsValidationError + (list (string * string) * Z) :=
  match secrets with
  | [] => inr (normalized, totalValueBytes)
  | (rawKey, value) :: rest =>
      let key := normalizeKey rawKey in
      match validateKey key with
      | inl e => inl e
      | inr _ =>
          match validateValue value with
          | inl e => inl e
          | inr _ =>
              normalizeEntries rest (assign key value normalized)
                (totalValueBytes + utf8Length value)
          end
      end
  end.

(** What [setSecrets] rejects with. *)
Inductive SetSecretsError : Type :=
| Invalid (message : SecretsValidationError)
| EncryptionFailed.

Record SetSecretsResult := mkSetSecretsResult {
  created : nat;
  updated : nat;
  keys : list string
}.

Section WithCrypto.
Context `{Crypto}.
Variable encryptionKey : string.

(** The second loop of [setSecrets]: one statement per normalized entry. *)
Fixpoint prepareStatements (repoId : Z) (owner name : string) (now : Z)
  (existingKeySet : gset string) (entries : list (string * string))
  (created updated : nat) (statements : list Upsert)
  : option (nat * nat * list Upsert) :=
  match entries with
  | [] => Some (created, updated, statements)
  | (key, value) :: rest =>
      match encryptToken value encryptionKey with
      | None => None
      | Some encrypted =>
          let isNew := negb (bool_decide (key ∈ existingKeySet)) in
          prepareStatements repoId owner name now existingKeySet rest
            (if isNew then S created else created)
            (if isNew then updated else S updated)
            (statements ++ [mkUpsert repoId owner name key encrypted now])
      end
  end.

(** The statement that the second loop prepares for one normalized entry. *)
Definition statementFor (repoId : Z) (owner name : string) (now : Z)
  (kv : string * string) (u : Upsert) : Prop :=
  exists encrypted,
    encryptToken kv.2 encryptionKey = Some encrypted
    /\ u = mkUpsert repoId owner name kv.1 encrypted now.

(** [setSecrets(repoId, repoOwner, repoName, secrets)] up to
    [await this.db.batch(statements)]; [existingKeys] is the answer of the
    key query. *)
Definition setSecrets_prepare (repoId : Z) (repoOwner repoName : string)
  (secrets : SecretRecord) (now : Z) (existingKeys : list string)
  : SetSecretsError + (SetSecretsResult * list Upsert) :=
  let owner := toLowerCase repoOwner in
  let name := toLowerCase repoName in
  match normalizeEntries secrets [] 0 with
  | inl e => inl (Invalid e)
  | inr (normalized, totalValueBytes) =>
      if MAX_TOTAL_VALUE_SIZE <? totalValueBytes
      then inl (Invalid "Total secret size exceeds 65536 bytes")
      else
        let existingKeySet : gset string := list_to_set existingKeys in
        let incomingKeys := normalized.*1 in
        let netNew :=
          length (List.filter (fun k => negb (bool_decide (k ∈ existingKeySet)))
                    incomingKeys) in
        if (MAX_SECRETS_PER_SCOPE <? size existingKeySet + netNew)%nat
        then inl (Invalid
                    ("Repository would exceed 50 secrets limit (current: "
                     ++ pretty (size existingKeySet) ++ ", adding: "
                     ++ pretty netNew ++ ")"))
        else
          match prepareStatements repoId owner name now existingKeySet
                  normalized 0 0 [] with
          | None => inl EncryptionFailed
          | Some (created, updated, statements) =>
              inr (mkSetSecretsResult created updated incomingKeys, statements)
          end
  end.

(** [setSecrets] when no other writer touches the table between its key
    query and its batch. *)
Definition setSecrets (repoId : Z) (repoOwner repoName : string)
  (secrets : SecretRecord) (now : Z) (t : Table)
  : SetSecretsError + (SetSecretsResult * Table) :=
  match setSecrets_prepare repoId repoOwner repoName secrets now
          (selectKeys repoId t) with
  | inl e => inl e
  | inr (r, statements) => inr (r, batch statements t)
  end.

(** The loop of [getDecryptedSecrets]: [inl] is the message of the error
    thrown at the first row that cannot be decrypted. *)
Fixpoint decryptRows (rows : list (string * SecretRow))
  (secrets : gmap string string) : string + gmap string string :=
  match rows with
  | [] => inr secrets
  | (key, row) :: rest =>
      match decryptToken (rs_encrypted_value row) encryptionKey with
      | None => inl ("Failed to decrypt secret '" ++ key ++ "'")
      | Some value => decryptRows rest (<[key := value]> secrets)
      end
  end.

(** [getDecryptedSecrets(repoId)] *)
Definition getDecryptedSecrets (repoId : Z) (t : Table)
  : string + gmap string string :=
  decryptRows (selectRows repoId t) ∅.

(** [deleteSecret(repoId, key)]: the answer is [changes > 0]. *)
Definition deleteSecret (repoId : Z) (key : string) (t : Table) : bool * Table :=
  let k := normalizeKey key in
  (bool_decide (is_Some (t !! (repoId, k))), delete (repoId, k) t).

End WithCrypto.
End RepoSecretsStore.

Module SecretsFixtures.
Import RepoSecretsStore.

(** A cipher that marks the value; the key plays no part. *)
#[export] Instance sampleCrypto : Crypto := {|
  encryptToken := fun value _ => Some (String "#" value);
  decryptToken := fun encrypted _ =>
    match encrypted with
    | String "#" value => Some value
    | _ => None
    end
|}.

(** A request that spells one key in two ways. *)
Definition request : Secrets.SecretRecord :=
  [ ("api_key", "first"); ("token", "t0"); ("API_Key", "second") ].

(** A table that holds one secret of repository 1 and one of repository 2. *)
Definition stored : Table :=
  <[(1, "TOKEN") := mkSecretRow "acme" "widgets" "#old" 5 5]>
    (<[(2, "TOKEN") := mkSecretRow "acme" "gadgets" "#other" 6 6]> ∅).

(** What the sample request prepares for repository 1, once the key
    query has answered with the key [TOKEN]. *)
Definition sampleStatements : list Upsert :=
  [ mkUpsert 1 "acme" "widgets" "API_KEY" "#second" 9;
    mkUpsert 1 "acme" "widgets" "TOKEN" "#t0" 9 ].

Definition sampleResult : SetSecretsResult :=
  mkSetSecretsResult 1 1 ["API_KEY"; "TOKEN"].

End SecretsFixtures.

(* ===================================================================== *)
(** * Source-control provider selection                                    *)
(* ===================================================================== *)

Module SourceControl.
Import JsString.

Inductive SourceControlProviderName : Type :=
| github
| bitbucket.

(** The string a provider name is at run time. *)
Definition nameText (n : SourceControlProviderName) : string :=
  match n with
  | github => "github"
  | bitbucket => "bitbucket"
  end.

(** A thrown [SourceControlProviderError]: its message and its error
    type. *)
Record SourceControlProviderError := mkSourceControlProviderError {
  scm_message : string;
  scm_errorType : string
}.

Definition DEFAULT_SCM_PROVIDER : SourceControlProviderName := github.

(** [resolveScmProviderFromEnv(value)] *)
Definition resolveScmProviderFromEnv (value : option string)
  : SourceControlProviderError + SourceControlProviderName :=
  let normalized := default "" ((fun v => toLowerCase (trim v)) <$> value) in
  if negb (truthy normalized) then inr DEFAULT_SCM_PROVIDER
  else if String.eqb normalized "github" then inr github
  else if String.eqb normalized "bitbucket" then inr bitbucket
  else inl (mkSourceControlProviderError
              ("Invalid SCM_PROVIDER value '" ++ normalized
               ++ "'. Supported values: github, bitbucket.")
              "permanent").

(** The provider objects the factory can build; the GitHub provider
    itself is not among the source files and is kept by its
    configuration, the app configuration it is given. *)
Inductive Provider : Type :=
| GitHubSourceControlProvider (appConfig : option string).

(** [createSourceControlProvider(config)]; [provider] is the value of
    [config.provider] at run time, [github] is [config.github]. *)
Definition createSourceControlProvider (provider : string)
  (github : option (option string)) : SourceControlProviderError + Provider :=
  if String.eqb provider "github"
  then inr (GitHubSourceControlProvider (default None github))
  else if String.eqb provider "bitbucket"
  then inl (mkSourceControlProviderError
              "SCM provider 'bitbucket' is configured but not implemented."
              "permanent")
  else inl (mkSourceControlProviderError
              ("Unsupported source control provider: " ++ provider) "permanent").

(** [SessionDO.createSourceControlProvider()]; [SCM_PROVIDER] is the
    environment variable, [appConfig] the answer of
    [getGitHubAppConfig(this.env)]. *)
Definition SessionDO_createSourceControlProvider (SCM_PROVIDER : option string)
  (appConfig : option string) : SourceControlProviderError + Provider :=
  match resolveScmProviderFromEnv SCM_PROVIDER with
  | inl e => inl e
  | inr providerType =>
      createSourceControlProvider (nameText providerType) (Some appConfig)
  end.

End SourceControl.

(* ===================================================================== *)
(** * More internal routes                                                 *)
(* ===================================================================== *)

Module InternalRoutes.
Import JsString JsNumber Repository ListRoutes.

(** The handlers the route table names. *)
Inductive RouteHandler : Type :=
| handleInit_route
| handleGetState_route
| handleEnqueuePrompt_route
| handleStop_route
| handleSandboxEvent_route
| handleListParticipants_route
| handleAddParticipant_route
| handleListEvents_route
| handleListArtifacts_route
| handleListMessages_route
| handleCreatePR_route
| handleGenerateWsToken_route
| handleArchive_route
| handleUnarchive_route
| handleVerifySandboxToken_route.

Record InternalRoute := mkInternalRoute {
  method : string;
  path : string;
  handler : RouteHandler
}.

Definition INTERNAL_ROUTES : list InternalRoute :=
  [ mkInternalRoute "POST" "/internal/init" handleInit_route;
    mkInternalRoute "GET" "/internal/state" handleGetState_route;
    mkInternalRoute "POST" "/internal/prompt" handleEnqueuePrompt_route;
    mkInternalRoute "POST" "/internal/stop" handleStop_route;
    mkInternalRoute "POST" "/internal/sandbox-event" handleSandboxEvent_route;
    mkInternalRoute "GET" "/internal/participants" handleListParticipants_route;
    mkInternalRoute "POST" "/internal/participants" handleAddParticipant_route;
    mkInternalRoute "GET" "/internal/events" handleListEvents_route;
    mkInternalRoute "GET" "/internal/artifacts" handleListArtifacts_route;
    mkInternalRoute "GET" "/internal/messages" handleListMessages_route;
    mkInternalRoute "POST" "/internal/create-pr" handleCreatePR_route;
    mkInternalRoute "POST" "/internal/ws-token" handleGenerateWsToken_route;
    mkInternalRoute "POST" "/internal/archive" handleArchive_route;
    mkInternalRoute "POST" "/internal/unarchive" handleUnarchive_route;
    mkInternalRoute "POST" "/internal/verify-sandbox-token"
      handleVerifySandboxToken_route ].

(** Where [SessionDO.fetch] sends a request. *)
Inductive Dispatch : Type :=
| ToSandboxUpgrade
| ToClientSocket
| ToRoute (h : RouteHandler)
| NotFound404.

(** [SessionDO.fetch(request)] as far as the choice of the handler:
    [upgrade] is the [Upgrade] header, [type] the query parameter [type],
    [requestMethod] and [pathname] the method and the path of the URL. *)
Definition fetch (upgrade type : option string) (requestMethod pathname : string)
  : Dispatch :=
  if bool_decide (upgrade = Some "websocket") && bool_decide (type = Some "sandbox")
  then ToSandboxUpgrade
  else if bool_decide (upgrade = Some "websocket")
  then ToClientSocket
  else
    match find (fun r => String.eqb (path r) pathname
                         && String.eqb (method r) requestMethod) INTERNAL_ROUTES with
    | Some route => ToRoute (handler route)
    | None => NotFound404
    end.

(** The answer of [handleVerifySandboxToken]: the HTTP status and the
    fields [valid] and [error] of the body. *)
Record VerifyResponse := mkVerifyResponse {
  vr_status : Z;
  vr_valid : bool;
  vr_error : option string
}.

(** [handleVerifySandboxToken(deps, request, url)]; [token] is
    [body.token]. *)
Definition handleVerifySandboxToken (token : option string) (s : State)
  : VerifyResponse :=
  if negb (truthyOpt token)
  then mkVerifyResponse 400 false (Some "Missing token")
  else
    match getSandbox s with
    | None => mkVerifyResponse 404 false (Some "No sandbox")
    | Some sandbox =>
        if String.eqb (sb_status sandbox) "stopped"
           || String.eqb (sb_status sandbox) "stale"
        then mkVerifyResponse 410 false (Some "Sandbox stopped")
        else if negb (bool_decide (token = auth_token sandbox))
        then mkVerifyResponse 401 false (Some "Invalid token")
        else mkVerifyResponse 200 true None
    end.

(** [rows.length > limit]: false when the limit is [NaN]. *)
Definition lengthExceeds {A} (rows : list A) (limit : number) : bool :=
  match limit with
  | Num n => n <? Z.of_nat (length rows)
  | NaN => false
  end.

(** The body of a listing response: the rows it carries (each is mapped to
    its fields), the cursor and [hasMore]. *)
Record Page (A : Type) := mkPage {
  pg_rows : list A;
  pg_cursor : option string;
  pg_hasMore : bool
}.
Arguments mkPage {A} pg_rows pg_cursor pg_hasMore.
Arguments pg_rows {A} p.
Arguments pg_cursor {A} p.
Arguments pg_hasMore {A} p.

(** What a listing handler does with the rows the repository returns:
    [hasMore] when there are more rows than the limit, in which case the
    last row is popped; the cursor is the decimal text of the creation
    time of the last row that is left. *)
Definition page {A} (createdAt : A -> Z) (limit : number) (rows : list A)
  : Page A :=
  let hasMore := lengthExceeds rows limit in
  let rows' := if hasMore then removelast rows else rows in
  mkPage rows' (pretty <$> (createdAt <$> last rows')) hasMore.

(** A listing response: a 400 with its error, or a page. *)
Inductive ListResponse (A : Type) : Type :=
| Rejected400 (error : string)
| Listed (p : Page A).
Arguments Rejected400 {A} error.
Arguments Listed {A} p.

(** [handleListEvents(deps, request, url)]; [listEvents] is
    [deps.repository.listEvents]. *)
Definition handleListEvents_response (p : SearchParams)
  (listEvents : ListEventsArgs -> list EventRow) : ListResponse EventRow :=
  match handleListEvents p with
  | BadRequest e => Rejected400 e
  | Query args => Listed (page er_created_at (le_limit args) (listEvents args))
  end.

(** [handleListMessages(deps, request, url)]; [listMessages] is
    [deps.repository.listMessages]. *)
Definition handleListMessages_response (p : SearchParams)
  (listMessages : ListMessagesArgs -> list MessageRow) : ListResponse MessageRow :=
  match handleListMessages p with
  | BadRequest e => Rejected400 e
  | Query args => Listed (page created_at (lm_limit args) (listMessages args))
  end.

End InternalRoutes.

(* ===================================================================== *)
(** * WebSocket tokens: issue and subscribe                                *)
(* ===================================================================== *)

Module WsToken.
Import JsString Repository.

(** The fields handed to [repository.updateParticipantCoalesce]. *)
Record ParticipantUpdate := mkParticipantUpdate {
  pu_githubUserId : option string;
  pu_githubLogin : option string;
  pu_githubName : option string;
  pu_githubEmail : option string;
  pu_githubAccessTokenEncrypted : option string;
  pu_githubRefreshTokenEncrypted : option string;
  pu_githubTokenExpiresAt : option Z
}.

(** The row [p] with each field replaced by the field of [u] that is not
    [null]. *)
Definition coalesced (u : ParticipantUpdate) (p : ParticipantRow) : ParticipantRow :=
  mkParticipantRow (part_id p) (user_id p)
    (nullish (pu_githubUserId u) (github_user_id p))
    (nullish (pu_githubLogin u) (github_login p))
    (nullish (pu_githubEmail u) (github_email p))
    (nullish (pu_githubName u) (github_name p))
    (role p)
    (nullish (pu_githubAccessTokenEncrypted u) (github_access_token_encrypted p))
    (nullish (pu_githubRefreshTokenEncrypted u) (github_refresh_token_encrypted p))
    (nullish (pu_githubTokenExpiresAt u) (github_token_expires_at p))
    (ws_auth_token p) (ws_token_created_at p) (joined_at p).

(** Modelled from the spec: the fields of a Participant "are
    coalesce-updated (never overwritten with null)";
    [SessionRepository.updateParticipantCoalesce] is missing.  The update
    addresses the row by its id. *)
Definition updateParticipantCoalesce (id : string) (u : ParticipantUpdate)
  (s : State) : State :=
  with_participants
    (map (fun p => if String.eqb (part_id p) id then coalesced u p else p)
       (participants s)) s.

(** The row [p] with a new token hash and its issue time. *)
Definition stamped (tokenHash : string) (now : Z) (p : ParticipantRow)
  : ParticipantRow :=
  mkParticipantRow (part_id p) (user_id p) (github_user_id p)
    (github_login p) (github_email p) (github_name p) (role p)
    (github_access_token_encrypted p) (github_refresh_token_encrypted p)
    (github_token_expires_at p) (Some tokenHash) (Some now) (joined_at p).

(** Modelled from the spec: a Participant holds "a hashed WebSocket auth
    token + issue timestamp"; [SessionRepository.updateParticipantWsToken]
    is missing.  The update addresses the row by its id. *)
Definition updateParticipantWsToken (id tokenHash : string) (now : Z) (s : State)
  : State :=
  with_participants
    (map (fun p => if String.eqb (part_id p) id then stamped tokenHash now p else p)
       (participants s)) s.

(** Modelled from the spec: the subscribe token is "hash-compared against
    a stored hash"; [SessionRepository.getParticipantByWsTokenHash] is
    missing. *)
Definition getParticipantByWsTokenHash (tokenHash : string) (s : State)
  : option ParticipantRow :=
  find (fun p => bool_decide (ws_auth_token p = Some tokenHash)) (participants s).

(** Body of [POST /internal/ws-token]. *)
Record WsTokenBody := mkWsTokenBody {
  wt_userId : option string;
  wt_githubUserId : option string;
  wt_githubLogin : option string;
  wt_githubName : option string;
  wt_githubEmail : option string;
  wt_githubTokenEncrypted : option string;
  wt_githubRefreshTokenEncrypted : option string;
  wt_githubTokenExpiresAt : option Z
}.

Inductive WsTokenResponse : Type :=
| WsTokenBadRequest (error : string)
| WsTokenIssued (token participantId : string).

(** What [handleSubscribe] does with the token of a [subscribe] frame. *)
Inductive SubscribeAuth : Type :=
| CloseSocket (code : Z) (reason : string)
| Authenticated (participant : ParticipantRow).

(** [x != null] *)
Definition notNull {A} (x : option A) : bool :=
  match x with
  | Some _ => true
  | None => false
  end.

(** [shouldUpdateTokens] of [handleGenerateWsToken]: the client sent a
    token, and the stored expiry is [null] or not later than the client's. *)
Definition shouldUpdateTokens (body : WsTokenBody) (participant : ParticipantRow)
  : bool :=
  let clientExpiresAt := wt_githubTokenExpiresAt body in
  let dbExpiresAt := github_token_expires_at participant in
  let clientSentAnyToken :=
    notNull (wt_githubTokenEncrypted body)
    || notNull (wt_githubRefreshTokenEncrypted body) in
  clientSentAnyToken
  && match dbExpiresAt with
     | None => true
     | Some db =>
         match clientExpiresAt with
         | Some client => db <=? client
         | None => false
         end
     end.

(** [shouldUpdateRefreshToken] of [handleGenerateWsToken] *)
Definition shouldUpdateRefreshToken (body : WsTokenBody)
  (participant : ParticipantRow) : bool :=
  notNull (wt_githubRefreshTokenEncrypted body)
  && (negb (notNull (github_refresh_token_encrypted participant))
      || shouldUpdateTokens body participant).

(** The fields [handleGenerateWsToken] hands to
    [updateParticipantCoalesce] for a participant that exists. *)
Definition coalesceFields (body : WsTokenBody) (participant : ParticipantRow)
  : ParticipantUpdate :=
  mkParticipantUpdate (wt_githubUserId body) (wt_githubLogin body)
    (wt_githubName body) (wt_githubEmail body)
    (if shouldUpdateTokens body participant
     then wt_githubTokenEncrypted body else None)
    (if shouldUpdateRefreshToken body participant
     then wt_githubRefreshTokenEncrypted body else None)
    (if shouldUpdateTokens body participant
     then wt_githubTokenExpiresAt body else None).

(** The row [handleGenerateWsToken] creates for a user it does not know. *)
Definition newParticipant (body : WsTokenBody) (id userId : string) (now : Z)
  : ParticipantRow :=
  mkParticipantRow id userId (wt_githubUserId body) (wt_githubLogin body)
    (wt_githubEmail body) (wt_githubName body) "member"
    (wt_githubTokenEncrypted body) (wt_githubRefreshTokenEncrypted body)
    (wt_githubTokenExpiresAt body) None None now.

Section WithHash.
(** [hashToken] of [auth/crypto], which is not among the source files. *)
Variable hashToken : string -> string.

(** [handleGenerateWsToken(deps, request, url)]; [id] is the
    [generateId()] of a new participant, [plainToken] is
    [generateId(32)]. *)
Definition handleGenerateWsToken (body : WsTokenBody) (id plainToken : string)
  (now : Z) (s : State) : WsTokenResponse * State :=
  if negb (truthyOpt (wt_userId body))
  then (WsTokenBadRequest "userId is required", s)
  else
    let userId := default "" (wt_userId body) in
    let '(participant, s1) :=
      match getParticipantByUserId userId s with
      | Some participant =>
          (participant,
           updateParticipantCoalesce (part_id participant)
             (coalesceFields body participant) s)
      | None =>
          let row := newParticipant body id userId now in
          let s1 := createParticipant row s in
          (default row (getParticipantByUserId userId s1), s1)
      end in
    let tokenHash := hashToken plainToken in
    (WsTokenIssued plainToken (part_id participant),
     updateParticipantWsToken (part_id participant) tokenHash now s1).

(** [handleSubscribe(deps, ws, data)] up to the lookup of the
    participant: the socket is closed, or the participant is found. *)
Definition handleSubscribe_authenticate (token : option string) (s : State)
  : SubscribeAuth :=
  if negb (truthyOpt token)
  then CloseSocket 4001 "Authentication required"
  else
    match getParticipantByWsTokenHash (hashToken (default "" token)) s with
    | None => CloseSocket 4001 "Invalid authentication token"
    | Some participant => Authenticated participant
    end.

End WithHash.
End WsToken.

(* ===================================================================== *)
(** * client-handler.ts: client records and history pages                  *)
(* ===================================================================== *)

Module ClientHandler.
Import JsString.

(** [getGitHubAvatarUrl(githubLogin)] *)
Definition getGitHubAvatarUrl (githubLogin : option string) : option string :=
  match githubLogin with
  | Some login =>
      if truthy login then Some ("https://github.com/" ++ login ++ ".png") else None
  | None => None
  end.

(** A [ClientInfo] object, with the time of its last history fetch. *)
Record Client := mkClient {
  cl_participantId : string;
  cl_userId : string;
  cl_name : string;
  cl_avatar : option string;
  cl_status : string;
  cl_lastSeen : Z;
  cl_clientId : string;
  cl_lastFetchHistoryAt : option Z
}.

(** The persisted mapping that [wsManager.recoverClientMapping(ws)]
    reads back. *)
Record ClientMapping := mkClientMapping {
  cm_participant_id : string;
  cm_user_id : string;
  cm_github_name : option string;
  cm_github_login : option string;
  cm_client_id : option string
}.

(** Modelled from the spec: the connection registry "tracks authenticated
    client sockets"; the [SessionWebSocketManager] class is not among the
    source files.  [clients] is its in-memory cache ([getClient],
    [setClient]), [closed] the sockets it has closed, with code and
    reason. *)
Record Registry := mkRegistry {
  clients : gmap Socket Client;
  closed : list (Socket * Z * string)
}.

(** [getClientInfo(deps, ws)]; [mapping] is the answer of
    [wsManager.recoverClientMapping(ws)], [seenAt] and [stampedAt] are the
    two readings of [Date.now()]. *)
Definition getClientInfo (ws : Socket) (mapping : option ClientMapping)
  (seenAt stampedAt : Z) (r : Registry) : option Client * Registry :=
  match clients r !! ws with
  | Some cached => (Some cached, r)
  | None =>
      match mapping with
      | None =>
          (None,
           mkRegistry (clients r)
             (closed r ++ [(ws, 4002, "Session expired, please reconnect")]))
      | Some m =>
          let clientInfo :=
            mkClient (cm_participant_id m) (cm_user_id m)
              (default (cm_user_id m)
                 (orElse (orElse (cm_github_name m) (cm_github_login m))
                    (Some (cm_user_id m))))
              (getGitHubAvatarUrl (cm_github_login m)) "active" seenAt
              (default ("client-" ++ pretty stampedAt)
                 (orElse (cm_client_id m) (Some ("client-" ++ pretty stampedAt))))
              None in
          (Some clientInfo, mkRegistry (<[ws := clientInfo]> (clients r)) (closed r))
      end
  end.

(** A row of a history page; [hi_data] is what [JSON.parse(event.data)]
    yields, [None] when it throws. *)
Record HistoryRow := mkHistoryRow {
  hi_id : string;
  hi_created_at : Z;
  hi_data : option SandboxEvent
}.

(** The answer of [repository.getEventsHistoryPage]. *)
Record HistoryPage := mkHistoryPage {
  hp_events : list HistoryRow;
  hp_hasMore : bool
}.

(** The frames [handleFetchHistory] sends. *)
Inductive HistoryFrame : Type :=
| history_error (code message : string)
| history_page (items : list SandboxEvent) (hasMore : bool)
               (cursor : option (Z * string)).

(** The two fields of a well-formed cursor. *)
Definition cursorFields (cursor : option Json) : option (Z * string) :=
  match cursor with
  | Some c =>
      if CreatePr.jsonTruthy c
      then match CreatePr.field "timestamp" c, CreatePr.field "id" c with
           | Some (JNum timestamp), Some (JStr id) => Some (timestamp, id)
           | _, _ => None
           end
      else None
  | None => None
  end.

(** [handleFetchHistory(deps, ws, data)]: the frame it sends and the
    registry afterwards.  [cursor] and [limit] are [data.cursor] and
    [data.limit] as parsed; [now] is the handler's own reading of the
    clock. *)
Definition handleFetchHistory (ws : Socket) (cursor limit : option Json)
  (mapping : option ClientMapping) (seenAt stampedAt now : Z)
  (getEventsHistoryPage : Z -> string -> Z -> HistoryPage) (r : Registry)
  : HistoryFrame * Registry :=
  match getClientInfo ws mapping seenAt stampedAt r with
  | (None, r1) => (history_error "NOT_SUBSCRIBED" "Must subscribe first", r1)
  | (Some client, r1) =>
      match cursorFields cursor with
      | None => (history_error "INVALID_CURSOR" "Invalid cursor", r1)
      | Some (timestamp, id) =>
          if match cl_lastFetchHistoryAt client with
             | Some lastFetch => negb (lastFetch =? 0) && (now - lastFetch <? 200)
             | None => false
             end
          then (history_error "RATE_LIMITED" "Too many requests", r1)
          else
            let client' :=
              mkClient (cl_participantId client) (cl_userId client) (cl_name client)
                (cl_avatar client) (cl_status client) (cl_lastSeen client)
                (cl_clientId client) (Some now) in
            let r2 := mkRegistry (<[ws := client']> (clients r1)) (closed r1) in
            let rawLimit :=
              match limit with
              | Some (JNum n) => n
              | _ => 200
              end in
            let limit' := Z.max 1 (Z.min rawLimit 500) in
            let page := getEventsHistoryPage timestamp id limit' in
            let items := omap hi_data (hp_events page) in
            let oldestEvent := head (hp_events page) in
            (history_page items (hp_hasMore page)
               ((fun e => (hi_created_at e, hi_id e)) <$> oldestEvent), r2)
      end
  end.

End ClientHandler.

(* ===================================================================== *)
(** ** What a create-PR request adds to the artifacts                      *)
(* ===================================================================== *)

Module CreatePrOutcome.
Import CreatePr.

(** What a create-PR request that has come to [t] has added to the
    artifacts [before]: with a created pull request, one artifact of type
    "pr" for its URL; with a manual link, nothing or one artifact of type
    "branch" for its URL; with an error, or while it is suspended,
    nothing. *)
Definition storedBy (artifactId : string) (now : Z) (t : PrTask)
  (before after : list ArtifactRow) : Prop :=
  match t with
  | Finished (PrCreated _ prUrl _) =>
      exists metadata,
        after = (before ++ [mkArtifactRow artifactId "pr" (Some prUrl) metadata now])%list
  | Finished (ManualPr createPrUrl _ _) =>
      after = before
      \/ exists metadata,
           after = (before ++ [mkArtifactRow artifactId "branch" (Some createPrUrl)
                                 metadata now])%list
  | _ => after = before
  end.

End CreatePrOutcome.

(* ===================================================================== *)
(** ** Sample sessions with a queue, a subscribed client and a listing     *)
(* ===================================================================== *)

Module SessionFixtures.
Import Fixtures.

(** [running] after a second prompt: the first Message is processing, the
    second waits. *)
Definition queued : State :=
  SessionDO.apply
    (SessionDO.Enqueue (prompt "next" "bob") (SessionDO.mkPromptIds "p8" "m2" "e2") 2)
    running.

(** A registry that holds one subscribed client, which has not fetched
    history yet. *)
Definition subscribed : ClientHandler.Registry :=
  ClientHandler.mkRegistry
    {[ 3%nat := ClientHandler.mkClient "p1" "alice" "Alice" None "active" 0
                  "client-1" None ]}
    [].

Definition historyCursor : Json :=
  JObj [("timestamp", JNum 100); ("id", JStr "e5")].

(** A repository that answers every history query with one stored event
    that parses and one that does not. *)
Definition historyOf (timestamp : Z) (id : string) (limit : Z)
  : ClientHandler.HistoryPage :=
  ClientHandler.mkHistoryPage
    [ ClientHandler.mkHistoryRow "e3" 80 (Some (event "token" (Some "m1") None));
      ClientHandler.mkHistoryRow "e4" 90 None ]
    true.

(** A repository that answers every listing with three events. *)
Definition threeEvents (args : ListRoutes.ListEventsArgs) : list EventRow :=
  [ mkEventRow "e1" "token" (event "token" None None) None 10;
    mkEventRow "e2" "token" (event "token" None None) None 20;
    mkEventRow "e3" "token" (event "token" None None) None 30 ].


(** A repository that answers every listing with one message. *)
Definition oneMessage (args : ListRoutes.ListMessagesArgs) : list MessageRow :=
  [ message "m1" "p1" completed ].

End SessionFixtures.

(* ********************************************************************* *)
(** * Properties                                                           *)
(* ********************************************************************* *)

(* ===================================================================== *)
(** ** The [limit] of the listing routes                                   *)
(* ===================================================================== *)

Module ListRoutesFacts.
Import JsString JsNumber ListRoutes.

Lemma Math_min_cap (a : number) (cap : Z) :
  Math_min a (Num cap) = NaN \/ exists z, Math_min a (Num cap) = Num z /\ z <= cap.
Proof.
  destruct a as [|x]; simpl; [by left|].
  right. exists (Z.min x cap). split; [done | lia].
Qed.

(** Whenever the events limit is a number at all, it is at most 200. *)
Lemma handleListEvents_limit_when_number (p : SearchParams) (args : ListEventsArgs) :
  handleListEvents p = Query args ->
  le_limit args = NaN \/ exists z, le_limit args = Num z /\ z <= 200.
Proof.
  unfold handleListEvents.
  destruct (_ && _); [discriminate|].
  intros [= <-]. simpl. apply Math_min_cap.
Qed.

(** Whenever the messages limit is a number at all, it is at most 100. *)
Lemma handleListMessages_limit_when_number (p : SearchParams) (args : ListMessagesArgs) :
  handleListMessages p = Query args ->
  lm_limit args = NaN \/ exists z, lm_limit args = Num z /\ z <= 100.
Proof.
  unfold handleListMessages.
  destruct (_ && _); [discriminate|].
  intros [= <-]. simpl. apply Math_min_cap.
Qed.

Example limit_absent : handleListEvents [] = Query (mkListEventsArgs None (Num 50) None None).
Proof. reflexivity. Qed.

Example limit_large :
  handleListEvents [("limit", "100000")]
  = Query (mkListEventsArgs None (Num 200) None None).
Proof. reflexivity. Qed.

Example limit_negative :
  handleListMessages [("limit", "-5")]
  = Query (mkListMessagesArgs None (Num (-5)) None).
Proof. reflexivity. Qed.

Example limit_zero :
  handleListMessages [("limit", "0")]
  = Query (mkListMessagesArgs None (Num 0) None).
Proof. reflexivity. Qed.

Example limit_hex :
  handleListMessages [("limit", " 0x1f")]
  = Query (mkListMessagesArgs None (Num 31) None).
Proof. reflexivity. Qed.

(** C7 (as the code behaves): for a [limit] that does not start with a
    number, such as [limit=abc] or an empty [limit=], [parseInt] gives
    [NaN], [Math.min(NaN, cap)] is [NaN], and that [NaN] is the limit
    handed to the repository by both routes; it is not at most 200 (or
    100). *)
Theorem limit_not_a_number_reaches_repository :
  handleListEvents [("limit", "abc")]
    = Query (mkListEventsArgs None NaN None None)
  /\ handleListMessages [("limit", "abc")]
    = Query (mkListMessagesArgs None NaN None)
  /\ handleListEvents [("limit", "")]
    = Query (mkListEventsArgs None NaN None None)
  /\ JsNumber.leb NaN (Num 200) = false
  /\ JsNumber.leb NaN (Num 100) = false.
Proof. repeat split; reflexivity. Qed.

End ListRoutesFacts.

(* ===================================================================== *)
(** ** [mergeSecrets]                                                      *)
(* ===================================================================== *)

Module SecretsFacts.
Import JsString Secrets.


Lemma assignAll_snoc (r : SecretRecord) (kv : string * string)
  (m : gmap string string) :
  assignAll (r ++ [kv])%list m = <[normalizeKey kv.1 := kv.2]> (assignAll r m).
Proof. unfold assignAll. by rewrite fold_left_app. Qed.

(** A key of the result of one pass comes from the last entry of the pass
    that normalizes to it, or, when there is none, from the record the
    pass started with. *)
Lemma assignAll_lookup (r : SecretRecord) (m : gmap string string) (K v : string) :
  assignAll r m !! K = Some v ->
  (exists k, (k, v) ∈ r /\ normalizeKey k = K)
  \/ ((forall k v', (k, v') ∈ r -> normalizeKey k <> K) /\ m !! K = Some v).
Proof.
  induction r as [|[k0 v0] r IH] using rev_ind; intros Hl.
  - right. split; [|done]. intros k v' Hin. by apply elem_of_nil in Hin.
  - rewrite assignAll_snoc in Hl. simpl in Hl.
    destruct (decide (normalizeKey k0 = K)) as [<-|Hne].
    + rewrite lookup_insert_eq in Hl. injection Hl as <-.
      left. exists k0. split; [|done]. apply elem_of_app. right. by apply list_elem_of_singleton.
    + rewrite lookup_insert_ne in Hl by done.
      destruct (IH Hl) as [(k & Hin & Hk)|[Hnone Hm]].
      * left. exists k. split; [|done]. apply elem_of_app. by left.
      * right. split; [|done]. intros k v' Hin.
        apply elem_of_app in Hin as [Hin|Hin]; [by eapply Hnone|].
        apply list_elem_of_singleton in Hin. by injection Hin as -> ->.
Qed.



Example mergeSecrets_repo_wins :
  merged (mergeSecrets [("api_key", "global")] [("API_Key", "repo")] None)
  !! "API_KEY" = Some "repo".
Proof.
  unfold mergeSecrets, assignAll, merged, fold_left.
  change (normalizeKey ("API_Key", "repo").1) with "API_KEY".
  apply lookup_insert_eq.
Qed.

End SecretsFacts.

(* ===================================================================== *)
(** ** Strings: trimming and case                                          *)
(* ===================================================================== *)

Module JsStringFacts.
Import JsString.

Lemma chars_ofChars (l : list ascii) : chars (ofChars l) = l.
Proof. apply list_ascii_of_string_of_list_ascii. Qed.

Lemma ofChars_chars (s : string) : ofChars (chars s) = s.
Proof. apply string_of_list_ascii_of_string. Qed.













Lemma truthy_nonempty (s : string) : s <> "" -> truthy s = true.
Proof. by destruct s. Qed.


End JsStringFacts.

(* ===================================================================== *)
(** ** Sandbox events, heartbeats and the push handshake                   *)
(* ===================================================================== *)

Module SandboxHandlerFacts.
Import JsString Repository SandboxHandler JsStringFacts.

(** Computes the fields of a state written by the primitives, and nothing
    else. *)
Ltac fields :=
  cbn [session participants messages events artifacts sandbox sandboxSocket
       pendingPushResolvers promises effects
       with_session with_participants with_messages with_events
       with_artifacts with_sandbox with_sandboxSocket
       with_pendingPushResolvers with_promises with_effects
       spawnSandbox safeSend broadcast emit
       updateMessageToProcessing updateMessageCompletion createEvent
       createMessage createParticipant createArtifact
       updateSandboxHeartbeat updateSandboxGitSyncStatus updateSandboxStatus
       updateSessionCurrentSha updateSessionBranch updateParticipantTokens] in *.

(** Closes goals that state that a handler leaves a field alone. *)
Ltac frame :=
  intros; fields; repeat (case_match; fields); unfold settle;
  repeat (case_match; fields); (reflexivity || congruence).

Section WithModels.
Context `{Models}.

Lemma processMessageQueue_events now s :
  events (processMessageQueue now s) = events s.
Proof. unfold processMessageQueue. frame. Qed.

Lemma processMessageQueue_artifacts now s :
  artifacts (processMessageQueue now s) = artifacts s.
Proof. unfold processMessageQueue. frame. Qed.

Lemma processMessageQueue_pendingPushResolvers now s :
  pendingPushResolvers (processMessageQueue now s) = pendingPushResolvers s.
Proof. unfold processMessageQueue. frame. Qed.

Lemma processMessageQueue_promises now s :
  promises (processMessageQueue now s) = promises s.
Proof. unfold processMessageQueue. frame. Qed.

Lemma processMessageQueue_sandboxSocket now s :
  sandboxSocket (processMessageQueue now s) = sandboxSocket s.
Proof. unfold processMessageQueue. frame. Qed.

Lemma handlePushEvent_events event s :
  events (handlePushEvent event s) = events s.
Proof. unfold handlePushEvent. frame. Qed.

Lemma handlePushEvent_messages event s :
  messages (handlePushEvent event s) = messages s.
Proof. unfold handlePushEvent. frame. Qed.

Lemma handlePushEvent_effects event s :
  effects (handlePushEvent event s) = effects s.
Proof. unfold handlePushEvent. frame. Qed.

(** Every event but a heartbeat appends exactly one row to the event log. *)
Lemma processSandboxEvent_events now eventId event s :
  ev_type event <> "heartbeat" ->
  events (processSandboxEvent now eventId event s)
  = (events s ++ [mkEventRow eventId (ev_type event) event
                    (attributedMessage event s) now])%list.
Proof.
  intros Hne. unfold processSandboxEvent, processSandboxEvent_with.
  destruct (String.eqb_spec (ev_type event) "heartbeat") as [|_]; [done|].
  assert (nullish (ev_messageId event) (msg_id <$> getProcessingMessage s)
          = attributedMessage event s) as ->.
  { unfold attributedMessage, nullish. by destruct (ev_messageId event). }
  destruct (String.eqb (ev_type event) "execution_complete").
  - rewrite processMessageQueue_events. frame.
  - fields. destruct (_ || _); [rewrite handlePushEvent_events|]; frame.
Qed.

(** C8: a heartbeat only sets the last-heartbeat field of the Sandbox row:
    the event log, the messages, the emitted effects (so the broadcasts)
    and every other part of the state stay as they were; an event of any
    other type appends one row to the event log, holding that event. *)
Theorem heartbeat_only_touches_sandbox_row now eventId event s :
  (ev_type event = "heartbeat" ->
     let s' := processSandboxEvent now eventId event s in
     s' = updateSandboxHeartbeat now s
     /\ last_heartbeat <$> sandbox s' = (fun _ => Some now) <$> sandbox s
     /\ sb_id <$> sandbox s' = sb_id <$> sandbox s
     /\ sb_status <$> sandbox s' = sb_status <$> sandbox s
     /\ git_sync_status <$> sandbox s' = git_sync_status <$> sandbox s
     /\ auth_token <$> sandbox s' = auth_token <$> sandbox s
     /\ modal_sandbox_id <$> sandbox s' = modal_sandbox_id <$> sandbox s
     /\ events s' = events s
     /\ messages s' = messages s
     /\ effects s' = effects s
     /\ session s' = session s
     /\ participants s' = participants s
     /\ artifacts s' = artifacts s
     /\ sandboxSocket s' = sandboxSocket s
     /\ pendingPushResolvers s' = pendingPushResolvers s
     /\ promises s' = promises s)
  /\ (ev_type event <> "heartbeat" ->
      exists row,
        events (processSandboxEvent now eventId event s) = (events s ++ [row])%list
        /\ er_id row = eventId /\ er_type row = ev_type event
        /\ er_data row = event /\ er_created_at row = now).
Proof.
  split.
  - intros Ht. unfold processSandboxEvent, processSandboxEvent_with. rewrite Ht.
    change (String.eqb "heartbeat" "heartbeat") with true. cbv iota.
    fields. destruct (sandbox s); repeat split; reflexivity.
  - intros Hne. eexists. split; [by apply processSandboxEvent_events|done].
Qed.

(** C10: an event that is not a heartbeat is stored under the message id it
    carries; only an event without one is stored under the id of the
    Message that is processing, and under none when nothing is processing.
    So an event that names an earlier message is never stored under the
    Message processing now. *)
Theorem event_stored_under_its_own_message now eventId event s :
  ev_type event <> "heartbeat" ->
  exists row,
    events (processSandboxEvent now eventId event s) = (events s ++ [row])%list
    /\ er_data row = event
    /\ (forall id, ev_messageId event = Some id -> er_message_id row = Some id)
    /\ (ev_messageId event = None ->
        er_message_id row = msg_id <$> getProcessingMessage s)
    /\ (ev_messageId event = None -> getProcessingMessage s = None ->
        er_message_id row = None).
Proof.
  intros Hne. eexists. split; [by apply processSandboxEvent_events|].
  simpl. unfold attributedMessage.
  repeat split.
  - by intros id ->.
  - by intros ->.
  - by intros -> ->.
Qed.

(** C5: without a sandbox socket [pushBranchToRemote] returns
    [{ success: true }] without waiting; the state is untouched, so no
    resolver is registered and no push command is sent. *)
Theorem pushBranchToRemote_without_sandbox (branchName : string)
  (pushSpec : GitPushSpec) (s : State) :
  sandboxSocket s = None ->
  let '(w, s') := pushBranchToRemote_start branchName pushSpec s in
  immediateResult w = Some PushSuccess
  /\ s' = s
  /\ pendingPushResolvers s' = pendingPushResolvers s
  /\ promises s' = promises s
  /\ effects s' = effects s.
Proof.
  intros Hs. unfold pushBranchToRemote_start. rewrite Hs. by repeat split.
Qed.

Lemma pushBranchToRemote_start_registers (branchName : string)
  (pushSpec : GitPushSpec) (ws : Socket) (s : State) :
  sandboxSocket s = Some ws ->
  exists s1,
    pushBranchToRemote_start branchName pushSpec s
    = (PushAwaiting (length (promises s)) (normalizeBranchName branchName), s1)
    /\ pendingPushResolvers s1 !! normalizeBranchName branchName
       = Some (length (promises s))
    /\ promises s1 = (promises s ++ [Pending])%list
    /\ effects s1 = (effects s ++ [Send ws (cmd_push pushSpec)])%list.
Proof.
  intros Hs. unfold pushBranchToRemote_start. rewrite Hs.
  eexists. split; [reflexivity|]. simpl. by rewrite lookup_insert_eq.
Qed.

Lemma settle_pending (pid : nat) (st : PromiseState) (s : State) :
  promises s !! pid = Some Pending ->
  promises (settle pid st s) !! pid = Some st.
Proof.
  intros Hp. unfold settle. rewrite Hp. simpl.
  apply list_lookup_insert_eq. by eapply lookup_lt_Some.
Qed.


Lemma processSandboxEvent_push now eventId event s :
  ev_type event = "push_complete" \/ ev_type event = "push_error" ->
  processSandboxEvent now eventId event s
  = broadcast (sm_sandbox_event event)
      (handlePushEvent event
         (createEvent (mkEventRow eventId (ev_type event) event
                         (attributedMessage event s) now) s)).
Proof.
  unfold processSandboxEvent, processSandboxEvent_with, attributedMessage, nullish.
  intros [Ht|Ht]; rewrite Ht; simpl; by destruct (ev_messageId event).
Qed.


End WithModels.

Import Fixtures.

Lemma pushBranchToRemote_without_sandbox_witness :
  sandboxSocket initialState = None
  /\ pushBranchToRemote_start "feature/x" "spec" initialState
     = (PushSatisfied, initialState).
Proof.
  split; [reflexivity|].
  pose proof (pushBranchToRemote_without_sandbox "feature/x" "spec" initialState
                eq_refl) as Hw.
  destruct (pushBranchToRemote_start "feature/x" "spec" initialState) as [w s'].
  destruct Hw as (Hi & -> & _). destruct w; [reflexivity | discriminate].
Defined.

Lemma heartbeat_only_touches_sandbox_row_witness :
  let s := Fixtures.prompting "p1" in
  let beat := Fixtures.event "heartbeat" None None in
  let token := Fixtures.event "token" (Some "m0") None in
  ev_type beat = "heartbeat" /\ ev_type token <> "heartbeat"
  /\ processSandboxEvent 9 "e1" beat s = updateSandboxHeartbeat 9 s
  /\ exists row,
       events (processSandboxEvent 9 "e1" token s) = (events s ++ [row])%list
       /\ er_data row = token.
Proof.
  intros s beat token.
  destruct (heartbeat_only_touches_sandbox_row 9 "e1" beat s) as [Hbeat _].
  destruct (heartbeat_only_touches_sandbox_row 9 "e1" token s) as [_ Hother].
  split; [reflexivity|]. split; [discriminate|].
  split; [apply (Hbeat eq_refl)|].
  destruct Hother as (row & Hrow & _ & _ & Hdata & _); [discriminate|].
  exists row. by split.
Defined.

Lemma event_stored_under_its_own_message_witness :
  let s := Fixtures.prompting "p1" in
  let late := Fixtures.event "token" (Some "m0") None in
  ev_type late <> "heartbeat"
  /\ getProcessingMessage s = Some (Fixtures.message "m1" "p1" processing)
  /\ exists row,
       events (processSandboxEvent 9 "e1" late s) = (events s ++ [row])%list
       /\ er_message_id row = Some "m0".
Proof.
  intros s late.
  assert (ev_type late <> "heartbeat") as Hne by discriminate.
  split; [exact Hne|]. split; [reflexivity|].
  destruct (event_stored_under_its_own_message 9 "e1" late s Hne)
    as (row & Hrow & _ & Hid & _).
  exists row. split; [exact Hrow | by apply Hid].
Defined.



End SandboxHandlerFacts.

(* ===================================================================== *)
(** ** The prompt queue: single flight and completion                      *)
(* ===================================================================== *)

Module QueueFacts.
Import JsString Repository SandboxHandler SessionDO SandboxHandlerFacts.

(** *** Message tables *)

Lemma statusOf_unfold id s : statusOf id s = status <$> find (hasId id) (messages s).
Proof. reflexivity. Qed.

Lemma markProcessing_id id now m : msg_id (markProcessing id now m) = msg_id m.
Proof. unfold markProcessing. by destruct (String.eqb _ _). Qed.

Lemma markCompletion_id id st now m : msg_id (markCompletion id st now m) = msg_id m.
Proof. unfold markCompletion. by destruct (String.eqb _ _). Qed.

Lemma map_markProcessing_ids id now l :
  map msg_id (map (markProcessing id now) l) = map msg_id l.
Proof.
  rewrite map_map. apply map_ext. intros m. apply markProcessing_id.
Qed.

Lemma map_markCompletion_ids id st now l :
  map msg_id (map (markCompletion id st now) l) = map msg_id l.
Proof.
  rewrite map_map. apply map_ext. intros m. apply markCompletion_id.
Qed.

Lemma find_hasId_markProcessing id id' now l :
  status <$> find (hasId id) (map (markProcessing id' now) l)
  = if String.eqb id id' then (fun _ => processing) <$> find (hasId id) l
    else status <$> find (hasId id) l.
Proof.
  induction l as [|m l IH]; simpl.
  - by destruct (String.eqb id id').
  - unfold hasId at 1 3 5. rewrite markProcessing_id.
    destruct (String.eqb_spec (msg_id m) id) as [Hm|Hm]; [|exact IH].
    unfold markProcessing. rewrite Hm.
    destruct (String.eqb id id'); reflexivity.
Qed.

Lemma find_hasId_markCompletion id id' st now l :
  status <$> find (hasId id) (map (markCompletion id' st now) l)
  = if String.eqb id id' then (fun _ => st) <$> find (hasId id) l
    else status <$> find (hasId id) l.
Proof.
  induction l as [|m l IH]; simpl.
  - by destruct (String.eqb id id').
  - unfold hasId at 1 3 5. rewrite markCompletion_id.
    destruct (String.eqb_spec (msg_id m) id) as [Hm|Hm]; [|exact IH].
    unfold markCompletion. rewrite Hm.
    destruct (String.eqb id id'); reflexivity.
Qed.

(** With distinct ids, the status found under the id of a stored Message
    is the status of that Message. *)
Lemma find_hasId_In l m :
  NoDup (map msg_id l) -> In m l -> find (hasId (msg_id m)) l = Some m.
Proof.
  induction l as [|x l IH]; simpl; [done|].
  intros Hnd [->|Hin].
  - unfold hasId. by rewrite String.eqb_refl.
  - apply NoDup_cons in Hnd as [Hx Hnd]. unfold hasId at 1.
    destruct (String.eqb_spec (msg_id x) (msg_id m)) as [He|_]; [|by apply IH].
    exfalso. apply Hx. rewrite He. apply list_elem_of_In, in_map, Hin.
Qed.

Lemma find_hasId_app_l id l l' x :
  find (hasId id) l = Some x -> find (hasId id) (l ++ l') = Some x.
Proof.
  induction l as [|m l IH]; simpl; [done|]. by destruct (hasId id m).
Qed.

Lemma find_hasId_Some id l x : find (hasId id) l = Some x -> In x l /\ msg_id x = id.
Proof.
  intros Hf. apply find_some in Hf as [Hin Hid]. split; [done|].
  by apply String.eqb_eq.
Qed.

Lemma getProcessingMessage_Some s p :
  getProcessingMessage s = Some p -> In p (messages s) /\ status p = processing.
Proof.
  intros Hf. apply find_some in Hf as [Hin Hst]. split; [done|].
  by apply bool_decide_eq_true in Hst.
Qed.

Lemma getProcessingMessage_None s m :
  getProcessingMessage s = None -> In m (messages s) -> status m <> processing.
Proof.
  intros Hf Hin Hst. eapply find_none in Hf; [|exact Hin].
  simpl in Hf. by apply bool_decide_eq_false in Hf.
Qed.

Lemma getNextPendingMessage_Some s m :
  getNextPendingMessage s = Some m -> In m (messages s) /\ status m = pending.
Proof.
  intros Hf. apply find_some in Hf as [Hin Hst]. split; [done|].
  by apply bool_decide_eq_true in Hst.
Qed.

(** The oldest pending Message splits the table: nothing before it is
    pending. *)
Lemma getNextPendingMessage_split s m :
  getNextPendingMessage s = Some m ->
  exists l1 l2,
    messages s = (l1 ++ m :: l2)%list
    /\ Forall (fun x => status x <> pending) l1
    /\ status m = pending.
Proof.
  unfold getNextPendingMessage. induction (messages s) as [|x l IH]; simpl; [done|].
  case_bool_decide as Hx.
  - intros [= ->]. exists [], l. by repeat split.
  - intros Hf. destruct (IH Hf) as (l1 & l2 & -> & Hl1 & Hm).
    exists (x :: l1), l2. repeat split; [|done]. by constructor.
Qed.

(** Marking by id changes one row when ids are distinct. *)
Lemma map_markProcessing_split l1 m l2 now :
  NoDup (map msg_id (l1 ++ m :: l2)) ->
  map (markProcessing (msg_id m) now) (l1 ++ m :: l2)
  = (l1 ++ started m now :: l2)%list.
Proof.
  intros Hnd. rewrite map_app. simpl. f_equal; [|f_equal].
  - rewrite <- (map_id l1) at 2. apply map_ext_in. intros x Hx.
    unfold markProcessing.
    destruct (String.eqb_spec (msg_id x) (msg_id m)) as [He|_]; [|done].
    exfalso. rewrite map_app in Hnd. apply NoDup_app in Hnd as (_ & Hdisj & _).
    eapply (Hdisj (msg_id x)).
    + apply list_elem_of_In, in_map, Hx.
    + rewrite He. simpl. apply elem_of_cons. by left.
  - unfold markProcessing, started. by rewrite String.eqb_refl.
  - rewrite <- (map_id l2) at 2. apply map_ext_in. intros x Hx.
    unfold markProcessing.
    destruct (String.eqb_spec (msg_id x) (msg_id m)) as [He|_]; [|done].
    exfalso. rewrite map_app in Hnd. apply NoDup_app in Hnd as (_ & _ & Hnd).
    simpl in Hnd. apply NoDup_cons in Hnd as [Hm _]. apply Hm.
    rewrite <- He. apply list_elem_of_In, in_map, Hx.
Qed.

(** At most one processing Message, counted. *)
Lemma singleFlight_count s :
  NoDup (map msg_id (messages s)) -> singleFlight s -> (processingCount s <= 1)%nat.
Proof.
  unfold singleFlight, processingCount.
  induction (messages s) as [|x l IH]; simpl; [lia|].
  intros Hnd Hs. apply NoDup_cons in Hnd as [Hx Hnd].
  rewrite filter_cons. case_decide as Hp; simpl.
  - destruct (filter (fun m => status m = processing) l) as [|y r] eqn:Hf;
      [simpl; lia|].
    exfalso. assert (y ∈ filter (fun m => status m = processing) l) as Hy
      by (rewrite Hf; apply elem_of_cons; by left).
    apply list_elem_of_filter in Hy as [Hyp Hy]. apply Hx.
    rewrite (Hs x y); [| by left | right; by apply list_elem_of_In | done | done].
    by apply list_elem_of_fmap_2.
  - apply IH; [done|]. intros a b Ha Hb. apply Hs; by right.
Qed.

(** *** Preservation of [wellFormed] by the writes of the handlers *)

Lemma executionCompleteCount_snoc id l e :
  executionCompleteCount id (l ++ [e])
  = (executionCompleteCount id l + if isExecutionCompleteFor id e then 1 else 0)%nat.
Proof.
  unfold executionCompleteCount. rewrite List.filter_app, length_app. simpl.
  by destruct (isExecutionCompleteFor id e).
Qed.

Lemma executionCompleteCount_app id l l' :
  executionCompleteCount id (l ++ l')
  = (executionCompleteCount id l + executionCompleteCount id l')%nat.
Proof. unfold executionCompleteCount. by rewrite List.filter_app, length_app. Qed.

Lemma quiet_unless_execution_complete ev :
  ev_type ev <> "execution_complete" -> quiet (Broadcast (sm_sandbox_event ev)).
Proof.
  intros Hne id. simpl.
  by destruct (String.eqb_spec (ev_type ev) "execution_complete").
Qed.

Lemma wf_frame s s' :
  messages s' = messages s -> effects s' = effects s ->
  wellFormed s -> wellFormed s'.
Proof.
  unfold wellFormed, singleFlight, statusOf. intros -> ->. done.
Qed.

Lemma wf_emit e s : quiet e -> wellFormed s -> wellFormed (emit e s).
Proof.
  intros Hq (Hnd & Hs & Hc). split; [done|]. split; [done|].
  intros id. unfold statusOf. fields. rewrite executionCompleteCount_snoc, Hq.
  rewrite Nat.add_0_r. apply Hc.
Qed.

Lemma wf_createMessage m s :
  ~ In (msg_id m) (map msg_id (messages s)) -> status m = pending ->
  wellFormed s -> wellFormed (createMessage m s).
Proof.
  intros Hfresh Hp (Hnd & Hs & Hc). unfold wellFormed, singleFlight, statusOf.
  fields. split; [|split].
  - rewrite map_app. apply NoDup_app. split; [done|]. split.
    + intros x Hx Hx'. simpl in Hx'. apply list_elem_of_singleton in Hx' as ->.
      by apply Hfresh, list_elem_of_In.
    + simpl. apply NoDup_singleton.
  - intros a b Ha Hb Hpa Hpb.
    apply in_app_or in Ha as [Ha|[<-|[]]]; [|congruence].
    apply in_app_or in Hb as [Hb|[<-|[]]]; [|congruence].
    by apply Hs.
  - intros id. destruct (Hc id) as [Hle Hfin]. split; [done|].
    intros Hpos. specialize (Hfin Hpos). unfold statusOf in Hfin.
    change (fun m0 => String.eqb (msg_id m0) id) with (hasId id) in *.
    destruct (find (hasId id) (messages s)) as [x|] eqn:Hf.
    + by rewrite (find_hasId_app_l id _ [m] x Hf).
    + destruct Hfin; discriminate.
Qed.

Lemma wf_toProcessing m now s :
  getProcessingMessage s = None -> getNextPendingMessage s = Some m ->
  wellFormed s -> wellFormed (updateMessageToProcessing (msg_id m) now s).
Proof.
  intros Hnone Hnext (Hnd & Hs & Hc).
  apply getNextPendingMessage_Some in Hnext as [Hin Hpend].
  unfold wellFormed, singleFlight, statusOf. fields. split; [|split].
  - by rewrite map_markProcessing_ids.
  - assert (forall a, In a (map (markProcessing (msg_id m) now) (messages s)) ->
              status a = processing -> msg_id a = msg_id m) as Hall.
    { intros a Ha Hpa. apply in_map_iff in Ha as (x & <- & Hx).
      rewrite markProcessing_id. unfold markProcessing in Hpa.
      destruct (String.eqb_spec (msg_id x) (msg_id m)) as [|_]; [done|].
      by destruct (getProcessingMessage_None s x Hnone Hx). }
    intros a b Ha Hb Hpa Hpb. rewrite (Hall a), (Hall b); done.
  - intros id. destruct (Hc id) as [Hle Hfin]. split; [done|].
    intros Hpos. specialize (Hfin Hpos). unfold statusOf in Hfin.
    change (fun m0 => String.eqb (msg_id m0) id) with (hasId id) in *.
    rewrite find_hasId_markProcessing.
    destruct (String.eqb_spec id (msg_id m)) as [->|_]; [|done].
    rewrite (find_hasId_In _ m Hnd Hin) in Hfin. simpl in Hfin.
    rewrite Hpend in Hfin. destruct Hfin; discriminate.
Qed.

Lemma wf_completion p st ev now s :
  getProcessingMessage s = Some p ->
  st = completed \/ st = failed ->
  ev_messageId ev = None \/ ev_messageId ev = Some (msg_id p) ->
  wellFormed s ->
  wellFormed (broadcast (sm_sandbox_event ev)
                (updateMessageCompletion (msg_id p) st now s)).
Proof.
  intros Hp Hst Hev (Hnd & Hs & Hc).
  apply getProcessingMessage_Some in Hp as [Hin Hproc].
  unfold wellFormed, singleFlight, statusOf. fields. split; [|split].
  - by rewrite map_markCompletion_ids.
  - assert (forall a, In a (map (markCompletion (msg_id p) st now) (messages s)) ->
              status a = processing ->
              exists x, In x (messages s) /\ status x = processing
                        /\ msg_id x = msg_id a) as Hall.
    { intros a Ha Hpa. apply in_map_iff in Ha as (x & <- & Hx).
      exists x. rewrite markCompletion_id. unfold markCompletion in Hpa.
      destruct (String.eqb (msg_id x) (msg_id p)); [|done].
      simpl in Hpa. destruct Hst; congruence. }
    intros a b Ha Hb Hpa Hpb.
    destruct (Hall a Ha Hpa) as (x & Hx & Hxp & <-).
    destruct (Hall b Hb Hpb) as (y & Hy & Hyp & <-).
    by apply Hs.
  - intros id. destruct (Hc id) as [Hle Hfin]. unfold statusOf in Hfin.
    change (fun m0 => String.eqb (msg_id m0) id) with (hasId id) in *.
    rewrite executionCompleteCount_snoc, find_hasId_markCompletion.
    destruct (String.eqb_spec id (msg_id p)) as [->|Hne].
    + rewrite (find_hasId_In _ p Hnd Hin) in *. simpl in *.
      assert (executionCompleteCount (msg_id p) (effects s) = 0%nat) as ->.
      { destruct (executionCompleteCount (msg_id p) (effects s)); [done|].
        destruct Hfin as [Hf|Hf]; [lia| |]; congruence. }
      split; [destruct (_ && _); simpl; lia|].
      intros _. unfold finished. destruct Hst; subst; eauto.
    + assert (isExecutionCompleteFor id (Broadcast (sm_sandbox_event ev)) = false)
        as ->.
      { simpl. apply andb_false_iff. right. apply bool_decide_eq_false.
        destruct Hev as [->| ->]; congruence. }
      by rewrite Nat.add_0_r.
Qed.

(** *** One handler run: what it keeps *)

Lemma evolves_refl s : evolves s s.
Proof.
  intros Hwf. split; [done|]. split; [|done]. exists []. by rewrite app_nil_r.
Qed.

Lemma evolves_trans s t u : evolves s t -> evolves t u -> evolves s u.
Proof.
  intros Hst Htu Hwf. destruct (Hst Hwf) as (Hwt & [l Hl] & Hkeep).
  destruct (Htu Hwt) as (Hwu & [l' Hl'] & Hkeep').
  split; [done|]. split.
  - exists (l ++ l')%list. by rewrite Hl', Hl, app_assoc.
  - intros id Hfin. rewrite Hkeep'; [by apply Hkeep|]. by rewrite Hkeep.
Qed.

Lemma evolves_frame s0 s s' :
  messages s' = messages s -> effects s' = effects s ->
  evolves s0 s -> evolves s0 s'.
Proof.
  intros Hm He Hev. eapply evolves_trans; [exact Hev|].
  intros Hwf. split; [by eapply wf_frame|]. split.
  - exists []. by rewrite app_nil_r.
  - intros id _. unfold statusOf. by rewrite Hm.
Qed.

Lemma evolves_emit e s0 s : quiet e -> evolves s0 s -> evolves s0 (emit e s).
Proof.
  intros Hq Hev. eapply evolves_trans; [exact Hev|].
  intros Hwf. split; [by apply wf_emit|]. split; [by exists [e]|done].
Qed.

Lemma evolves_createMessage m s0 s :
  ~ In (msg_id m) (map msg_id (messages s)) -> status m = pending ->
  evolves s0 s -> evolves s0 (createMessage m s).
Proof.
  intros Hfresh Hp Hev. eapply evolves_trans; [exact Hev|].
  intros Hwf. split; [by apply wf_createMessage|]. split.
  - exists []. by rewrite app_nil_r.
  - intros id Hfin. unfold statusOf in *. fields.
    change (fun m0 => String.eqb (msg_id m0) id) with (hasId id) in *.
    destruct (find (hasId id) (messages s)) as [x|] eqn:Hf.
    + by rewrite (find_hasId_app_l id _ [m] x Hf).
    + destruct Hfin; discriminate.
Qed.

Lemma evolves_toProcessing m now s0 s :
  getProcessingMessage s = None -> getNextPendingMessage s = Some m ->
  evolves s0 s -> evolves s0 (updateMessageToProcessing (msg_id m) now s).
Proof.
  intros Hnone Hnext Hev. eapply evolves_trans; [exact Hev|].
  intros Hwf. split; [by apply wf_toProcessing|]. split.
  - exists []. by rewrite app_nil_r.
  - intros id Hfin. destruct Hwf as (Hnd & _ & _).
    apply getNextPendingMessage_Some in Hnext as [Hin Hpend].
    unfold statusOf in *. fields.
    change (fun m0 => String.eqb (msg_id m0) id) with (hasId id) in *.
    rewrite find_hasId_markProcessing.
    destruct (String.eqb_spec id (msg_id m)) as [->|_]; [|done].
    rewrite (find_hasId_In _ m Hnd Hin) in Hfin. simpl in Hfin.
    rewrite Hpend in Hfin. destruct Hfin; discriminate.
Qed.

Lemma evolves_completion p st ev now s0 s :
  getProcessingMessage s = Some p ->
  st = completed \/ st = failed ->
  ev_messageId ev = None \/ ev_messageId ev = Some (msg_id p) ->
  evolves s0 s ->
  evolves s0 (broadcast (sm_sandbox_event ev)
                (updateMessageCompletion (msg_id p) st now s)).
Proof.
  intros Hp Hst Hmid Hev. eapply evolves_trans; [exact Hev|].
  intros Hwf. split; [by apply wf_completion|]. split; [by eexists|].
  intros id Hfin. destruct Hwf as (Hnd & _ & _).
  apply getProcessingMessage_Some in Hp as [Hin Hproc].
  unfold statusOf in *. fields.
  change (fun m0 => String.eqb (msg_id m0) id) with (hasId id) in *.
  rewrite find_hasId_markCompletion.
  destruct (String.eqb_spec id (msg_id p)) as [->|_]; [|done].
  rewrite (find_hasId_In _ p Hnd Hin) in Hfin. simpl in Hfin.
  rewrite Hproc in Hfin. destruct Hfin; discriminate.
Qed.

Section WithModels.
Context `{Models}.

Lemma evolves_processMessageQueue now s0 s :
  evolves s0 s -> evolves s0 (processMessageQueue now s).
Proof.
  intros Hev. unfold processMessageQueue.
  destruct (getProcessingMessage s) eqn:Hp; [done|].
  destruct (getNextPendingMessage s) as [m|] eqn:Hn; [|done].
  destruct (sandboxSocket s) as [ws|]; cbv zeta.
  - unfold safeSend, broadcast.
    do 3 (apply evolves_emit; [by intros ?|]). by apply evolves_toProcessing.
  - unfold spawnSandbox, broadcast. by do 2 (apply evolves_emit; [by intros ?|]).
Qed.

Lemma evolves_stopExecution now s0 s :
  evolves s0 s -> evolves s0 (stopExecution now s).
Proof.
  intros Hev. unfold stopExecution. cbv zeta.
  match goal with
  | |- evolves _ (match sandboxSocket ?t with _ => _ end) =>
      assert (evolves s0 t) as Ht
  end.
  { unfold broadcast at 1. apply evolves_emit; [by intros ?|].
    destruct (getProcessingMessage s) as [p|] eqn:Hp; [|done].
    apply evolves_emit; [by intros ?|].
    apply evolves_completion; [done | by right | by right | done]. }
  destruct (sandboxSocket _); [|done].
  unfold safeSend. by apply evolves_emit; [intros ?|].
Qed.

Lemma evolves_processSandboxEvent_with afterAwait now eventId event s0 s :
  (forall t, evolves s0 t -> evolves s0 (afterAwait t)) ->
  evolves s0 s ->
  evolves s0 (processSandboxEvent_with afterAwait now eventId event s).
Proof.
  intros Hafter Hev. unfold processSandboxEvent_with.
  destruct (String.eqb (ev_type event) "heartbeat");
    [by eapply evolves_frame; [| |exact Hev]|].
  cbv zeta.
  set (row := mkEventRow _ _ _ _ _).
  assert (evolves s0 (createEvent row s)) as Hrow
    by (by eapply evolves_frame; [| |exact Hev]).
  destruct (String.eqb_spec (ev_type event) "execution_complete") as [Ht|Ht].
  - apply Hafter.
    do 3 (apply evolves_emit; [by intros ?|]).
    destruct (nullish (ev_messageId event) (msg_id <$> getProcessingMessage s))
      as [cid|] eqn:Hcid; [|done].
    destruct (getProcessingMessage s) as [p|] eqn:Hp; [|done].
    destruct (String.eqb_spec (msg_id p) cid) as [<-|_]; [|done].
    apply evolves_emit; [by intros ?|].
    unfold broadcast at 1. apply evolves_emit; [by intros ?|].
    apply evolves_completion; [done| | |done].
    + destruct (ev_success event); [by left | by right].
    + destruct (ev_messageId event) as [x|]; [right|by left].
      simpl in Hcid. congruence.
  - apply evolves_emit; [by apply quiet_unless_execution_complete|].
    match goal with
    | |- evolves _ (if _ then handlePushEvent _ ?t else ?t) =>
        assert (evolves s0 t) as Ht'
    end.
    { destruct (String.eqb (ev_type event) "git_sync"); [|done].
      destruct (ev_sha event) as [sha|]; [destruct (truthy sha)|];
        by eapply evolves_frame; [| |exact Hrow]. }
    destruct (_ || _); [|done].
    eapply evolves_frame; [apply handlePushEvent_messages
                          |apply handlePushEvent_effects|done].
Qed.

Lemma evolves_processSandboxEvent now eventId event s0 s :
  evolves s0 s -> evolves s0 (processSandboxEvent now eventId event s).
Proof.
  intros Hev. apply evolves_processSandboxEvent_with; [|done].
  intros t. apply evolves_processMessageQueue.
Qed.

Lemma evolves_processSandboxEvent_suspended now eventId event s0 s :
  evolves s0 s -> evolves s0 (processSandboxEvent_suspended now eventId event s).
Proof. intros Hev. by apply evolves_processSandboxEvent_with. Qed.

Lemma evolves_handleEnqueuePrompt body ids now s0 s :
  ~ In (pi_message ids) (map msg_id (messages s)) ->
  evolves s0 s -> evolves s0 (handleEnqueuePrompt body ids now s).
Proof.
  intros Hfresh Hev. unfold handleEnqueuePrompt.
  match goal with
  | |- context [match getParticipantByUserId ?u s with _ => _ end] =>
      destruct (getParticipantByUserId u s) as [p|]
  end; cbv zeta beta iota.
  - apply evolves_processMessageQueue. unfold writeUserMessageEvent. cbv zeta.
    apply evolves_emit; [by apply quiet_unless_execution_complete|].
    eapply evolves_frame; [reflexivity|reflexivity|].
    by apply evolves_createMessage.
  - unfold createParticipantRecord. cbv zeta beta iota.
    apply evolves_processMessageQueue. unfold writeUserMessageEvent. cbv zeta.
    apply evolves_emit; [by apply quiet_unless_execution_complete|].
    eapply evolves_frame; [reflexivity|reflexivity|].
    apply evolves_createMessage; [done|done|].
    by eapply evolves_frame; [| |exact Hev].
Qed.

Lemma evolves_handlePromptMessage ws client data ids now s0 s :
  ~ In (pi_message ids) (map msg_id (messages s)) ->
  evolves s0 s -> evolves s0 (handlePromptMessage ws client data ids now s).
Proof.
  intros Hfresh Hev. unfold handlePromptMessage.
  destruct client as [client|]; [|by apply evolves_emit; [intros ?|]].
  match goal with
  | |- context [match getParticipantByUserId ?u s with _ => _ end] =>
      destruct (getParticipantByUserId u s) as [p|]
  end; cbv zeta beta iota.
  - apply evolves_processMessageQueue. apply evolves_emit; [by intros ?|].
    unfold writeUserMessageEvent. cbv zeta.
    apply evolves_emit; [by apply quiet_unless_execution_complete|].
    eapply evolves_frame; [reflexivity|reflexivity|].
    by apply evolves_createMessage.
  - unfold createParticipantRecord. cbv zeta beta iota.
    apply evolves_processMessageQueue. apply evolves_emit; [by intros ?|].
    unfold writeUserMessageEvent. cbv zeta.
    apply evolves_emit; [by apply quiet_unless_execution_complete|].
    eapply evolves_frame; [reflexivity|reflexivity|].
    apply evolves_createMessage; [done|done|].
    by eapply evolves_frame; [| |exact Hev].
Qed.

Lemma evolves_handleTyping isSpawning s0 s :
  evolves s0 s -> evolves s0 (handleTyping isSpawning s).
Proof.
  intros Hev. unfold handleTyping.
  destruct (sandboxSocket s); [done|]. destruct isSpawning; [done|].
  unfold spawnSandbox, broadcast. by do 2 (apply evolves_emit; [by intros ?|]).
Qed.

Lemma evolves_upgrade_with afterAwait authHeader sandboxId ws now s0 s :
  (forall t, evolves s0 t -> evolves s0 (afterAwait t)) ->
  evolves s0 s ->
  evolves s0
    (handleSandboxWebSocketUpgrade_with afterAwait authHeader sandboxId ws now s).2.
Proof.
  intros Hafter Hev. unfold handleSandboxWebSocketUpgrade_with. cbv zeta.
  repeat (case_match; [done|]). simpl.
  apply Hafter.
  do 2 (apply evolves_emit; [by intros ?|]).
  unfold broadcast. apply evolves_emit; [by intros ?|].
  eapply evolves_frame; [reflexivity|reflexivity|].
  apply evolves_emit; [by intros ?|].
  by eapply evolves_frame; [| |exact Hev].
Qed.

Lemma evolves_webSocketClose ws code s0 s :
  evolves s0 s -> evolves s0 (webSocketClose ws code s).
Proof.
  intros Hev. unfold webSocketClose.
  case_bool_decide; [|done]. cbv zeta.
  destruct (_ || _).
  - by eapply evolves_frame; [| |exact Hev].
  - apply evolves_emit; [by intros ?|]. by eapply evolves_frame; [| |exact Hev].
Qed.

(** Every admissible action keeps well-formedness, only adds effects, and
    leaves ended Messages as they are. *)
Lemma evolves_apply a s : admissible a s -> evolves s (apply a s).
Proof.
  destruct a; simpl; intros Ha.
  - apply evolves_handleEnqueuePrompt; [|apply evolves_refl].
    intros Hin. by apply Ha, list_elem_of_In.
  - apply evolves_handlePromptMessage; [|apply evolves_refl].
    intros Hin. by apply Ha, list_elem_of_In.
  - apply evolves_handleTyping, evolves_refl.
  - apply evolves_processMessageQueue, evolves_refl.
  - apply evolves_stopExecution, evolves_refl.
  - apply evolves_processSandboxEvent, evolves_refl.
  - apply evolves_processSandboxEvent_suspended, evolves_refl.
  - apply evolves_upgrade_with; [|apply evolves_refl].
    intros t. apply evolves_processMessageQueue.
  - by apply evolves_upgrade_with; [|apply evolves_refl].
  - apply evolves_webSocketClose, evolves_refl.
Qed.

Lemma evolves_reaches s t : reaches s t -> evolves s t.
Proof.
  induction 1 as [|t a Hr IH Ha]; [apply evolves_refl|].
  eapply evolves_trans; [exact IH | by apply evolves_apply].
Qed.

Lemma wellFormed_initial : wellFormed initialState.
Proof.
  split; [constructor|]. split; [by intros a b []|].
  intros id. unfold executionCompleteCount. simpl. split; [lia | intros; lia].
Qed.

Lemma reachable_wellFormed s : reachable s -> wellFormed s.
Proof. intros Hr. by apply (evolves_reaches _ _ Hr), wellFormed_initial. Qed.

Lemma processMessageQueue_noop now s p :
  getProcessingMessage s = Some p -> processMessageQueue now s = s.
Proof. intros Hp. unfold processMessageQueue. by rewrite Hp. Qed.

(** What [processMessageQueue] emits is no completion handling. *)
Lemma processMessageQueue_effects now s :
  exists l, effects (processMessageQueue now s) = (effects s ++ l)%list
            /\ forallb (fun e => negb (isCompletionHandling e)) l = true.
Proof.
  unfold processMessageQueue.
  destruct (getProcessingMessage s); [exists []; by rewrite app_nil_r|].
  destruct (getNextPendingMessage s) as [m|]; [|exists []; by rewrite app_nil_r].
  destruct (sandboxSocket s) as [ws|]; cbv zeta; fields.
  - rewrite <- !app_assoc. eexists. split; [reflexivity|reflexivity].
  - rewrite <- !app_assoc. eexists. split; [reflexivity|reflexivity].
Qed.

(** C1: in every state the actor reaches, at most one Message is
    processing, also after [processMessageQueue] has run; when a Message is
    processing, [processMessageQueue] changes nothing (no Message is
    marked, nothing is emitted or sent); when none is, it either leaves the
    Messages as they are or turns exactly the oldest pending Message, and
    no other row, to processing. *)
Theorem at_most_one_message_processing (s : State) (now : Z) :
  reachable s ->
  (processingCount s <= 1)%nat
  /\ (processingCount (processMessageQueue now s) <= 1)%nat
  /\ (forall p, getProcessingMessage s = Some p -> processMessageQueue now s = s)
  /\ (getProcessingMessage s = None ->
      messages (processMessageQueue now s) = messages s
      \/ exists l1 m l2,
           getNextPendingMessage s = Some m
           /\ messages s = (l1 ++ m :: l2)%list
           /\ Forall (fun x => status x <> pending) l1
           /\ status m = pending
           /\ messages (processMessageQueue now s)
              = (l1 ++ started m now :: l2)%list).
Proof.
  intros Hr. pose proof (reachable_wellFormed s Hr) as Hwf.
  destruct (evolves_processMessageQueue now s s (evolves_refl s) Hwf)
    as ((Hnd' & Hs' & _) & _ & _).
  destruct Hwf as (Hnd & Hs & _).
  split; [by apply singleFlight_count|].
  split; [by apply singleFlight_count|].
  split; [intros p; apply processMessageQueue_noop|].
  intros Hnone. unfold processMessageQueue. rewrite Hnone.
  destruct (getNextPendingMessage s) as [m|] eqn:Hn; [|by left].
  destruct (sandboxSocket s) as [ws|]; [|by left].
  right. destruct (getNextPendingMessage_split s m Hn) as (l1 & l2 & Hm & Hl1 & Hp).
  exists l1, m, l2. repeat split; try done.
  cbv zeta. fields. rewrite Hm. apply map_markProcessing_split. by rewrite <- Hm.
Qed.

Lemma stopExecution_messages now s p :
  getProcessingMessage s = Some p ->
  messages (stopExecution now s)
  = map (markCompletion (msg_id p) failed now) (messages s).
Proof.
  intros Hp. unfold stopExecution. rewrite Hp. cbv zeta. fields.
  by destruct (sandboxSocket s).
Qed.

Lemma stopExecution_effects now s p :
  getProcessingMessage s = Some p ->
  exists l,
    effects (stopExecution now s)
    = (effects s
       ++ Broadcast (sm_sandbox_event (syntheticExecutionComplete (msg_id p) now))
          :: NotifySlackBot (msg_id p) false
          :: Broadcast (sm_processing_status false) :: l)%list
    /\ (l = [] \/ exists ws, l = [Send ws cmd_stop]).
Proof.
  intros Hp. unfold stopExecution. rewrite Hp. cbv zeta. fields.
  destruct (sandboxSocket s) as [ws|]; fields; rewrite <- !app_assoc; simpl.
  - eexists. split; [reflexivity|]. right. by eexists.
  - eexists. split; [reflexivity|]. by left.
Qed.

(** A Message that has failed is not the one that is processing. *)
Lemma failed_not_processing s id q :
  wellFormed s -> statusOf id s = Some failed ->
  getProcessingMessage s = Some q -> msg_id q <> id.
Proof.
  intros (Hnd & _ & _) Hst Hq <-.
  apply getProcessingMessage_Some in Hq as [Hin Hproc].
  unfold statusOf in Hst.
  change (fun m0 => String.eqb (msg_id m0) (msg_id q)) with (hasId (msg_id q)) in Hst.
  rewrite (find_hasId_In _ q Hnd Hin) in Hst. simpl in Hst. congruence.
Qed.

(** The already-stopped branch of [processSandboxEvent]: a completion event
    for a Message that has failed stores its row, then runs the snapshot
    trigger, the activity refresh and the queue, and nothing else. *)
Lemma late_completion_branch now eventId late id s :
  wellFormed s -> statusOf id s = Some failed ->
  ev_type late = "execution_complete" -> ev_messageId late = Some id ->
  processSandboxEvent now eventId late s
  = processMessageQueue now
      (emit ScheduleInactivityCheck
         (emit (UpdateLastActivity now)
            (emit (TriggerSnapshot "execution_complete")
               (createEvent
                  (mkEventRow eventId "execution_complete" late (Some id) now) s)))).
Proof.
  intros Hwf Hst Ht Hid. unfold processSandboxEvent, processSandboxEvent_with.
  rewrite Ht, Hid.
  change (String.eqb "execution_complete" "heartbeat") with false.
  change (String.eqb "execution_complete" "execution_complete") with true.
  cbv iota zeta. unfold nullish.
  destruct (getProcessingMessage s) as [q|] eqn:Hq; [|done].
  destruct (String.eqb_spec (msg_id q) id) as [He|_]; [|done].
  by destruct (failed_not_processing s id q Hwf Hst Hq).
Qed.

(** C3: when [stopExecution] runs while the Message [p] is processing, [p]
    is failed and one execution-complete broadcast names it.  In every
    state reached afterwards [p] is still failed and that broadcast is
    still the only one.  A completion event of the sandbox for [p] that
    arrives in such a state takes the already-stopped branch: it stores its
    row and runs the snapshot trigger, the activity refresh, the inactivity
    check and [processMessageQueue]; it emits no sandbox-event broadcast
    and no callback notification, and the status of [p] stays failed. *)
Theorem stop_then_late_completion (s : State) (p : MessageRow) (now : Z) :
  reachable s ->
  getProcessingMessage s = Some p ->
  let id := msg_id p in
  let s1 := stopExecution now s in
  statusOf id s1 = Some failed
  /\ executionCompleteCount id (effects s1) = 1%nat
  /\ forall t, reaches s1 t ->
       statusOf id t = Some failed
       /\ executionCompleteCount id (effects t) = 1%nat
       /\ forall late eventId now',
            ev_type late = "execution_complete" ->
            ev_messageId late = Some id ->
            let t' := processSandboxEvent now' eventId late t in
            t' = processMessageQueue now'
                   (emit ScheduleInactivityCheck
                      (emit (UpdateLastActivity now')
                         (emit (TriggerSnapshot "execution_complete")
                            (createEvent
                               (mkEventRow eventId "execution_complete" late
                                  (Some id) now') t))))
            /\ (exists l,
                  effects t'
                  = (effects t ++ TriggerSnapshot "execution_complete"
                       :: UpdateLastActivity now' :: ScheduleInactivityCheck :: l)%list
                  /\ forallb (fun e => negb (isCompletionHandling e)) l = true)
            /\ statusOf id t' = Some failed
            /\ executionCompleteCount id (effects t') = 1%nat.
Proof.
  intros Hr Hp ID s1. subst ID.
  pose proof (reachable_wellFormed s Hr) as Hwf.
  destruct (evolves_stopExecution now s s (evolves_refl s) Hwf) as (Hwf1 & _ & _).
  fold s1 in Hwf1.
  assert (statusOf (msg_id p) s1 = Some failed) as Hfailed.
  { unfold statusOf, s1. rewrite (stopExecution_messages now s p Hp).
    change (fun m0 => String.eqb (msg_id m0) (msg_id p)) with (hasId (msg_id p)).
    rewrite find_hasId_markCompletion, String.eqb_refl.
    destruct Hwf as (Hnd & _ & _).
    apply getProcessingMessage_Some in Hp as [Hin _].
    by rewrite (find_hasId_In _ p Hnd Hin). }
  assert (executionCompleteCount (msg_id p) (effects s1) = 1%nat) as Hone.
  { assert (executionCompleteCount (msg_id p) (effects s) = 0%nat) as Hzero.
    { destruct Hwf as (Hnd & _ & Hc). destruct (Hc (msg_id p)) as [_ Hfin].
      destruct (executionCompleteCount (msg_id p) (effects s)); [done|].
      pose proof Hp as Hp'. apply getProcessingMessage_Some in Hp' as [Hin Hproc].
      unfold statusOf in Hfin.
      change (fun m0 => String.eqb (msg_id m0) (msg_id p)) with (hasId (msg_id p)) in Hfin.
      rewrite (find_hasId_In _ p Hnd Hin) in Hfin. simpl in Hfin.
      rewrite Hproc in Hfin. destruct Hfin as [Hf|Hf]; [lia| |]; discriminate. }
    destruct (stopExecution_effects now s p Hp) as (l & Heff & Hl).
    unfold s1. rewrite Heff, executionCompleteCount_app, Hzero.
    unfold executionCompleteCount. simpl.
    rewrite bool_decide_eq_true_2 by done. simpl.
    destruct Hl as [->|[ws ->]]; reflexivity. }
  assert (forall t, reaches s1 t ->
            wellFormed t /\ statusOf (msg_id p) t = Some failed
            /\ executionCompleteCount (msg_id p) (effects t) = 1%nat) as Hafter.
  { intros t Ht.
    destruct (evolves_reaches s1 t Ht Hwf1) as (Hwft & [l Hl] & Hkeep).
    split; [done|]. split; [rewrite Hkeep; [done|by right]|].
    destruct Hwft as (_ & _ & Hc). destruct (Hc (msg_id p)) as [Hle _].
    rewrite Hl, executionCompleteCount_app, Hone in *. lia. }
  split; [done|]. split; [done|].
  intros t Ht. destruct (Hafter t Ht) as (Hwft & Hst & Hcnt).
  split; [done|]. split; [done|].
  intros late eventId now' Htype Hid t'.
  assert (reaches s1 t') as Ht'
    by exact (reaches_step s1 t (FromSandbox late eventId now') Ht I).
  destruct (Hafter t' Ht') as (_ & Hst' & Hcnt').
  pose proof (late_completion_branch now' eventId late (msg_id p) t Hwft Hst Htype Hid) as Heq.
  split; [exact Heq|]. split; [|by split].
  unfold t'. rewrite Heq.
  destruct (processMessageQueue_effects now'
              (emit ScheduleInactivityCheck
                 (emit (UpdateLastActivity now')
                    (emit (TriggerSnapshot "execution_complete")
                       (createEvent
                          (mkEventRow eventId "execution_complete" late
                             (Some (msg_id p)) now') t))))) as (l & Hl & Hquiet).
  exists l. split; [|done]. rewrite Hl. fields. by rewrite <- !app_assoc.
Qed.

End WithModels.

Import Fixtures.

Lemma running_reachable : reachable running.
Proof.
  unfold running.
  apply reaches_step; [apply reaches_step; [apply reaches_refl | exact I]|].
  intros Hin. vm_compute in Hin. inversion Hin.
Defined.

Lemma at_most_one_message_processing_witness :
  reachable running
  /\ getProcessingMessage running <> None
  /\ (processingCount running <= 1)%nat
  /\ processMessageQueue 5 running = running.
Proof.
  destruct (at_most_one_message_processing running 5 running_reachable)
    as (Hcount & _ & Hnoop & _).
  assert (getProcessingMessage running
          = Some (mkMessageRow "m1" "p9" "hi" "web" None None None None processing 1
                    (Some 1) None)) as Hp by (vm_compute; reflexivity).
  split; [exact running_reachable|]. split; [rewrite Hp; discriminate|].
  split; [exact Hcount|]. exact (Hnoop _ Hp).
Defined.

Lemma stop_then_late_completion_witness :
  let p := mkMessageRow "m1" "p9" "hi" "web" None None None None processing 1
             (Some 1) None in
  reachable running
  /\ getProcessingMessage running = Some p
  /\ statusOf "m1" (stopExecution 9 running) = Some failed
  /\ executionCompleteCount "m1"
       (effects
          (processSandboxEvent 12 "e2"
             (event "execution_complete" (Some "m1") None)
             (stopExecution 9 running))) = 1%nat.
Proof.
  intros p.
  assert (getProcessingMessage running = Some p) as Hp by (vm_compute; reflexivity).
  destruct (stop_then_late_completion running p 9 running_reachable Hp)
    as (Hfailed & _ & Hlater).
  split; [exact running_reachable|]. split; [exact Hp|]. split; [exact Hfailed|].
  destruct (Hlater (stopExecution 9 running) (reaches_refl _)) as (_ & _ & Hlate).
  destruct (Hlate (event "execution_complete" (Some "m1") None) "e2" 12
              eq_refl eq_refl) as (_ & _ & _ & Hone).
  exact Hone.
Defined.

End QueueFacts.

(* ===================================================================== *)
(** ** The create-PR route                                                 *)
(* ===================================================================== *)

Module CreatePrFacts.
Import JsString Repository SandboxHandler CreatePr SandboxHandlerFacts.

Lemma findPrArtifact_count (l : list ArtifactRow) :
  findPrArtifact l = None <-> length (List.filter isPr l) = 0%nat.
Proof.
  unfold findPrArtifact. induction l as [|a l IH]; simpl; [done|].
  destruct (isPr a); simpl; [split; discriminate | exact IH].
Qed.

Lemma getExistingManualBranchArtifact_app (l l' : list ArtifactRow) (h : string) :
  getExistingManualBranchArtifact (l ++ l') h
  = match getExistingManualBranchArtifact l h with
    | Some x => Some x
    | None => getExistingManualBranchArtifact l' h
    end.
Proof.
  induction l as [|a l IH]; simpl; [done|].
  repeat case_match; try done; simplify_eq; by rewrite IH.
Qed.

Section WithCollaborators.
Context `{SourceControlProvider} `{BranchNaming}.
Variable env : Env.


(** The second check, after the push: with a PR artifact in store the
    request ends with 409 and stores no artifact. *)
Lemma afterPush_rejects_existing_pr b artifactId now s :
  findPrArtifact (artifacts s) <> None ->
  exists s1,
    afterPush env b PushSuccess artifactId now s = (Finished alreadyCreated, s1)
    /\ artifacts s1 = artifacts s.
Proof.
  intros Hpr. unfold afterPush, listArtifacts. fields.
  destruct (findPrArtifact (artifacts s)); [|done].
  eexists. split; [reflexivity|]. by fields.
Qed.

Lemma fallback_finished b arts artifactId now s :
  exists r s1,
    fallback b arts artifactId now s = (Finished r, s1)
    /\ prArtifactCount s1 = prArtifactCount s.
Proof.
  unfold fallback, buildManualPrFallbackResponse.
  destruct (getExistingManualBranchArtifact _ _); eexists _, _; (split; [reflexivity|]).
  - done.
  - unfold prArtifactCount. fields. rewrite List.filter_app. simpl.
    by rewrite app_nil_r.
Qed.

(** Only the step that follows [createPullRequest] stores a PR artifact,
    and the request is finished once it has. *)
Lemma resume_prArtifactCount a artifactId now t s t1 s1 :
  resume env a artifactId now t s = Some (t1, s1) ->
  prArtifactCount s1 = prArtifactCount s
  \/ (prArtifactCount s1 = S (prArtifactCount s)
      /\ (exists b auth req, t = AwaitCreatePullRequest b auth req)
      /\ exists r, t1 = Finished r).
Proof.
  unfold resume.
  assert (forall b arts t1 s0 s1,
            fallback b arts artifactId now s0 = (t1, s1) ->
            prArtifactCount s1 = prArtifactCount s0) as Hfb.
  { intros b arts t' s0 s' Hf.
    destruct (fallback_finished b arts artifactId now s0) as (r & s2 & Hr & Hc).
    congruence. }
  assert (forall b pushResult t1 s1,
            afterPush env b pushResult artifactId now s = (t1, s1) ->
            prArtifactCount s1 = prArtifactCount s) as Hpush.
  { intros b pushResult t' s' Hp. unfold afterPush in Hp.
    repeat case_match; simplify_eq; try done;
      match goal with
      | Hf : fallback _ _ _ _ _ = _ |- _ => apply Hfb in Hf; by rewrite Hf
      end. }
  destruct t as [st|st pushAuth|b w0|b arts|b arts rp|b auth req|r0];
    destruct a; try discriminate; try (destruct w0; discriminate).
  - intros [= <- <-]. by left.
  - unfold afterRepository, pushBranchToRemote_start.
    intros Hr. left. repeat case_match; by simplify_eq.
  - destruct w0 as [|pid nb].
    + intros Hp. left. apply (Hpush b PushSuccess t1 s1). congruence.
    + destruct (promises s !! pid ≫= pushBranchToRemote_finish) as [pr|]; [|done].
      intros Hp. left. apply (Hpush b pr t1 s1). congruence.
  - unfold afterRefresh. intros Hr. left.
    repeat case_match; simplify_eq; try done;
      match goal with
      | Hf : fallback _ _ _ _ _ = _ |- _ => apply Hfb in Hf; by rewrite Hf
      end.
  - unfold afterDecrypt. intros Hr. left.
    repeat case_match; simplify_eq; try done.
    match goal with
    | Hf : fallback _ _ _ _ _ = _ |- _ => by apply Hfb in Hf
    end.
  - unfold afterCreatePullRequest. intros Hr.
    destruct r as [e|prResult]; simplify_eq; [by left|].
    right. split; [|split; [by eexists _, _, _ | by eexists]].
    unfold prArtifactCount. fields. rewrite List.filter_app, length_app. simpl. lia.
Qed.

Lemma drive_finished n w artifactId now r s :
  drive env n w artifactId now (Finished r) s = (Finished r, s).
Proof. by destruct n. Qed.

(** A request that runs on its own never leaves a second PR artifact. *)
Lemma drive_single_pr n w artifactId now t s :
  ((forall r, t <> Finished r) -> prArtifactCount s = 0%nat) ->
  (prArtifactCount s <= 1)%nat ->
  (prArtifactCount (drive env n w artifactId now t s).2 <= 1)%nat.
Proof.
  revert t s. induction n as [|n IH]; intros t s Hzero Hle; [done|].
  assert ((exists r, t = Finished r) \/ forall r, t <> Finished r) as [[r ->]|Hnf]
    by (destruct t; try (by right); left; by eexists).
  { by rewrite drive_finished. }
  assert (prArtifactCount s = 0%nat) as Hnone by by apply Hzero.
  simpl.
  destruct (resume env (answer w t) artifactId now t s) as [[t1 s1]|] eqn:Hr;
    [|by destruct t].
  assert ((prArtifactCount (drive env n w artifactId now t1 s1).2 <= 1)%nat) as Hgoal.
  { destruct (resume_prArtifactCount _ _ _ _ _ _ _ Hr) as [Hsame|(Hinc & _ & r & ->)].
    - apply IH; rewrite Hsame; [done|lia].
    - rewrite drive_finished. simpl. lia. }
  by destruct t.
Qed.

Lemma handleCreatePR_single_pr w artifactId now body s :
  (prArtifactCount s <= 1)%nat ->
  (prArtifactCount (handleCreatePR env w artifactId now body s).2 <= 1)%nat.
Proof.
  intros Hle. unfold handleCreatePR. apply drive_single_pr; [|done].
  intros Hnf. apply findPrArtifact_count.
  unfold begin, listArtifacts in Hnf.
  destruct (getSession s); [|by destruct (Hnf (JsonError 404 "Session not found"))].
  destruct (getPromptingParticipantForPR s) as [r|p]; [by destruct (Hnf r)|].
  destruct (findPrArtifact (artifacts s)); [by destruct (Hnf alreadyCreated)|done].
Qed.

(** A request that is let run without interruption from its settled push
    to its response leaves at most one PR artifact: the second check sees
    whatever was stored while the push was awaited. *)
Lemma from_push_single_pr n w artifactId now b pw s :
  (prArtifactCount s <= 1)%nat ->
  (prArtifactCount (drive env n w artifactId now (AwaitPush b pw) s).2 <= 1)%nat.
Proof.
  intros Hle. destruct n as [|n]; [done|].
  cbn [drive answer].
  destruct (resume env PushSettled artifactId now (AwaitPush b pw) s)
    as [[t1 s1]|] eqn:Hr; [|exact Hle].
  destruct (resume_prArtifactCount _ _ _ _ _ _ _ Hr)
    as [Hsame|(_ & (b' & auth & req & Hb) & _)]; [|discriminate].
  apply drive_single_pr; [|lia].
  intros Hnf. rewrite Hsame.
  destruct (prArtifactCount s) as [|k] eqn:Hk; [done|]. exfalso.
  assert (findPrArtifact (artifacts s) <> None) as Hpr.
  { intros Hnone. apply findPrArtifact_count in Hnone.
    unfold prArtifactCount in Hk. lia. }
  assert (forall pr, afterPush env b pr artifactId now s = (t1, s1) -> False) as Hno.
  { intros [|e] Hp.
    - destruct (afterPush_rejects_existing_pr b artifactId now s Hpr) as (s2 & Heq & _).
      rewrite Heq in Hp. injection Hp as <- _. by eapply Hnf.
    - unfold afterPush in Hp. injection Hp as <- _. by eapply Hnf. }
  unfold resume in Hr. destruct pw as [|pid nb].
  - apply (Hno PushSuccess). congruence.
  - destruct (promises s !! pid ≫= pushBranchToRemote_finish) as [pr|]; [|done].
    apply (Hno pr). congruence.
Qed.

(** A request stores no artifact before its push has settled. *)
Lemma before_push_no_artifact a artifactId now t s t1 s1 :
  (forall b pw, t <> AwaitPush b pw) ->
  (forall b arts, t <> AwaitRefresh b arts) ->
  (forall b arts p, t <> AwaitDecrypt b arts p) ->
  (forall b auth req, t <> AwaitCreatePullRequest b auth req) ->
  resume env a artifactId now t s = Some (t1, s1) ->
  artifacts s1 = artifacts s.
Proof.
  intros Hp Hr Hd Hc. unfold resume.
  destruct t as [st|st pushAuth|b w0|b arts|b arts rp|b auth req|r0];
    try (by destruct (Hp b w0)); try (by destruct (Hr b arts));
    try (by destruct (Hd b arts rp)); try (by destruct (Hc b auth req));
    destruct a; try discriminate.
  - by intros [= <- <-].
  - unfold afterRepository, pushBranchToRemote_start.
    intros Heq. repeat case_match; by simplify_eq.
Qed.

(** Up to the push: with a session, a prompting participant, no PR
    artifact and no sandbox socket, a request whose provider calls succeed
    reaches its push, which is satisfied at once. *)
Lemma handleCreatePR_reaches_push w artifactId now body s session p token repoInfo :
  getSession s = Some session ->
  getPromptingParticipantForPR s = inr p ->
  sandboxSocket s = None ->
  findPrArtifact (artifacts s) = None ->
  w_pushAuth w = inr token -> w_repository w = inr repoInfo ->
  handleCreatePR env w artifactId now body s
  = drive env 4 w artifactId now
      (AwaitPush
         (mkPrBranches
            (mkPrStart body session p
               (default (session_id session)
                  (orElse (session_name session) (Some (session_id session))))
               (generateBranchName
                  (default (session_id session)
                     (orElse (session_name session) (Some (session_id session))))))
            token repoInfo (baseBranchOf body repoInfo)
            (headBranchOf body session repoInfo))
         PushSatisfied) s.
Proof.
  intros Hs Hp Hsock Hpr Hauth Hrepo.
  unfold handleCreatePR, begin, listArtifacts. rewrite Hs, Hp, Hpr.
  cbn [drive answer resume afterPushAuth]. rewrite Hauth.
  cbn [drive answer resume afterPushAuth]. rewrite Hrepo.
  unfold afterRepository, pushBranchToRemote_start. rewrite Hsock.
  reflexivity.
Qed.

Lemma drive_AwaitPush_satisfied n w artifactId now b s :
  drive env (S n) w artifactId now (AwaitPush b PushSatisfied) s
  = let '(t1, s1) := afterPush env b PushSuccess artifactId now s in
    drive env n w artifactId now t1 s1.
Proof. reflexivity. Qed.

Lemma drive_AwaitRefresh n w artifactId now b arts s :
  drive env (S n) w artifactId now (AwaitRefresh b arts) s
  = let '(t1, s1) := afterRefresh b arts (w_refresh w) artifactId now s in
    drive env n w artifactId now t1 s1.
Proof. reflexivity. Qed.

Lemma drive_AwaitDecrypt n w artifactId now b arts p s :
  drive env (S n) w artifactId now (AwaitDecrypt b arts p) s
  = let '(t1, s1) := afterDecrypt env b arts (w_decrypt w) artifactId now s in
    drive env n w artifactId now t1 s1.
Proof. reflexivity. Qed.

(** From the push on: without a usable credential the request ends in the
    manual fallback, computed from the artifacts read after the push; up to
    then no artifact is stored, nothing is emitted and the session row only
    gets its branch name. *)
Lemma drive_push_to_fallback n w artifactId now b s :
  findPrArtifact (artifacts s) = None ->
  noUsableCredential env (ps_participant (pb_start b)) now w ->
  exists s1,
    drive env (S (S (S n))) w artifactId now (AwaitPush b PushSatisfied) s
    = fallback b (artifacts s) artifactId now s1
    /\ artifacts s1 = artifacts s
    /\ effects s1 = effects s
    /\ sandboxSocket s1 = sandboxSocket s
    /\ messages s1 = messages s
    /\ session s1
       = session (updateSessionBranch (session_id (ps_session (pb_start b)))
                    (pb_headBranch b) s).
Proof.
  intros Hpr Hcred.
  set (s1 := updateSessionBranch _ _ s).
  assert (forall m s2,
            (let '(t1, s3) := fallback b (artifacts s) artifactId now s2 in
             drive env m w artifactId now t1 s3)
            = fallback b (artifacts s) artifactId now s2) as Hstop.
  { intros m s2. destruct (fallback_finished b (artifacts s) artifactId now s2)
      as (r & s3 & -> & _). apply drive_finished. }
  rewrite drive_AwaitPush_satisfied. unfold afterPush, listArtifacts. fold s1.
  change (artifacts s1) with (artifacts s). rewrite Hpr.
  destruct Hcred as [Hno|[(Htok & Hexp & Href)|(Htok & Hexp & Hdec)]].
  - rewrite Hno. cbn [negb]. exists s1. by rewrite Hstop.
  - rewrite Htok, Hexp. cbn [negb].
    destruct (truthyOpt (github_refresh_token_encrypted _)) eqn:Hrt; cbn [negb];
      [|exists s1; by rewrite Hstop].
    destruct (truthyOpt (GITHUB_CLIENT_ID env)) eqn:Hci; cbn [negb orb];
      [|exists s1; by rewrite Hstop].
    destruct (truthyOpt (GITHUB_CLIENT_SECRET env)) eqn:Hcs; cbn [negb orb];
      [|exists s1; by rewrite Hstop].
    rewrite drive_AwaitRefresh. unfold afterRefresh.
    destruct (w_refresh w) as [newTokens|] eqn:Hrf; [|exists s1; by rewrite Hstop].
    destruct Href as [?|[?|[?|[?|Hdec]]]]; try congruence.
    set (s2 := updateParticipantTokens _ _ _ _ s1).
    destruct (getParticipantById _ s2) as [refreshed|]; [|exists s2; by rewrite Hstop].
    destruct (truthyOpt (github_access_token_encrypted refreshed)); cbn [negb];
      [|exists s2; by rewrite Hstop].
    rewrite drive_AwaitDecrypt, Hdec. unfold afterDecrypt.
    exists s2. by rewrite Hstop.
  - rewrite Htok, Hexp. cbn [negb]. rewrite drive_AwaitDecrypt, Hdec.
    unfold afterDecrypt. exists s1. by rewrite Hstop.
Qed.

(** C6: for a session without sandbox socket and without PR artifact whose
    prompting user has no usable OAuth credential, create-PR answers with
    the manual fallback: the URL is the one the provider builds for the
    resolved head and base branch, and one artifact of type "branch" whose
    metadata has mode "manual_pr" and that head branch is stored.  A second
    create-PR call that resolves the same head branch answers with the
    manual fallback again, for the URL stored in that artifact, and stores
    no artifact. *)
Theorem manual_fallback_created_then_reused
  (w w' : World) (artifactId artifactId' : string) (now now' : Z)
  (body body' : CreatePrBody) (s : State) (session : SessionRow)
  (p : ParticipantRow) (token token' : string) (repoInfo repoInfo' : RepoInfo) :
  getSession s = Some session ->
  getPromptingParticipantForPR s = inr p ->
  sandboxSocket s = None ->
  findPrArtifact (artifacts s) = None ->
  w_pushAuth w = inr token -> w_repository w = inr repoInfo ->
  noUsableCredential env p now w ->
  let head := headBranchOf body session repoInfo in
  let base := baseBranchOf body repoInfo in
  let url := buildManualPullRequestUrl (repo_owner session) (repo_name session)
               head base in
  getExistingManualBranchArtifact (artifacts s) head = None ->
  exists s1,
    handleCreatePR env w artifactId now body s = (Finished (ManualPr url head base), s1)
    /\ artifacts s1
       = (artifacts s ++ [manualArtifact session head base artifactId now])%list
    /\ art_type (manualArtifact session head base artifactId now) = "branch"
    /\ field "mode" (manualMetadata head base url) = Some (JStr "manual_pr")
    /\ field "head" (manualMetadata head base url) = Some (JStr head)
    /\ field "createPrUrl" (manualMetadata head base url) = Some (JStr url)
    /\ forall session1 p1,
         getSession s1 = Some session1 ->
         getPromptingParticipantForPR s1 = inr p1 ->
         w_pushAuth w' = inr token' -> w_repository w' = inr repoInfo' ->
         noUsableCredential env p1 now' w' ->
         headBranchOf body' session1 repoInfo' = head ->
         exists url' s2,
           handleCreatePR env w' artifactId' now' body' s1
           = (Finished (ManualPr url' head (baseBranchOf body' repoInfo')), s2)
           /\ artifacts s2 = artifacts s1
           /\ (truthy url = true -> url' = url).
Proof.
  intros Hs Hp Hsock Hpr Hauth Hrepo Hcred head base url Hnone.
  rewrite (handleCreatePR_reaches_push w artifactId now body s session p token
             repoInfo Hs Hp Hsock Hpr Hauth Hrepo).
  match goal with
  | |- context [drive env 4 w artifactId now (AwaitPush ?b PushSatisfied) s] =>
      destruct (drive_push_to_fallback 1 w artifactId now b s Hpr Hcred)
        as (s0 & -> & Ha0 & He0 & Hk0 & _ & _)
  end.
  unfold fallback, buildManualPrFallbackResponse.
  cbn [pb_start pb_headBranch pb_baseBranch ps_session ps_participant].
  fold head base. fold url. rewrite Hnone.
  eexists. split; [reflexivity|].
  set (s1 := broadcast _ _).
  assert (artifacts s1
          = (artifacts s ++ [manualArtifact session head base artifactId now])%list)
    as Harts by (unfold s1; fields; by rewrite Ha0).
  split; [exact Harts|]. do 4 (split; [reflexivity|]).
  intros session1 p1 Hs1 Hp1 Hauth' Hrepo' Hcred' Hhead.
  assert (findPrArtifact (artifacts s1) = None) as Hpr1.
  { apply findPrArtifact_count. rewrite Harts, List.filter_app, length_app.
    apply findPrArtifact_count in Hpr. rewrite Hpr. reflexivity. }
  assert (sandboxSocket s1 = None) as Hsock1
    by (unfold s1; fields; by rewrite Hk0).
  rewrite (handleCreatePR_reaches_push w' artifactId' now' body' s1 session1 p1
             token' repoInfo' Hs1 Hp1 Hsock1 Hpr1 Hauth' Hrepo').
  match goal with
  | |- context [drive env 4 w' artifactId' now' (AwaitPush ?b PushSatisfied) s1] =>
      destruct (drive_push_to_fallback 1 w' artifactId' now' b s1 Hpr1 Hcred')
        as (s2 & -> & Ha2 & _)
  end.
  unfold fallback, buildManualPrFallbackResponse.
  cbn [pb_start pb_headBranch pb_baseBranch ps_session ps_participant].
  rewrite Hhead, Harts, getExistingManualBranchArtifact_app, Hnone.
  assert (getExistingManualBranchArtifact
            [manualArtifact session head base artifactId now] head
          = Some (manualArtifact session head base artifactId now,
                  manualMetadata head base url)) as ->.
  { unfold getExistingManualBranchArtifact, manualArtifact, manualMetadata,
      parseArtifactMetadata, isJsonString, field.
    cbn. by rewrite String.eqb_refl. }
  eexists _, _. split; [reflexivity|]. split; [by rewrite Ha2, Harts|].
  intros Hurl. unfold getCreatePrUrlFromManualArtifact, manualMetadata, field.
  cbn. fold url. by rewrite Hurl.
Qed.

End WithCollaborators.

Import Fixtures.

Lemma manual_fallback_created_then_reused_witness :
  let s := prompting "p1" in
  let url := "https://github.com/acme/widgets/pull/new/main...open-inspect/session-one" in
  getSession s = Some sampleSession
  /\ getPromptingParticipantForPR s = inr alice
  /\ sandboxSocket s = None
  /\ noUsableCredential sampleEnv alice 10 sampleWorld
  /\ exists s1 s2,
       handleCreatePR sampleEnv sampleWorld "a1" 10 (createPrBody None) s
       = (Finished (ManualPr url "open-inspect/session-one" "main"), s1)
       /\ length (artifacts s1) = 1%nat
       /\ handleCreatePR sampleEnv sampleWorld "a2" 20 (createPrBody None) s1
          = (Finished (ManualPr url "open-inspect/session-one" "main"), s2)
       /\ artifacts s2 = artifacts s1.
Proof.
  intros s url.
  assert (noUsableCredential sampleEnv alice 10 sampleWorld) as Hcred
    by (left; reflexivity).
  assert (noUsableCredential sampleEnv alice 20 sampleWorld) as Hcred'
    by (left; reflexivity).
  split; [reflexivity|]. split; [reflexivity|]. split; [reflexivity|].
  split; [exact Hcred|].
  destruct (manual_fallback_created_then_reused sampleEnv sampleWorld sampleWorld
              "a1" "a2" 10 20 (createPrBody None) (createPrBody None) s
              sampleSession alice "app-token" "app-token" sampleRepo sampleRepo
              eq_refl eq_refl eq_refl eq_refl eq_refl eq_refl Hcred eq_refl)
    as (s1 & Hfirst & Harts & _ & _ & _ & _ & Hsecond).
  assert (s1 = (handleCreatePR sampleEnv sampleWorld "a1" 10 (createPrBody None) s).2)
    as Hs1 by (by rewrite Hfirst).
  assert (getSession s1
          = Some (mkSessionRow "s1" (Some "session-one") "acme" "widgets"
                    (Some "open-inspect/session-one") None "model-a" None "active"))
    as Hsess by (rewrite Hs1; vm_compute; reflexivity).
  assert (getPromptingParticipantForPR s1 = inr alice) as Hpart
    by (rewrite Hs1; vm_compute; reflexivity).
  destruct (Hsecond _ alice Hsess Hpart eq_refl eq_refl Hcred' eq_refl)
    as (url' & s2 & Hrun & Hsame & Hurl).
  exists s1, s2. split; [exact Hfirst|].
  split; [rewrite Harts; reflexivity|].
  split; [|exact Hsame].
  rewrite Hrun, (Hurl eq_refl). reflexivity.
Defined.

(** C2 (as the code behaves): two create-PR requests for a session without
    PR artifact both pass the first check and, after their push, the second
    check; both then wait for [createPullRequest], and each stores an
    artifact of type "pr" when it resumes.  Two PR artifacts exist at the
    end and both requests were answered with a created pull request. *)
Theorem two_pr_artifacts_when_requests_interleave :
  let sys := sysRun sampleEnv (mkSystem (prompting "p2") []) race in
  prArtifactCount (prompting "p2") = 0%nat
  /\ prArtifactCount (sys_state sys) = 2%nat
  /\ sys_tasks sys
     = [ Finished (PrCreated 1 "https://github.com/acme/widgets/pull/1" "open");
         Finished (PrCreated 2 "https://github.com/acme/widgets/pull/2" "open") ].
Proof. vm_compute. repeat split; reflexivity. Qed.

End CreatePrFacts.

(* ===================================================================== *)
(** ** [Array.prototype.find] over a table that grows at its end           *)
(* ===================================================================== *)

Module FindFacts.

Lemma find_all_false {A} (f : A -> bool) (l : list A) :
  (forall x, In x l -> f x = false) -> find f l = None.
Proof.
  induction l as [|x l IH]; [done|]. intros Hall. cbn [find].
  rewrite (Hall x (or_introl eq_refl)). apply IH. intros y Hy. apply Hall. by right.
Qed.

Lemma find_app_none {A} (f : A -> bool) (l l' : list A) :
  find f l = None -> find f (l ++ l') = find f l'.
Proof.
  induction l as [|x l IH]; [done|]. cbn [app find].
  destruct (f x); [discriminate | apply IH].
Qed.

Lemma find_app_some {A} (f : A -> bool) (l l' : list A) (x : A) :
  find f l = Some x -> find f (l ++ l') = Some x.
Proof.
  induction l as [|y l IH]; [done|]. cbn [app find].
  destruct (f y); [done | apply IH].
Qed.

End FindFacts.

(* ===================================================================== *)
(** ** Secret keys and the repository secrets store                        *)
(* ===================================================================== *)

Module SecretsValidationFacts.
Import JsString Secrets SecretsValidation JsStringFacts SecretsFacts.

Lemma chars_toUpperCase (s : string) :
  chars (toUpperCase s) = map toUpperChar (chars s).
Proof. unfold toUpperCase. apply chars_ofChars. Qed.

Lemma length_chars (s : string) : length (chars s) = String.length s.
Proof. induction s as [|c s IH]; simpl; [done | by rewrite IH]. Qed.

Lemma toUpperChar_idemp (c : ascii) : toUpperChar (toUpperChar c) = toUpperChar c.
Proof. destruct c as [[] [] [] [] [] [] [] []]; reflexivity. Qed.

Lemma isKeyStart_toUpperChar (c : ascii) : isKeyStart (toUpperChar c) = isKeyStart c.
Proof. destruct c as [[] [] [] [] [] [] [] []]; reflexivity. Qed.

Lemma isKeyChar_toUpperChar (c : ascii) : isKeyChar (toUpperChar c) = isKeyChar c.
Proof. destruct c as [[] [] [] [] [] [] [] []]; reflexivity. Qed.

Lemma caseVariant_toUpperChar (c c' : ascii) :
  caseVariant c c' -> toUpperChar c = toUpperChar c'.
Proof.
  destruct 1 as [c|c Hc|c Hc]; [done| |];
    revert Hc; destruct c as [[] [] [] [] [] [] [] []]; vm_compute; congruence.
Qed.

Lemma toUpperCase_idemp (s : string) : toUpperCase (toUpperCase s) = toUpperCase s.
Proof.
  unfold toUpperCase at 1. rewrite chars_toUpperCase, map_map.
  unfold toUpperCase. f_equal. apply map_ext. intros c. apply toUpperChar_idemp.
Qed.

Lemma length_toUpperCase (s : string) :
  String.length (toUpperCase s) = String.length s.
Proof. by rewrite <- !length_chars, chars_toUpperCase, length_map. Qed.

Lemma truthy_length (s : string) : truthy s = negb (String.length s =? 0)%nat.
Proof. by destruct s. Qed.

Lemma matchesKeyPattern_toUpperCase (s : string) :
  matchesKeyPattern (toUpperCase s) = matchesKeyPattern s.
Proof.
  unfold matchesKeyPattern. rewrite chars_toUpperCase.
  destruct (chars s) as [|c r]; simpl; [done|].
  rewrite isKeyStart_toUpperChar. f_equal.
  induction r as [|d r IH]; simpl; [done|]. by rewrite isKeyChar_toUpperChar, IH.
Qed.

(** The three checks of [validateKey], as one condition. *)
Lemma validateKey_ok (key : string) :
  validateKey key = inr tt
  <-> key <> "" /\ Z.of_nat (String.length key) <= MAX_KEY_LENGTH
      /\ matchesKeyPattern key = true /\ isReserved (toUpperCase key) = false.
Proof.
  unfold validateKey. split.
  - destruct (truthy key) eqn:Ht; simpl; [|discriminate].
    destruct (MAX_KEY_LENGTH <? _) eqn:Hl; [discriminate|].
    destruct (matchesKeyPattern key); simpl; [|discriminate].
    destruct (isReserved _); [discriminate|]. intros _.
    apply Z.ltb_ge in Hl. repeat split; try done. by intros ->.
  - intros (Hne & Hl & -> & ->). rewrite (truthy_nonempty _ Hne). simpl.
    apply Z.ltb_ge in Hl. by rewrite Hl.
Qed.

(** X1: a key that [validateKey] accepts is still accepted once
    [normalizeKey] has upper-cased it, and normalizing twice changes
    nothing more: the order in which a caller normalizes and validates does
    not matter for an accepted key. *)
Theorem accepted_key_stays_accepted_when_normalized (key : string) :
  validateKey key = inr tt ->
  validateKey (normalizeKey key) = inr tt
  /\ normalizeKey (normalizeKey key) = normalizeKey key.
Proof.
  intros Hok. apply validateKey_ok in Hok as (Hne & Hl & Hp & Hr).
  unfold normalizeKey. split; [|apply toUpperCase_idemp].
  apply validateKey_ok. rewrite length_toUpperCase, matchesKeyPattern_toUpperCase,
    toUpperCase_idemp. repeat split; try done.
  intros He. apply Hne. destruct key; [done|]. discriminate He.
Qed.

Lemma Forall2_caseVariant_upper (l l' : list ascii) :
  Forall2 caseVariant l l' -> map toUpperChar l = map toUpperChar l'.
Proof.
  induction 1 as [|c c' l l' Hc Hl IH]; simpl; [done|].
  by rewrite IH, (caseVariant_toUpperChar _ _ Hc).
Qed.

Lemma toUpperCase_caseVariant (s s' : string) :
  Forall2 caseVariant (chars s) (chars s') -> toUpperCase s = toUpperCase s'.
Proof. intros Hv. unfold toUpperCase. f_equal. by apply Forall2_caseVariant_upper. Qed.

Lemma reserved_keys_shape :
  Forall (fun r => toUpperCase r = r /\ matchesKeyPattern r = true
                   /\ (String.length r <= 256)%nat /\ r <> "")
    RESERVED_KEYS.
Proof. repeat constructor; try reflexivity; try discriminate; vm_compute; discriminate. Qed.

(** X2: a reserved name is rejected as reserved in every spelling: a key
    whose letters differ from a reserved name only by case fails
    [validateKey] with the reserved-key error. *)
Theorem reserved_key_rejected_in_any_case (key r : string) :
  In r RESERVED_KEYS ->
  Forall2 caseVariant (chars key) (chars r) ->
  validateKey key = inl ("Key '" ++ key ++ "' is reserved").
Proof.
  intros Hin Hv.
  pose proof (proj1 (List.Forall_forall _ _) reserved_keys_shape r Hin)
    as (Hup & Hpat & Hlen & Hne).
  pose proof (toUpperCase_caseVariant _ _ Hv) as Hsame. rewrite Hup in Hsame.
  assert (String.length key = String.length r) as Hl.
  { rewrite <- !length_chars. by eapply Forall2_length. }
  unfold validateKey.
  assert (truthy key = true) as ->.
  { rewrite truthy_length, Hl. destruct r; [done|reflexivity]. }
  assert ((MAX_KEY_LENGTH <? Z.of_nat (String.length key)) = false) as ->.
  { apply Z.ltb_ge. unfold MAX_KEY_LENGTH. lia. }
  assert (matchesKeyPattern key = true) as ->.
  { rewrite <- matchesKeyPattern_toUpperCase, Hsame. exact Hpat. }
  simpl. rewrite Hsame.
  assert (isReserved r = true) as Hres.
  { unfold isReserved. apply existsb_exists. exists r. split; [done|].
    apply String.eqb_refl. }
  by rewrite Hres.
Qed.

Lemma reserved_key_rejected_in_any_case_witness :
  In "PATH" RESERVED_KEYS
  /\ Forall2 caseVariant (chars "Path") (chars "PATH")
  /\ validateKey "Path" = inl "Key 'Path' is reserved".
Proof.
  assert (In "PATH" RESERVED_KEYS) as Hin by (vm_compute; tauto).
  assert (Forall2 caseVariant (chars "Path") (chars "PATH")) as Hv.
  { change (chars "Path") with ["P"; "a"; "t"; "h"]%char.
    change (chars "PATH")
      with ["P"; toUpperChar "a"; toUpperChar "t"; toUpperChar "h"]%char.
    repeat constructor; by apply cv_upper. }
  split; [exact Hin|]. split; [exact Hv|].
  exact (reserved_key_rejected_in_any_case "Path" "PATH" Hin Hv).
Defined.

Lemma accepted_key_stays_accepted_when_normalized_witness :
  validateKey "api_Key" = inr tt
  /\ validateKey "API_KEY" = inr tt.
Proof.
  assert (validateKey "api_Key" = inr tt) as Hok by reflexivity.
  split; [exact Hok|].
  exact (proj1 (accepted_key_stays_accepted_when_normalized "api_Key" Hok)).
Defined.

End SecretsValidationFacts.

Module MergeSecretsFacts.
Import JsString Secrets SecretsValidation SecretsFacts.

Lemma utf8Length_nonneg (s : string) : 0 <= utf8Length s.
Proof. unfold utf8Length. lia. Qed.

Lemma sumBytes_insert_fresh (m : gmap string string) (k v : string) :
  m !! k = None -> sumBytes (<[k := v]> m) = sumBytes m + utf8Length v.
Proof.
  intros Hk. unfold sumBytes. rewrite map_fold_insert_L; [done| |done].
  intros; lia.
Qed.

Lemma sumBytes_insert (m : gmap string string) (k v : string) :
  sumBytes (<[k := v]> m) <= sumBytes m + utf8Length v.
Proof.
  destruct (m !! k) as [old|] eqn:Hk.
  - rewrite <- insert_delete_eq.
    rewrite sumBytes_insert_fresh by apply lookup_delete_eq.
    unfold sumBytes at 2. rewrite (map_fold_delete_L _ _ k old m); [|intros; lia|done].
    fold (sumBytes (delete k m)). pose proof (utf8Length_nonneg old). lia.
  - rewrite sumBytes_insert_fresh by done. lia.
Qed.

Lemma sumBytes_assignAll (r : SecretRecord) (m : gmap string string) :
  sumBytes (assignAll r m)
  <= sumBytes m + foldr (fun kv acc => utf8Length kv.2 + acc) 0 r.
Proof.
  revert m. induction r as [|[k v] r IH]; intros m; simpl; [lia|].
  unfold assignAll in *. simpl.
  etransitivity; [apply IH|]. pose proof (sumBytes_insert m (normalizeKey k) v). lia.
Qed.

(** X8: merging never inflates.  The total that [mergeSecrets] reports is
    at most the summed size of the values of both records, so two records
    whose values each stay within [MAX_TOTAL_VALUE_SIZE] are never over the
    default limit of the merge. *)
Theorem mergeSecrets_total_at_most_sum (global repo : SecretRecord)
  (maxCombinedBytes : option Z) :
  let bytes := foldr (fun kv acc => utf8Length kv.2 + acc) 0 in
  totalBytes (mergeSecrets global repo maxCombinedBytes) <= bytes global + bytes repo
  /\ (bytes global <= MAX_TOTAL_VALUE_SIZE -> bytes repo <= MAX_TOTAL_VALUE_SIZE ->
      exceedsLimit (mergeSecrets global repo None) = false).
Proof.
  intros bytes.
  assert (sumBytes (assignAll repo (assignAll global ∅)) <= bytes global + bytes repo)
    as Hle.
  { etransitivity; [apply sumBytes_assignAll|].
    pose proof (sumBytes_assignAll global ∅) as Hg.
    unfold sumBytes at 2 in Hg. rewrite map_fold_empty in Hg. fold bytes in Hg |- *. lia. }
  split; [exact Hle|].
  intros Hg Hr. unfold mergeSecrets. cbn [exceedsLimit default].
  apply Z.ltb_ge. unfold defaultMaxCombinedBytes, MAX_TOTAL_VALUE_SIZE in *. lia.
Qed.

Lemma mergeSecrets_total_at_most_sum_witness :
  totalBytes (mergeSecrets [("token", "abc")] [("TOKEN", "de")] None) <= 3 + 2
  /\ exceedsLimit (mergeSecrets [("token", "abc")] [("TOKEN", "de")] None) = false.
Proof.
  destruct (mergeSecrets_total_at_most_sum [("token", "abc")] [("TOKEN", "de")] None)
    as [Hle Hok].
  split; [exact Hle|]. apply Hok; vm_compute; discriminate.
Defined.

End MergeSecretsFacts.

Module RepoSecretsStoreFacts.
Import JsString Secrets SecretsValidation RepoSecretsStore JsStringFacts
  SecretsFacts SecretsValidationFacts.

(** *** The object [normalized] *)

Lemma assign_keys (key value : string) (o : list (string * string)) :
  (assign key value o).*1 = if bool_decide (key ∈ o.*1) then o.*1 else (o.*1 ++ [key])%list.
Proof.
  induction o as [|[k v] o IH]; [done|]. cbn [assign].
  destruct (String.eqb_spec k key) as [->|Hne]; rewrite !fmap_cons; cbn [fst].
  - rewrite bool_decide_eq_true_2; [done|]. left.
  - rewrite IH. destruct (decide (key ∈ o.*1)) as [Hin|Hnin].
    + rewrite !bool_decide_eq_true_2; [done| by right | done].
    + rewrite !bool_decide_eq_false_2; [done| |done].
      intros Hc. apply elem_of_cons in Hc as [->|Hc]; done.
Qed.

Lemma assign_NoDup (key value : string) (o : list (string * string)) :
  NoDup o.*1 -> NoDup (assign key value o).*1.
Proof.
  intros Hnd. rewrite assign_keys. case_bool_decide; [done|].
  apply NoDup_app. split; [done|]. split; [|apply NoDup_singleton].
  intros x Hx Hx'. apply list_elem_of_singleton in Hx' as ->. done.
Qed.

Lemma assign_to_map (key value : string) (o : list (string * string)) :
  (list_to_map (assign key value o) : gmap string string)
  = <[key := value]> (list_to_map o).
Proof.
  induction o as [|[k v] o IH]; simpl; [done|].
  destruct (String.eqb_spec k key) as [->|Hne]; simpl.
  - by rewrite insert_insert_eq.
  - rewrite IH. by apply insert_insert_ne.
Qed.

(** *** The first loop *)

Lemma normalizeEntries_spec (secrets : SecretRecord)
  (o : list (string * string)) (total : Z) o' total' :
  normalizeEntries secrets o total = inr (o', total') ->
  NoDup o.*1 ->
  NoDup o'.*1
  /\ (list_to_map o' : gmap string string) = assignAll secrets (list_to_map o)
  /\ (forall k, k ∈ o'.*1 <->
                k ∈ o.*1 \/ exists raw v, (raw, v) ∈ secrets /\ normalizeKey raw = k)
  /\ (forall raw v, (raw, v) ∈ secrets ->
        validateKey (normalizeKey raw) = inr tt /\ utf8Length v <= MAX_VALUE_SIZE)
  /\ total' = total + foldr (fun kv acc => utf8Length kv.2 + acc) 0 secrets.
Proof.
  revert o total. induction secrets as [|[raw v] rest IH]; intros o total; simpl.
  - intros [= <- <-] Hnd. repeat split; try done.
    + by left.
    + intros [Hk|(r & w & Hin & _)]; [done|]. by apply elem_of_nil in Hin.
    + by apply elem_of_nil in H.
    + by apply elem_of_nil in H.
    + lia.
  - destruct (validateKey (normalizeKey raw)) as [e|[]] eqn:Hk; [discriminate|].
    unfold validateValue.
    destruct (MAX_VALUE_SIZE <? utf8Length v) eqn:Hv; [discriminate|].
    apply Z.ltb_ge in Hv.
    intros Hrec Hnd.
    destruct (IH _ _ Hrec (assign_NoDup _ _ _ Hnd)) as (Hnd' & Hmap & Hdom & Hval & Htot).
    split; [done|]. split.
    { rewrite Hmap, assign_to_map. reflexivity. }
    split.
    { intros k. rewrite Hdom, assign_keys. split.
      - intros [Hk'|(r & w & Hin & Hr)].
        + case_bool_decide; [by left|].
          apply elem_of_app in Hk' as [Hk'|Hk']; [by left|].
          apply list_elem_of_singleton in Hk' as ->.
          right. exists raw, v. split; [left | done].
        + right. exists r, w. split; [by right | done].
      - intros [Hk'|(r & w & Hin & Hr)].
        + left. case_bool_decide; [done|]. apply elem_of_app. by left.
        + apply elem_of_cons in Hin as [[= -> ->]|Hin].
          * left. case_bool_decide; [by subst|].
            apply elem_of_app. right. subst. by apply list_elem_of_singleton.
          * right. eauto. }
    split.
    { intros r w Hin. apply elem_of_cons in Hin as [[= -> ->]|Hin]; [done|].
      by apply Hval. }
    lia.
Qed.

(** *** The statements *)

Section WithCrypto.
Context `{Crypto}.
Variable encryptionKey : string.

Lemma prepareStatements_spec repoId owner name now (existing : gset string)
  entries c u sts c' u' sts' :
  prepareStatements encryptionKey repoId owner name now existing entries c u sts
  = Some (c', u', sts') ->
  exists new,
    sts' = (sts ++ new)%list
    /\ Forall2 (statementFor encryptionKey repoId owner name now) entries new
    /\ c' = (c + length (List.filter (fun k => negb (bool_decide (k ∈ existing)))
                           entries.*1))%nat
    /\ u' = (u + length (List.filter (fun k => bool_decide (k ∈ existing))
                           entries.*1))%nat.
Proof.
  revert c u sts. induction entries as [|[k v] rest IH]; intros c u sts;
    cbn [prepareStatements].
  - intros [= <- <- <-]. exists []. rewrite app_nil_r.
    repeat split; [constructor|simpl; lia|simpl; lia].
  - destruct (encryptToken v encryptionKey) as [enc|] eqn:He; [|discriminate].
    intros Hrec. destruct (IH _ _ _ Hrec) as (new & -> & Hall & -> & ->).
    exists (mkUpsert repoId owner name k enc now :: new).
    split; [by rewrite <- app_assoc|]. split.
    { constructor; [|done]. exists enc. by split. }
    rewrite fmap_cons. cbn [fst List.filter].
    destruct (bool_decide (k ∈ existing)); cbn [negb length]; lia.

Qed.

(** *** The table *)

Lemma batch_snoc (sts : list Upsert) (u : Upsert) (t : Table) :
  batch (sts ++ [u])%list t = runUpsert (batch sts t) u.
Proof. unfold batch. by rewrite fold_left_app. Qed.

Lemma batch_cons (u : Upsert) (sts : list Upsert) (t : Table) :
  batch (u :: sts) t = batch sts (runUpsert t u).
Proof. reflexivity. Qed.

Lemma runUpsert_lookup_eq (t : Table) (u : Upsert) :
  runUpsert t u !! (up_repo_id u, up_key u)
  = Some (mkSecretRow (up_repo_owner u) (up_repo_name u) (up_encrypted_value u)
            (match t !! (up_repo_id u, up_key u) with
             | Some old => rs_created_at old
             | None => up_now u
             end) (up_now u)).
Proof. unfold runUpsert. apply lookup_insert_eq. Qed.

Lemma runUpsert_lookup_ne (t : Table) (u : Upsert) (rk : Z * string) :
  rk <> (up_repo_id u, up_key u) -> runUpsert t u !! rk = t !! rk.
Proof. intros Hne. unfold runUpsert. by apply lookup_insert_ne. Qed.

Lemma batch_other repoId owner name now entries (sts : list Upsert) (t : Table)
  (r : Z) (k : string) :
  Forall2 (statementFor encryptionKey repoId owner name now) entries sts ->
  r <> repoId \/ k ∉ entries.*1 ->
  batch sts t !! (r, k) = t !! (r, k).
Proof.
  intros Hall. revert t. induction Hall as [|kv u entries sts (enc & He & ->) _ IH];
    intros t Hor; [done|].
  rewrite batch_cons, IH.
  - apply runUpsert_lookup_ne. cbn [up_repo_id up_key].
    intros [= -> ->]. destruct Hor as [Hr|Hk]; [done|]. apply Hk.
    rewrite fmap_cons. left.
  - destruct Hor as [Hr|Hk]; [by left|]. right. intros Hin. apply Hk.
    rewrite fmap_cons. by right.
Qed.

Lemma batch_written repoId owner name now entries (sts : list Upsert) (t : Table)
  (k v : string) :
  Forall2 (statementFor encryptionKey repoId owner name now) entries sts ->
  NoDup entries.*1 ->
  (k, v) ∈ entries ->
  exists encrypted,
    encryptToken v encryptionKey = Some encrypted
    /\ batch sts t !! (repoId, k)
       = Some (mkSecretRow owner name encrypted
                 (match t !! (repoId, k) with
                  | Some old => rs_created_at old
                  | None => now
                  end) now).
Proof.
  intros Hall. revert t. induction Hall as [|kv u entries sts (enc & He & ->) Hrest IH];
    intros t Hnd Hin; [by apply elem_of_nil in Hin|].
  rewrite fmap_cons in Hnd. apply NoDup_cons in Hnd as [Hfresh Hnd].
  rewrite batch_cons.
  apply elem_of_cons in Hin as [<-|Hin].
  - exists enc. split; [done|]. cbn [fst].
    rewrite (batch_other repoId owner name now entries sts _ repoId k Hrest)
      by (by right).
    apply (runUpsert_lookup_eq t (mkUpsert repoId owner name k enc now)).
  - destruct (IH (runUpsert t (mkUpsert repoId owner name kv.1 enc now)) Hnd Hin)
      as (enc' & He' & Hrow).
    exists enc'. split; [done|]. rewrite Hrow.
    rewrite runUpsert_lookup_ne; [done|]. cbn [up_repo_id up_key].
    intros [= Hk]. apply Hfresh. rewrite <- Hk.
    apply list_elem_of_fmap. exists (k, v). by split.
Qed.

Lemma selectRows_elem (repoId : Z) (t : Table) (k : string) (row : SecretRow) :
  (k, row) ∈ selectRows repoId t <-> t !! (repoId, k) = Some row.
Proof.
  unfold selectRows. rewrite list_elem_of_omap. split.
  - intros ([[r k'] row'] & Hin & Hf). simpl in Hf.
    destruct (Z.eqb_spec r repoId) as [->|]; [|discriminate].
    injection Hf as -> ->. by apply elem_of_map_to_list in Hin.
  - intros Hl. exists ((repoId, k), row). split; [by apply elem_of_map_to_list|].
    simpl. by rewrite Z.eqb_refl.
Qed.

Lemma selectKeys_elem (repoId : Z) (t : Table) (k : string) :
  k ∈ selectKeys repoId t <-> is_Some (t !! (repoId, k)).
Proof.
  unfold selectKeys. rewrite list_elem_of_fmap. split.
  - intros ([k' row] & -> & Hin). apply selectRows_elem in Hin. by eexists.
  - intros [row Hrow]. exists (k, row). split; [done|]. by apply selectRows_elem.
Qed.

Lemma selected_keys_NoDup (repoId : Z) (l : list (Z * string * SecretRow)) :
  NoDup l.*1 ->
  NoDup (omap (fun kv : Z * string * SecretRow =>
                 if kv.1.1 =? repoId then Some (kv.1.2, kv.2) else None) l).*1.
Proof.
  induction l as [|[[r k] row] l IH]; intros Hnd; [constructor|].
  rewrite fmap_cons in Hnd. apply NoDup_cons in Hnd as [Hfresh Hnd].
  cbn [omap list_omap fst snd].
  destruct (Z.eqb_spec r repoId) as [->|]; [|by apply IH].
  rewrite fmap_cons. apply NoDup_cons. split; [|by apply IH].
  intros Hin. apply list_elem_of_fmap in Hin as ([k' row'] & Hk & Hin).
  cbn [fst] in Hk. subst k'.
  apply list_elem_of_omap in Hin as ([[r' k'] row''] & Hin & Hf). cbn [fst snd] in Hf.
  destruct (Z.eqb_spec r' repoId) as [->|]; [|discriminate].
  injection Hf as -> ->. apply Hfresh.
  apply list_elem_of_fmap. by exists ((repoId, k), row').
Qed.

Lemma selectKeys_NoDup (repoId : Z) (t : Table) : NoDup (selectKeys repoId t).
Proof. apply selected_keys_NoDup, NoDup_fst_map_to_list. Qed.

(** *** [setSecrets] *)

Lemma setSecrets_prepare_inv repoId repoOwner repoName secrets now existingKeys
  res sts :
  setSecrets_prepare encryptionKey repoId repoOwner repoName secrets now existingKeys
  = inr (res, sts) ->
  exists normalized total,
    normalizeEntries secrets [] 0 = inr (normalized, total)
    /\ total <= MAX_TOTAL_VALUE_SIZE
    /\ keys res = normalized.*1
    /\ (size (list_to_set existingKeys : gset string)
        + length (List.filter
                    (fun k => negb (bool_decide
                                      (k ∈ (list_to_set existingKeys : gset string))))
                    normalized.*1)
        <= MAX_SECRETS_PER_SCOPE)%nat
    /\ Forall2 (statementFor encryptionKey repoId (toLowerCase repoOwner) (toLowerCase repoName) now)
         normalized sts
    /\ created res
       = length (List.filter
                   (fun k => negb (bool_decide
                                     (k ∈ (list_to_set existingKeys : gset string))))
                   normalized.*1)
    /\ updated res
       = length (List.filter
                   (fun k => bool_decide (k ∈ (list_to_set existingKeys : gset string)))
                   normalized.*1).
Proof.
  unfold setSecrets_prepare.
  destruct (normalizeEntries secrets [] 0) as [e|[normalized total]] eqn:Hn;
    [discriminate|].
  destruct (MAX_TOTAL_VALUE_SIZE <? total) eqn:Ht; [discriminate|].
  apply Z.ltb_ge in Ht.
  destruct (_ <? _)%nat eqn:Hlim; [discriminate|].
  apply Nat.ltb_ge in Hlim.
  destruct (prepareStatements _ _ _ _ _ _ _ _ _ _) as [[[c u] st]|] eqn:Hp;
    [|discriminate].
  intros [= <- <-]. exists normalized, total.
  destruct (prepareStatements_spec _ _ _ _ _ _ _ _ _ _ _ _ Hp)
    as (new & -> & Hall & -> & ->).
  repeat split; try done.
Qed.

Lemma filter_split_length {A} (f : A -> bool) (l : list A) :
  (length (List.filter (fun x => negb (f x)) l) + length (List.filter f l))%nat
  = length l.
Proof. induction l as [|x l IH]; simpl; [done|]. destruct (f x); simpl; lia. Qed.

(** X3: what a successful [setSecrets] reports.  The keys it returns are
    the upper-cased keys of the request, each once; every one of them
    passes [validateKey] and is its own normal form; [created] counts the
    keys the key query did not list, [updated] the others, and one
    statement is prepared per key. *)
Theorem setSecrets_reports_normalized_keys repoId repoOwner repoName
  (secrets : SecretRecord) now existingKeys res sts :
  setSecrets_prepare encryptionKey repoId repoOwner repoName secrets now existingKeys
  = inr (res, sts) ->
  NoDup (keys res)
  /\ (forall k, k ∈ keys res
                <-> exists raw v, (raw, v) ∈ secrets /\ toUpperCase raw = k)
  /\ (forall k, k ∈ keys res -> validateKey k = inr tt /\ normalizeKey k = k)
  /\ created res = length (List.filter (fun k => negb (bool_decide (k ∈ existingKeys)))
                             (keys res))
  /\ (created res + updated res)%nat = length (keys res)
  /\ up_key <$> sts = keys res.
Proof.
  intros Hs.
  destruct (setSecrets_prepare_inv _ _ _ _ _ _ _ _ Hs)
    as (normalized & total & Hn & _ & Hk & _ & Hall & Hc & Hu).
  destruct (normalizeEntries_spec _ _ _ _ _ Hn (NoDup_nil_2 : NoDup ([] : list (string * string)).*1))
    as (Hnd & _ & Hdom & Hval & _).
  rewrite Hk. split; [done|]. split.
  { intros k. rewrite Hdom. split.
    - intros [Hin|?]; [by apply elem_of_nil in Hin | done].
    - by right. }
  split.
  { intros k Hin. apply Hdom in Hin as [Hin|(raw & v & Hin & <-)];
      [by apply elem_of_nil in Hin|].
    split; [by apply (Hval raw v)|]. unfold normalizeKey. apply toUpperCase_idemp. }
  split.
  { rewrite Hc. f_equal. apply filter_ext_in_iff. intros k _. do 2 f_equal.
    apply bool_decide_ext. apply elem_of_list_to_set. }
  split.
  { rewrite Hc, Hu. apply filter_split_length. }
  clear -Hall. induction Hall as [|kv u l l' (enc & _ & ->) _ IH]; [done|].
  rewrite !fmap_cons, IH. reflexivity.
Qed.

(** X4: what the batch of a successful [setSecrets] writes, whatever the
    table holds when it runs.  A row of another repository, and a row of
    this repository under a key that is not among the returned keys, is
    left as it is.  Under each returned key there is afterwards one row:
    it holds the encryption of the value the request assigns last to that
    key, the lower-cased owner and name, the update time [now], and the
    creation time of the row it replaces, or [now] if there was none. *)
Theorem setSecrets_writes_its_keys_only repoId repoOwner repoName
  (secrets : SecretRecord) now existingKeys (res : SetSecretsResult)
  (sts : list Upsert) (t : Table) :
  setSecrets_prepare encryptionKey repoId repoOwner repoName secrets now existingKeys
  = inr (res, sts) ->
  (forall r k, r <> repoId \/ k ∉ keys res -> batch sts t !! (r, k) = t !! (r, k))
  /\ (forall k, k ∈ keys res ->
        exists value encrypted,
          assignAll secrets ∅ !! k = Some value
          /\ encryptToken value encryptionKey = Some encrypted
          /\ batch sts t !! (repoId, k)
             = Some (mkSecretRow (toLowerCase repoOwner) (toLowerCase repoName)
                       encrypted
                       (match t !! (repoId, k) with
                        | Some old => rs_created_at old
                        | None => now
                        end) now)).
Proof.
  intros Hs.
  destruct (setSecrets_prepare_inv _ _ _ _ _ _ _ _ Hs)
    as (normalized & total & Hn & _ & Hk & _ & Hall & _ & _).
  destruct (normalizeEntries_spec _ _ _ _ _ Hn (NoDup_nil_2 : NoDup ([] : list (string * string)).*1))
    as (Hnd & Hmap & _ & _ & _).
  rewrite Hk. split.
  - intros r k Hor. by eapply batch_other.
  - intros k Hin. apply list_elem_of_fmap in Hin as ([k' v] & -> & Hin). cbn [fst].
    destruct (batch_written _ _ _ _ _ _ t _ _ Hall Hnd Hin) as (enc & He & Hrow).
    exists v, enc. split; [|by split].
    change (list_to_map [] : gmap string string) with (∅ : gmap string string) in Hmap.
    rewrite <- Hmap. by apply elem_of_list_to_map.
Qed.

Lemma batch_selectKeys repoId repoOwner repoName secrets now existingKeys
  (res : SetSecretsResult) (sts : list Upsert) (t : Table) (k : string) :
  setSecrets_prepare encryptionKey repoId repoOwner repoName secrets now existingKeys
  = inr (res, sts) ->
  k ∈ selectKeys repoId (batch sts t) <-> k ∈ keys res \/ k ∈ selectKeys repoId t.
Proof.
  intros Hs. destruct (setSecrets_writes_its_keys_only _ _ _ _ _ _ _ _ t Hs)
    as [Hother Hwritten].
  rewrite !selectKeys_elem. destruct (decide (k ∈ keys res)) as [Hin|Hnin].
  - destruct (Hwritten k Hin) as (v & enc & _ & _ & ->). split; [by left | by eexists].
  - rewrite Hother by (by right). split; [by right|]. by intros [?|?].
Qed.

(** X5: the scope limit.  When no other writer comes between the key query
    and the batch, a repository never holds more than 50 secrets after a
    successful [setSecrets], whatever the table held before. *)
Theorem setSecrets_keeps_scope_limit repoId repoOwner repoName
  (secrets : SecretRecord) now (res : SetSecretsResult) (t t' : Table) :
  setSecrets encryptionKey repoId repoOwner repoName secrets now t = inr (res, t') ->
  (length (selectKeys repoId t') <= MAX_SECRETS_PER_SCOPE)%nat.
Proof.
  unfold setSecrets.
  destruct (setSecrets_prepare _ _ _ _ _ _ _) as [e|[r sts]] eqn:Hs; [discriminate|].
  intros [= -> <-].
  destruct (setSecrets_prepare_inv _ _ _ _ _ _ _ _ Hs)
    as (normalized & total & Hn & _ & Hk & Hlim & _ & _ & _).
  destruct (normalizeEntries_spec _ _ _ _ _ Hn (NoDup_nil_2 : NoDup ([] : list (string * string)).*1))
    as (Hnd & _ & _ & _ & _).
  set (E := list_to_set (selectKeys repoId t) : gset string) in *.
  set (new := List.filter (fun k => negb (bool_decide (k ∈ E))) normalized.*1) in *.
  assert (list_to_set (selectKeys repoId (batch sts t)) = E ∪ list_to_set new) as Hset.
  { apply set_eq. intros k. rewrite elem_of_union, !elem_of_list_to_set.
    rewrite (batch_selectKeys _ _ _ _ _ _ _ _ t k Hs), Hk.
    assert (k ∈ new <-> k ∈ normalized.*1 /\ k ∉ selectKeys repoId t) as Hnew.
    { unfold new. rewrite list_elem_of_In, filter_In, <- list_elem_of_In.
      rewrite negb_true_iff, bool_decide_eq_false. unfold E.
      by rewrite elem_of_list_to_set. }
    rewrite Hnew. unfold E. rewrite elem_of_list_to_set.
    destruct (decide (k ∈ selectKeys repoId t)); tauto. }
  assert (NoDup new) as Hndnew.
  { unfold new. apply NoDup_ListNoDup, List.NoDup_filter, NoDup_ListNoDup, Hnd. }
  rewrite <- (size_list_to_set (C := gset string)) by apply selectKeys_NoDup.
  rewrite Hset, size_union.
  - rewrite (size_list_to_set new) by done. exact Hlim.
  - intros k Hk1 Hk2. apply elem_of_list_to_set in Hk2.
    unfold new in Hk2. apply list_elem_of_In, filter_In in Hk2 as [_ Hk2].
    apply negb_true_iff, bool_decide_eq_false in Hk2. done.
Qed.

(** *** [getDecryptedSecrets] and [deleteSecret] *)

Lemma decryptRows_lookup (rows : list (string * SecretRow))
  (acc m : gmap string string) :
  NoDup rows.*1 ->
  decryptRows encryptionKey rows acc = inr m ->
  forall k,
    m !! k = match (list_to_map rows : gmap string SecretRow) !! k with
             | Some row => decryptToken (rs_encrypted_value row) encryptionKey
             | None => acc !! k
             end.
Proof.
  revert acc. induction rows as [|[k0 row0] rows IH]; intros acc Hnd; cbn [decryptRows].
  - intros [= <-] k. by rewrite list_to_map_nil, lookup_empty.
  - rewrite fmap_cons in Hnd. apply NoDup_cons in Hnd as [Hfresh Hnd].
    destruct (decryptToken (rs_encrypted_value row0) encryptionKey) as [v|] eqn:Hd;
      [|discriminate].
    intros Hrec k. rewrite (IH _ Hnd Hrec k). rewrite list_to_map_cons.
    destruct (decide (k = k0)) as [->|Hne].
    + rewrite lookup_insert_eq.
      rewrite (proj1 (not_elem_of_list_to_map (M := gmap string) rows k0) Hfresh).
      by rewrite lookup_insert_eq.
    + rewrite !lookup_insert_ne by done. reflexivity.
Qed.

Lemma decryptRows_total (rows : list (string * SecretRow)) (acc : gmap string string) :
  (forall k row, (k, row) ∈ rows ->
     is_Some (decryptToken (rs_encrypted_value row) encryptionKey)) ->
  exists m, decryptRows encryptionKey rows acc = inr m.
Proof.
  revert acc. induction rows as [|[k0 row0] rows IH]; intros acc Hall; cbn [decryptRows].
  - by eexists.
  - destruct (Hall k0 row0) as [v ->]; [left|].
    apply IH. intros k row Hin. apply (Hall k row). by right.
Qed.

Lemma decryptRows_fails (rows : list (string * SecretRow)) (acc m : gmap string string) :
  decryptRows encryptionKey rows acc = inr m ->
  forall k row, (k, row) ∈ rows ->
    is_Some (decryptToken (rs_encrypted_value row) encryptionKey).
Proof.
  revert acc. induction rows as [|[k0 row0] rows IH]; intros acc; cbn [decryptRows].
  - intros _ k row Hin. by apply elem_of_nil in Hin.
  - destruct (decryptToken (rs_encrypted_value row0) encryptionKey) as [v|] eqn:Hd;
      [|discriminate].
    intros Hrec k row Hin. apply elem_of_cons in Hin as [[= -> ->]|Hin].
    + by eexists.
    + by eapply IH.
Qed.

Lemma selectRows_NoDup (repoId : Z) (t : Table) : NoDup (selectRows repoId t).*1.
Proof. apply selectKeys_NoDup. Qed.

Lemma selectRows_to_map (repoId : Z) (t : Table) (k : string) :
  (list_to_map (selectRows repoId t) : gmap string SecretRow) !! k = t !! (repoId, k).
Proof.
  destruct (t !! (repoId, k)) as [row|] eqn:Hrow.
  - apply elem_of_list_to_map; [apply selectRows_NoDup|]. by apply selectRows_elem.
  - apply not_elem_of_list_to_map. intros Hin.
    change ((selectRows repoId t).*1) with (selectKeys repoId t) in Hin.
    apply selectKeys_elem in Hin as [row' Hrow']. congruence.
Qed.

(** The record [getDecryptedSecrets] returns: under each key of the
    repository, the decryption of the stored value. *)
Lemma getDecryptedSecrets_lookup (repoId : Z) (t : Table) (m : gmap string string) :
  getDecryptedSecrets encryptionKey repoId t = inr m ->
  forall k,
    m !! k = t !! (repoId, k)
             ≫= fun row => decryptToken (rs_encrypted_value row) encryptionKey.
Proof.
  intros Hg k. unfold getDecryptedSecrets in Hg.
  rewrite (decryptRows_lookup _ _ _ (selectRows_NoDup repoId t) Hg k).
  rewrite selectRows_to_map. destruct (t !! (repoId, k)); [done|].
  simpl. apply lookup_empty.
Qed.

(** X6: storing then reading.  With a cipher whose [decryptToken] undoes
    [encryptToken], and a repository whose stored secrets could be read
    before, reading after a successful [setSecrets] succeeds and returns
    the record read before, overridden by the secrets of the request under
    their upper-cased keys. *)
Theorem setSecrets_then_getDecryptedSecrets repoId repoOwner repoName
  (secrets : SecretRecord) now (res : SetSecretsResult) (t t' : Table)
  (before : gmap string string) :
  (forall value encrypted,
     encryptToken value encryptionKey = Some encrypted ->
     decryptToken encrypted encryptionKey = Some value) ->
  getDecryptedSecrets encryptionKey repoId t = inr before ->
  setSecrets encryptionKey repoId repoOwner repoName secrets now t = inr (res, t') ->
  getDecryptedSecrets encryptionKey repoId t' = inr (assignAll secrets ∅ ∪ before).
Proof.
  intros Hlaw Hbefore. unfold setSecrets.
  destruct (setSecrets_prepare _ _ _ _ _ _ _) as [e|[r sts]] eqn:Hs; [discriminate|].
  intros [= -> <-].
  destruct (setSecrets_writes_its_keys_only _ _ _ _ _ _ _ _ t Hs) as [Hother Hwritten].
  destruct (setSecrets_reports_normalized_keys _ _ _ _ _ _ _ _ Hs)
    as (_ & Hdom & _ & _ & _ & _).
  assert (forall k, k ∉ keys res -> assignAll secrets ∅ !! k = None) as Hnone.
  { intros k Hk. destruct (assignAll secrets ∅ !! k) as [v|] eqn:Hv; [|done].
    destruct Hk. apply Hdom.
    destruct (assignAll_lookup _ _ _ _ Hv) as [(raw & Hin & Hraw)|[_ He]].
    - by exists raw, v.
    - by rewrite lookup_empty in He. }
  destruct (decryptRows_total (selectRows repoId (batch sts t)) ∅) as [m Hm].
  { intros k row Hin. apply selectRows_elem in Hin.
    destruct (decide (k ∈ keys res)) as [Hk|Hk].
    - destruct (Hwritten k Hk) as (v & enc & _ & He & Hrow).
      rewrite Hrow in Hin. injection Hin as <-. cbn [rs_encrypted_value].
      rewrite (Hlaw _ _ He). by eexists.
    - rewrite Hother in Hin by (by right).
      apply (decryptRows_fails _ _ _ Hbefore k row). by apply selectRows_elem. }
  unfold getDecryptedSecrets at 1. rewrite Hm. f_equal.
  apply map_eq. intros k.
  rewrite (getDecryptedSecrets_lookup repoId (batch sts t) m Hm k).
  destruct (decide (k ∈ keys res)) as [Hk|Hk].
  - destruct (Hwritten k Hk) as (v & enc & Hv & He & Hrow).
    rewrite Hrow. cbn [mbind option_bind rs_encrypted_value].
    rewrite (Hlaw _ _ He). symmetry. by apply lookup_union_Some_l.
  - rewrite Hother by (by right).
    rewrite <- (getDecryptedSecrets_lookup repoId t before Hbefore k).
    symmetry. rewrite lookup_union_r; [done|]. by apply Hnone.
Qed.

(** X7: storing then deleting.  After a successful [setSecrets],
    [deleteSecret] called with a stored key in any spelling removes the row
    and answers [true]; the other rows stay, and a second call answers
    [false] and changes nothing. *)
Theorem setSecrets_then_deleteSecret repoId repoOwner repoName
  (secrets : SecretRecord) now (res : SetSecretsResult) (t t' : Table)
  (raw spelled value : string) :
  setSecrets encryptionKey repoId repoOwner repoName secrets now t = inr (res, t') ->
  (raw, value) ∈ secrets ->
  toUpperCase spelled = toUpperCase raw ->
  let '(answer, t1) := deleteSecret repoId spelled t' in
  answer = true
  /\ t1 !! (repoId, toUpperCase raw) = None
  /\ (forall rk, rk <> (repoId, toUpperCase raw) -> t1 !! rk = t' !! rk)
  /\ deleteSecret repoId spelled t1 = (false, t1).
Proof.
  unfold setSecrets.
  destruct (setSecrets_prepare _ _ _ _ _ _ _) as [e|[r sts]] eqn:Hs; [discriminate|].
  intros [= -> <-] Hin Hsp.
  destruct (setSecrets_writes_its_keys_only _ _ _ _ _ _ _ _ t Hs) as [_ Hwritten].
  destruct (setSecrets_reports_normalized_keys _ _ _ _ _ _ _ _ Hs)
    as (_ & Hdom & _ & _ & _ & _).
  assert (toUpperCase raw ∈ keys res) as Hk by (apply Hdom; by exists raw, value).
  destruct (Hwritten _ Hk) as (v & enc & _ & _ & Hrow).
  unfold deleteSecret, normalizeKey, Table in *. rewrite Hsp.
  split; [apply bool_decide_eq_true_2; by eexists|].
  split; [apply lookup_delete_eq|].
  split; [intros rk Hne; by apply lookup_delete_ne|].
  f_equal.
  - apply bool_decide_eq_false_2. rewrite lookup_delete_eq. by intros [? ?].
  - apply delete_id. apply lookup_delete_eq.
Qed.

End WithCrypto.

Import SecretsFixtures.

Lemma setSecrets_reports_normalized_keys_witness :
  setSecrets_prepare "k" 1 "Acme" "Widgets" request 9 ["TOKEN"]
  = inr (sampleResult, sampleStatements)
  /\ NoDup (keys sampleResult)
  /\ (created sampleResult + updated sampleResult)%nat = length (keys sampleResult).
Proof.
  assert (setSecrets_prepare "k" 1 "Acme" "Widgets" request 9 ["TOKEN"]
          = inr (sampleResult, sampleStatements)) as Hs by (vm_compute; reflexivity).
  split; [exact Hs|].
  destruct (setSecrets_reports_normalized_keys "k" 1 "Acme" "Widgets" request 9
              ["TOKEN"] sampleResult sampleStatements Hs)
    as (Hnd & _ & _ & _ & Hsum & _).
  split; [exact Hnd | exact Hsum].
Defined.

Lemma setSecrets_writes_its_keys_only_witness :
  setSecrets_prepare "k" 1 "Acme" "Widgets" request 9 ["TOKEN"]
  = inr (sampleResult, sampleStatements)
  /\ batch sampleStatements stored !! (2, "TOKEN") = stored !! (2, "TOKEN")
  /\ exists value encrypted,
       assignAll request ∅ !! "API_KEY" = Some value
       /\ encryptToken value "k" = Some encrypted
       /\ batch sampleStatements stored !! (1, "API_KEY")
          = Some (mkSecretRow "acme" "widgets" encrypted 9 9).
Proof.
  assert (setSecrets_prepare "k" 1 "Acme" "Widgets" request 9 ["TOKEN"]
          = inr (sampleResult, sampleStatements)) as Hs by (vm_compute; reflexivity).
  split; [exact Hs|].
  destruct (setSecrets_writes_its_keys_only "k" 1 "Acme" "Widgets" request 9
              ["TOKEN"] sampleResult sampleStatements stored Hs) as [Hother Hwritten].
  split; [apply Hother; left; discriminate|].
  assert ("API_KEY" ∈ keys sampleResult) as Hin by (vm_compute; left).
  destruct (Hwritten "API_KEY" Hin) as (value & encrypted & Hv & He & Hrow).
  exists value, encrypted. split; [exact Hv|]. split; [exact He|].
  rewrite Hrow. reflexivity.
Defined.

Lemma setSecrets_keeps_scope_limit_witness :
  setSecrets "k" 1 "Acme" "Widgets" request 9 stored
  = inr (sampleResult, batch sampleStatements stored)
  /\ (length (selectKeys 1 (batch sampleStatements stored)) <= 50)%nat.
Proof.
  assert (setSecrets "k" 1 "Acme" "Widgets" request 9 stored
          = inr (sampleResult, batch sampleStatements stored)) as Hs
    by (vm_compute; reflexivity).
  split; [exact Hs|].
  exact (setSecrets_keeps_scope_limit "k" 1 "Acme" "Widgets" request 9 sampleResult
           stored (batch sampleStatements stored) Hs).
Defined.

Lemma setSecrets_then_getDecryptedSecrets_witness :
  (forall value encrypted,
     encryptToken value "k" = Some encrypted -> decryptToken encrypted "k" = Some value)
  /\ getDecryptedSecrets "k" 1 stored = inr {[ "TOKEN" := "old" ]}
  /\ setSecrets "k" 1 "Acme" "Widgets" request 9 stored
     = inr (sampleResult, batch sampleStatements stored)
  /\ getDecryptedSecrets "k" 1 (batch sampleStatements stored)
     = inr (assignAll request ∅ ∪ {[ "TOKEN" := "old" ]}).
Proof.
  assert (forall value encrypted,
            encryptToken value "k" = Some encrypted ->
            decryptToken encrypted "k" = Some value) as Hlaw.
  { intros value encrypted [= <-]. reflexivity. }
  assert (getDecryptedSecrets "k" 1 stored = inr {[ "TOKEN" := "old" ]}) as Hbefore
    by (vm_compute; reflexivity).
  assert (setSecrets "k" 1 "Acme" "Widgets" request 9 stored
          = inr (sampleResult, batch sampleStatements stored)) as Hs
    by (vm_compute; reflexivity).
  split; [exact Hlaw|]. split; [exact Hbefore|]. split; [exact Hs|].
  exact (setSecrets_then_getDecryptedSecrets "k" 1 "Acme" "Widgets" request 9
           sampleResult stored (batch sampleStatements stored) _ Hlaw Hbefore Hs).
Defined.

Lemma setSecrets_then_deleteSecret_witness :
  setSecrets "k" 1 "Acme" "Widgets" request 9 stored
  = inr (sampleResult, batch sampleStatements stored)
  /\ ("api_key", "first") ∈ request
  /\ toUpperCase "Api_Key" = toUpperCase "api_key"
  /\ let '(answer, t1) := deleteSecret 1 "Api_Key" (batch sampleStatements stored) in
     answer = true /\ t1 !! (1, "API_KEY") = None.
Proof.
  assert (setSecrets "k" 1 "Acme" "Widgets" request 9 stored
          = inr (sampleResult, batch sampleStatements stored)) as Hs
    by (vm_compute; reflexivity).
  assert (("api_key", "first") ∈ request) as Hin by left.
  assert (toUpperCase "Api_Key" = toUpperCase "api_key") as Hsp by reflexivity.
  split; [exact Hs|]. split; [exact Hin|]. split; [exact Hsp|].
  pose proof (setSecrets_then_deleteSecret "k" 1 "Acme" "Widgets" request 9
                sampleResult stored (batch sampleStatements stored)
                "api_key" "Api_Key" "first" Hs Hin Hsp) as Hw.
  destruct (deleteSecret 1 "Api_Key" (batch sampleStatements stored)) as [answer t1].
  destruct Hw as (Ha & Hgone & _ & _). split; [exact Ha | exact Hgone].
Defined.

End RepoSecretsStoreFacts.

(* ===================================================================== *)
(** ** Selecting the source-control provider                               *)
(* ===================================================================== *)

Module SourceControlFacts.
Import JsString JsStringFacts SourceControl.



Lemma resolveScmProviderFromEnv_Some (value : string) :
  resolveScmProviderFromEnv (Some value)
  = if negb (truthy (toLowerCase (trim value))) then inr github
    else if String.eqb (toLowerCase (trim value)) "github" then inr github
    else if String.eqb (toLowerCase (trim value)) "bitbucket" then inr bitbucket
    else inl (mkSourceControlProviderError
                ("Invalid SCM_PROVIDER value '" ++ toLowerCase (trim value)
                 ++ "'. Supported values: github, bitbucket.")
                "permanent").
Proof. reflexivity. Qed.


(** X10: the provider of a session actor.  A provider is built exactly
    when the deployment variable resolves to [github], and it is the
    GitHub provider with the app configuration of the environment.  Every
    other outcome is a permanent [SourceControlProviderError]: the one of
    the resolver for a value it does not know, or the not-implemented
    error for [bitbucket]; the factory's error for an unsupported name is
    never thrown, since the resolver yields no name without a case in the
    factory. *)
Theorem session_provider_is_github_or_permanent_error (SCM_PROVIDER appConfig : option string) :
  match SessionDO_createSourceControlProvider SCM_PROVIDER appConfig with
  | inr provider =>
      provider = GitHubSourceControlProvider appConfig
      /\ resolveScmProviderFromEnv SCM_PROVIDER = inr github
  | inl e =>
      scm_errorType e = "permanent"
      /\ (resolveScmProviderFromEnv SCM_PROVIDER = inl e
          \/ (resolveScmProviderFromEnv SCM_PROVIDER = inr bitbucket
              /\ scm_message e
                 = "SCM provider 'bitbucket' is configured but not implemented."))
      /\ forall name,
           scm_message e <> "Unsupported source control provider: " ++ name
  end.
Proof.
  unfold SessionDO_createSourceControlProvider.
  destruct (resolveScmProviderFromEnv SCM_PROVIDER) as [e|[]] eqn:Hr;
    cbn [nameText createSourceControlProvider String.eqb Ascii.eqb Bool.eqb
         default scm_errorType scm_message].
  - assert (exists x, e = mkSourceControlProviderError
                           ("Invalid SCM_PROVIDER value '" ++ x
                            ++ "'. Supported values: github, bitbucket.")
                           "permanent") as [x ->].
    { destruct SCM_PROVIDER as [value|]; [|discriminate].
      rewrite resolveScmProviderFromEnv_Some in Hr.
      repeat case_match; try discriminate. injection Hr as <-. by eexists. }
    split; [done|]. split; [by left|]. intros name. discriminate.
  - done.
  - split; [done|]. split; [by right|]. intros name. discriminate.
Qed.


End SourceControlFacts.

(* ===================================================================== *)
(** ** The route table                                                     *)
(* ===================================================================== *)

Module RoutingFacts.
Import JsString InternalRoutes.

(** X11: dispatch.  A request that is no WebSocket upgrade and carries the
    method and the path of an entry of the route table reaches the handler
    of that entry: no entry hides another.  Such a request reaches a
    handler only through an entry with its method and path, and is
    answered 404 otherwise.  A WebSocket upgrade never reaches the table:
    it goes to the sandbox upgrade when the [type] parameter is [sandbox],
    to the client socket otherwise. *)
Theorem fetch_dispatches_by_method_and_path :
  (forall upgrade type route,
     upgrade <> Some "websocket" ->
     In route INTERNAL_ROUTES ->
     fetch upgrade type (method route) (path route) = ToRoute (handler route))
  /\ (forall upgrade type requestMethod pathname,
        upgrade <> Some "websocket" ->
        match fetch upgrade type requestMethod pathname with
        | ToRoute h => In (mkInternalRoute requestMethod pathname h) INTERNAL_ROUTES
        | NotFound404 =>
            forall h, ~ In (mkInternalRoute requestMethod pathname h) INTERNAL_ROUTES
        | _ => False
        end)
  /\ (forall type requestMethod pathname,
        fetch (Some "websocket") type requestMethod pathname
        = if bool_decide (type = Some "sandbox") then ToSandboxUpgrade
          else ToClientSocket).
Proof.
  split; [|split].
  - intros upgrade type route Hu Hin. unfold fetch.
    rewrite (bool_decide_eq_false_2 _ Hu). cbn [andb].
    cbv [INTERNAL_ROUTES In] in Hin.
    repeat (destruct Hin as [<-|Hin]; [reflexivity|]). destruct Hin.
  - intros upgrade type requestMethod pathname Hu. unfold fetch.
    rewrite (bool_decide_eq_false_2 _ Hu). cbn [andb].
    destruct (find _ INTERNAL_ROUTES) as [route|] eqn:Hf.
    + apply find_some in Hf as [Hin Hm].
      apply andb_true_iff in Hm as [Hp Hmeth].
      apply String.eqb_eq in Hp, Hmeth. subst. by destruct route.
    + intros h Hin. pose proof (find_none _ _ Hf _ Hin) as Hn.
      cbn [path method] in Hn. by rewrite !String.eqb_refl in Hn.
  - intros type requestMethod pathname. unfold fetch.
    rewrite bool_decide_eq_true_2 by done. cbn [andb].
    by destruct (bool_decide (type = Some "sandbox")).
Qed.

Lemma fetch_dispatches_by_method_and_path_witness :
  None <> Some "websocket"
  /\ In (mkInternalRoute "POST" "/internal/participants" handleAddParticipant_route)
       INTERNAL_ROUTES
  /\ fetch None None "POST" "/internal/participants"
     = ToRoute handleAddParticipant_route.
Proof.
  assert ((None : option string) <> Some "websocket") as Hu by discriminate.
  assert (In (mkInternalRoute "POST" "/internal/participants"
                handleAddParticipant_route) INTERNAL_ROUTES) as Hin
    by (cbv [INTERNAL_ROUTES In]; tauto).
  split; [exact Hu|]. split; [exact Hin|].
  exact (proj1 fetch_dispatches_by_method_and_path None None _ Hu Hin).
Defined.

End RoutingFacts.

(* ===================================================================== *)
(** ** The sandbox token                                                   *)
(* ===================================================================== *)

Module SandboxTokenFacts.
Import JsString Repository SandboxHandler SessionDO InternalRoutes SandboxHandlerFacts.

Section WithModels.
Context `{Models}.

(** When [handleVerifySandboxToken] answers 200. *)
Lemma handleVerifySandboxToken_valid (token : string) (s : State) :
  vr_status (handleVerifySandboxToken (Some token) s) = 200
  <-> token <> ""
      /\ exists sb, sandbox s = Some sb
                    /\ sb_status sb <> "stopped" /\ sb_status sb <> "stale"
                    /\ auth_token sb = Some token.
Proof.
  unfold handleVerifySandboxToken, getSandbox. cbn [truthyOpt].
  destruct token as [|c token]; cbn [truthy negb].
  { split; [discriminate|]. by intros [? _]. }
  destruct (sandbox s) as [sb|]; [|split; [discriminate|by intros [_ (? & ? & _)]]].
  destruct (String.eqb_spec (sb_status sb) "stopped") as [Hst|Hst]; cbn [orb].
  { split; [discriminate|]. intros [_ (sb' & [= <-] & ? & _)]. done. }
  destruct (String.eqb_spec (sb_status sb) "stale") as [Hsl|Hsl].
  { split; [discriminate|]. intros [_ (sb' & [= <-] & _ & ? & _)]. done. }
  case_bool_decide as Ha; cbn [negb vr_status].
  - split; [|done]. intros _. split; [done|]. exists sb. by repeat split.
  - split; [discriminate|]. intros [_ (sb' & [= <-] & _ & _ & Hat)]. by destruct Ha.
Qed.

(** X12: a token that [handleVerifySandboxToken] accepts opens the sandbox
    socket.  The verification answers 200 exactly for a non-empty token
    that is the stored auth token of a Sandbox that is neither stopped nor
    stale; in that state an upgrade request that carries the token as
    bearer, and the expected sandbox id if one is stored, is accepted. *)
Theorem verified_token_opens_sandbox_socket (token : string)
  (sandboxId : option string) (ws : Socket) (now : Z) (s : State) :
  vr_status (handleVerifySandboxToken (Some token) s) = 200 ->
  (forall expected, sandbox s ≫= modal_sandbox_id = Some expected ->
                    expected <> "" -> sandboxId = Some expected) ->
  vr_valid (handleVerifySandboxToken (Some token) s) = true
  /\ (handleSandboxWebSocketUpgrade (Some ("Bearer " ++ token)) sandboxId ws now s).1
     = Switching101.
Proof.
  intros Hv Hid. pose proof Hv as Hv'.
  apply handleVerifySandboxToken_valid in Hv' as (Hne & sb & Hsb & Hst & Hsl & Hat).
  split.
  { revert Hv. unfold handleVerifySandboxToken. repeat case_match; done. }
  unfold handleSandboxWebSocketUpgrade, handleSandboxWebSocketUpgrade_with, getSandbox.
  rewrite Hsb in *. cbn [fmap option_fmap option_map mbind option_bind] in *.
  rewrite Hat. cbn [default].
  rewrite !bool_decide_eq_false_2 by congruence. cbn [orb].
  assert (truthyOpt (modal_sandbox_id sb)
          && negb (bool_decide (sandboxId = modal_sandbox_id sb)) = false) as ->.
  { destruct (modal_sandbox_id sb) as [expected|] eqn:He; [|done].
    destruct expected as [|c e]; [done|].
    rewrite (Hid _ eq_refl) by done. by rewrite bool_decide_eq_true_2. }
  cbn [truthyOpt truthy append negb orb].
  by rewrite bool_decide_eq_true_2.
Qed.

End WithModels.

Import Fixtures.

Lemma verified_token_opens_sandbox_socket_witness :
  vr_status (handleVerifySandboxToken (Some "tok") connected) = 200
  /\ (forall expected, sandbox connected ≫= modal_sandbox_id = Some expected ->
                       expected <> "" -> None = Some expected)
  /\ (handleSandboxWebSocketUpgrade (Some "Bearer tok") None 8%nat 3 connected).1
     = Switching101.
Proof.
  assert (vr_status (handleVerifySandboxToken (Some "tok") connected) = 200) as Hv
    by reflexivity.
  assert (forall expected, sandbox connected ≫= modal_sandbox_id = Some expected ->
                           expected <> "" -> None = Some expected) as Hid.
  { intros expected He. discriminate He. }
  split; [exact Hv|]. split; [exact Hid|].
  exact (proj2 (verified_token_opens_sandbox_socket "tok" None 8%nat 3 connected Hv Hid)).
Defined.

End SandboxTokenFacts.

(* ===================================================================== *)
(** ** Listing pages                                                       *)
(* ===================================================================== *)

Module PageFacts.
Import JsString JsNumber ListRoutes InternalRoutes ListRoutesFacts.

Lemma removelast_take {A} (l : list A) : removelast l = take (length l - 1) l.
Proof.
  induction l as [|x l IH]; [done|]. destruct l as [|y l]; [done|].
  change (removelast (x :: y :: l)) with (x :: removelast (y :: l)).
  rewrite IH. cbn [length].
  replace (S (S (length l)) - 1)%nat with (S (S (length l) - 1)) by lia.
  reflexivity.
Qed.

(** What [page] makes of at most [n + 1] rows under a limit [n >= 0]. *)
Lemma page_within_limit {A} (createdAt : A -> Z) (n : Z) (rows : list A) :
  0 <= n ->
  Z.of_nat (length rows) <= n + 1 ->
  let p := page createdAt (Num n) rows in
  pg_rows p = take (Z.to_nat n) rows
  /\ Z.of_nat (length (pg_rows p)) <= n
  /\ (pg_hasMore p = true <-> Z.of_nat (length rows) = n + 1)
  /\ pg_cursor p = pretty <$> (createdAt <$> last (take (Z.to_nat n) rows)).
Proof.
  intros Hn Hlen p.
  assert (pg_rows p = take (Z.to_nat n) rows) as Hrows.
  { unfold p, page, lengthExceeds. cbn [pg_rows].
    destruct (n <? Z.of_nat (length rows)) eqn:Hlt.
    - apply Z.ltb_lt in Hlt. rewrite removelast_take. f_equal. lia.
    - apply Z.ltb_ge in Hlt. symmetry. apply take_ge. lia. }
  split; [exact Hrows|]. split.
  { rewrite Hrows, length_take. lia. }
  split.
  { unfold p, page, lengthExceeds. cbn [pg_hasMore]. rewrite Z.ltb_lt. lia. }
  rewrite <- Hrows. reflexivity.
Qed.

(** X13: a listing response stays within the limit.  When the limit
    handed to the repository is a number [n >= 0] and the repository
    returns at most [n + 1] rows, the response of [handleListEvents]
    carries the first [n] of them, which are at most 200; [hasMore] tells
    whether an [n + 1]st row was returned, and the cursor is the creation
    time of the last row carried.  The same holds for [handleListMessages]
    with at most 100 rows. *)
Theorem listing_response_within_limit (p : SearchParams) (n : Z) :
  (forall (listEvents : ListEventsArgs -> list EventRow) args,
     handleListEvents p = Query args ->
     le_limit args = Num n -> 0 <= n ->
     Z.of_nat (length (listEvents args)) <= n + 1 ->
     exists pg,
       handleListEvents_response p listEvents = Listed pg
       /\ pg_rows pg = take (Z.to_nat n) (listEvents args)
       /\ Z.of_nat (length (pg_rows pg)) <= n /\ n <= 200
       /\ (pg_hasMore pg = true <-> Z.of_nat (length (listEvents args)) = n + 1)
       /\ pg_cursor pg = pretty <$> (er_created_at <$> last (pg_rows pg)))
  /\ (forall (listMessages : ListMessagesArgs -> list MessageRow) args,
        handleListMessages p = Query args ->
        lm_limit args = Num n -> 0 <= n ->
        Z.of_nat (length (listMessages args)) <= n + 1 ->
        exists pg,
          handleListMessages_response p listMessages = Listed pg
          /\ pg_rows pg = take (Z.to_nat n) (listMessages args)
          /\ Z.of_nat (length (pg_rows pg)) <= n /\ n <= 100
          /\ (pg_hasMore pg = true <-> Z.of_nat (length (listMessages args)) = n + 1)
          /\ pg_cursor pg = pretty <$> (created_at <$> last (pg_rows pg))).
Proof.
  split.
  - intros listEvents args Hq Hl Hn Hlen.
    unfold handleListEvents_response. rewrite Hq, Hl.
    destruct (page_within_limit er_created_at n (listEvents args) Hn Hlen)
      as (Hrows & Hle & Hmore & Hcur).
    eexists. split; [reflexivity|]. split; [exact Hrows|]. split; [exact Hle|].
    split; [|split; [exact Hmore|by rewrite Hrows]].
    destruct (handleListEvents_limit_when_number p args Hq) as [Hnan|(z & Hz & Hcap)];
      congruence.
  - intros listMessages args Hq Hl Hn Hlen.
    unfold handleListMessages_response. rewrite Hq, Hl.
    destruct (page_within_limit created_at n (listMessages args) Hn Hlen)
      as (Hrows & Hle & Hmore & Hcur).
    eexists. split; [reflexivity|]. split; [exact Hrows|]. split; [exact Hle|].
    split; [|split; [exact Hmore|by rewrite Hrows]].
    destruct (handleListMessages_limit_when_number p args Hq) as [Hnan|(z & Hz & Hcap)];
      congruence.
Qed.

Lemma listing_response_within_limit_witness :
  (exists pg,
      handleListEvents_response [("limit", "2")] SessionFixtures.threeEvents
      = Listed pg
      /\ length (pg_rows pg) = 2%nat /\ pg_hasMore pg = true
      /\ pg_cursor pg = Some "20")
  /\ (exists pg,
        handleListMessages_response [] SessionFixtures.oneMessage = Listed pg
        /\ length (pg_rows pg) = 1%nat /\ pg_hasMore pg = false).
Proof.
  split.
  - assert (handleListEvents [("limit", "2")]
            = Query (mkListEventsArgs None (Num 2) None None)) as Hq
      by (vm_compute; reflexivity).
    destruct (listing_response_within_limit [("limit", "2")] 2) as [Hev _].
    destruct (Hev SessionFixtures.threeEvents _ Hq eq_refl ltac:(lia)
                ltac:(vm_compute; discriminate))
      as (pg & Hpg & Hrows & _ & _ & Hmore & Hcur).
    exists pg. split; [exact Hpg|]. split; [by rewrite Hrows|].
    split; [by apply Hmore|]. rewrite Hcur, Hrows. vm_compute. reflexivity.
  - assert (handleListMessages [] = Query (mkListMessagesArgs None (Num 50) None)) as Hq
      by (vm_compute; reflexivity).
    destruct (listing_response_within_limit [] 50) as [_ Hms].
    destruct (Hms SessionFixtures.oneMessage _ Hq eq_refl ltac:(lia)
                ltac:(vm_compute; discriminate))
      as (pg & Hpg & Hrows & _ & _ & Hmore & _).
    exists pg. split; [exact Hpg|]. split; [by rewrite Hrows|].
    destruct (pg_hasMore pg); [|done].
    pose proof (proj1 Hmore eq_refl) as Hx. vm_compute in Hx. discriminate.
Defined.

End PageFacts.

(* ===================================================================== *)
(** ** WebSocket tokens                                                    *)
(* ===================================================================== *)

Module WsTokenFacts.
Import JsString Repository WsToken SandboxHandlerFacts FindFacts.

(** A lookup in a table in which the rows with one id were rewritten. *)
Lemma find_after_update (P : list ParticipantRow) (pid : string)
  (F : ParticipantRow -> ParticipantRow) (pred : ParticipantRow -> bool)
  (p : ParticipantRow) :
  NoDup (map part_id P) ->
  In p P -> part_id p = pid ->
  (forall q, In q P -> part_id q <> pid -> pred q = false) ->
  pred (F p) = true ->
  find pred (map (fun q => if String.eqb (part_id q) pid then F q else q) P)
  = Some (F p).
Proof.
  intros Hnd Hin Hid Hother Hhit. induction P as [|q rest IH]; [done|].
  cbn [map find]. cbn [map] in Hnd. apply NoDup_cons in Hnd as [Hfresh Hnd].
  destruct (String.eqb_spec (part_id q) pid) as [Hq|Hq].
  - assert (p = q) as ->.
    { destruct Hin as [->|Hin]; [done|]. destruct Hfresh.
      rewrite Hq, <- Hid. apply list_elem_of_In, in_map, Hin. }
    by rewrite Hhit.
  - rewrite (Hother q (or_introl eq_refl) Hq).
    destruct Hin as [->|Hin]; [done|].
    apply IH; [done|done|]. intros q' Hq'. apply Hother. by right.
Qed.

Lemma find_none_after_update (P : list ParticipantRow) (pid : string)
  (F : ParticipantRow -> ParticipantRow) (pred : ParticipantRow -> bool) :
  (forall q, In q P -> part_id q <> pid -> pred q = false) ->
  (forall q, pred (F q) = false) ->
  find pred (map (fun q => if String.eqb (part_id q) pid then F q else q) P) = None.
Proof.
  intros Hother Hmiss. induction P as [|q rest IH]; [done|].
  cbn [map find]. destruct (String.eqb_spec (part_id q) pid) as [Hq|Hq].
  - rewrite Hmiss. apply IH. intros q' Hq'. apply Hother. by right.
  - rewrite (Hother q (or_introl eq_refl) Hq). apply IH.
    intros q' Hq'. apply Hother. by right.
Qed.

Lemma find_user_after_update (P : list ParticipantRow) (pid uid : string)
  (F : ParticipantRow -> ParticipantRow) :
  (forall q, user_id (F q) = user_id q) ->
  find (fun q => String.eqb (user_id q) uid)
    (map (fun q => if String.eqb (part_id q) pid then F q else q) P)
  = (fun q => if String.eqb (part_id q) pid then F q else q)
      <$> find (fun q => String.eqb (user_id q) uid) P.
Proof.
  intros Hu. induction P as [|q rest IH]; [done|]. cbn [map find].
  assert (user_id (if String.eqb (part_id q) pid then F q else q) = user_id q) as ->.
  { destruct (String.eqb (part_id q) pid); [apply Hu | done]. }
  destruct (String.eqb (user_id q) uid); [done | apply IH].
Qed.

Lemma getParticipantByUserId_Some (uid : string) (s : State) (p : ParticipantRow) :
  getParticipantByUserId uid s = Some p -> In p (participants s) /\ user_id p = uid.
Proof.
  unfold getParticipantByUserId. intros Hf. apply find_some in Hf as [Hin Hu].
  split; [done|]. by apply String.eqb_eq.
Qed.

Lemma update_then_token (pid : string) (u : ParticipantUpdate) (tokenHash : string)
  (now : Z) (s : State) :
  participants (updateParticipantWsToken pid tokenHash now
                  (updateParticipantCoalesce pid u s))
  = map (fun q => if String.eqb (part_id q) pid
                  then stamped tokenHash now (coalesced u q) else q)
      (participants s).
Proof.
  unfold updateParticipantWsToken, updateParticipantCoalesce. fields.
  rewrite map_map. apply map_ext. intros q.
  destruct (String.eqb (part_id q) pid) eqn:Hq; cbn [part_id coalesced]; by rewrite Hq.
Qed.

Section WithHash.
Variable hashToken : string -> string.

Lemma handleGenerateWsToken_known (body : WsTokenBody) (id plainToken uid : string)
  (now : Z) (s : State) (p : ParticipantRow) :
  wt_userId body = Some uid -> uid <> "" ->
  getParticipantByUserId uid s = Some p ->
  exists s',
    handleGenerateWsToken hashToken body id plainToken now s
    = (WsTokenIssued plainToken (part_id p), s')
    /\ participants s'
       = map (fun q => if String.eqb (part_id q) (part_id p)
                       then stamped (hashToken plainToken) now
                              (coalesced (coalesceFields body p) q)
                       else q) (participants s).
Proof.
  intros Hu Hne Hp. unfold handleGenerateWsToken. rewrite Hu.
  cbn [truthyOpt default]. unfold Datatypes.id.
  rewrite (JsStringFacts.truthy_nonempty _ Hne). cbn [negb].
  rewrite Hp. eexists. split; [reflexivity|]. apply update_then_token.
Qed.

Lemma handleGenerateWsToken_unknown (body : WsTokenBody) (id plainToken uid : string)
  (now : Z) (s : State) :
  wt_userId body = Some uid -> uid <> "" ->
  getParticipantByUserId uid s = None ->
  exists s',
    handleGenerateWsToken hashToken body id plainToken now s
    = (WsTokenIssued plainToken id, s')
    /\ participants s'
       = map (fun q => if String.eqb (part_id q) id
                       then stamped (hashToken plainToken) now q else q)
           (participants s ++ [newParticipant body id uid now]).
Proof.
  intros Hu Hne Hp. unfold handleGenerateWsToken. rewrite Hu.
  cbn [truthyOpt default]. unfold Datatypes.id.
  rewrite (JsStringFacts.truthy_nonempty _ Hne). cbn [negb].
  rewrite Hp.
  assert (getParticipantByUserId uid
            (createParticipant (newParticipant body id uid now) s)
          = Some (newParticipant body id uid now)) as ->.
  { unfold getParticipantByUserId in *. fields.
    rewrite (find_app_none _ _ _ Hp). cbn [find newParticipant user_id].
    by rewrite String.eqb_refl. }
  cbn [default newParticipant part_id]. eexists. split; [reflexivity|].
  unfold updateParticipantWsToken. fields. reflexivity.
Qed.

(** X14: a token just issued authenticates, and replaces the one before.
    After [handleGenerateWsToken] has answered with a token for a user,
    a [subscribe] frame carrying that token is authenticated as the
    participant named in the answer, whose row belongs to that user and
    carries the issue time.  A token whose hash differs, and was stored
    only on that participant's row, is refused from then on.  (Ids of
    participants are distinct, the id for a new participant is unused, and
    the hash of the new token is not stored yet.) *)
Theorem issued_token_authenticates (body : WsTokenBody)
  (id plainToken uid : string) (now : Z) (s : State) :
  wt_userId body = Some uid -> uid <> "" -> plainToken <> "" ->
  NoDup (map part_id (participants s)) ->
  ~ In id (map part_id (participants s)) ->
  (forall q, In q (participants s) ->
             ws_auth_token q <> Some (hashToken plainToken)) ->
  let '(response, s') := handleGenerateWsToken hashToken body id plainToken now s in
  exists p',
    response = WsTokenIssued plainToken (part_id p')
    /\ handleSubscribe_authenticate hashToken (Some plainToken) s' = Authenticated p'
    /\ user_id p' = uid
    /\ ws_token_created_at p' = Some now
    /\ forall old,
         old <> "" -> hashToken old <> hashToken plainToken ->
         (forall q, In q (participants s) ->
                    ws_auth_token q = Some (hashToken old) ->
                    getParticipantByUserId uid s = Some q) ->
         handleSubscribe_authenticate hashToken (Some old) s'
         = CloseSocket 4001 "Invalid authentication token".
Proof.
  intros Hu Hne Htok Hnd Hfresh Hunused.
  assert (forall t s0, t <> "" ->
            handleSubscribe_authenticate hashToken (Some t) s0
            = match getParticipantByWsTokenHash (hashToken t) s0 with
              | None => CloseSocket 4001 "Invalid authentication token"
              | Some participant => Authenticated participant
              end) as Hsub.
  { intros t s0 Ht. unfold handleSubscribe_authenticate. cbn [truthyOpt default].
    unfold Datatypes.id. by rewrite (JsStringFacts.truthy_nonempty _ Ht). }
  destruct (getParticipantByUserId uid s) as [p|] eqn:Hp.
  - destruct (handleGenerateWsToken_known body id plainToken uid now s p Hu Hne Hp)
      as (s' & -> & Hparts).
    destruct (getParticipantByUserId_Some _ _ _ Hp) as [Hin Huid].
    exists (stamped (hashToken plainToken) now (coalesced (coalesceFields body p) p)).
    split; [done|]. split.
    { rewrite Hsub by done. unfold getParticipantByWsTokenHash. rewrite Hparts.
      rewrite (find_after_update _ _ _ _ p Hnd Hin eq_refl); [done| |].
      - intros q Hq _. apply bool_decide_eq_false_2. by apply Hunused.
      - by apply bool_decide_eq_true_2. }
    split; [done|]. split; [done|].
    intros old Hold Hdiff Honly. rewrite Hsub by done.
    unfold getParticipantByWsTokenHash. rewrite Hparts.
    rewrite find_none_after_update; [done| |].
    + intros q Hq Hid. apply bool_decide_eq_false_2. intros Hw.
      pose proof (Honly q Hq Hw) as Hq'. congruence.
    + intros q. apply bool_decide_eq_false_2. cbn [stamped ws_auth_token]. congruence.
  - destruct (handleGenerateWsToken_unknown body id plainToken uid now s Hu Hne Hp)
      as (s' & -> & Hparts).
    exists (stamped (hashToken plainToken) now (newParticipant body id uid now)).
    split; [done|].
    assert (forall q, In q (participants s ++ [newParticipant body id uid now]) ->
                      part_id q <> id -> In q (participants s)) as Hold.
    { intros q Hq Hid. apply in_app_or in Hq as [Hq|[<-|[]]]; [done|].
      by destruct Hid. }
    split.
    { rewrite Hsub by done. unfold getParticipantByWsTokenHash. rewrite Hparts.
      rewrite (find_after_update _ _ _ _ (newParticipant body id uid now)); [done| | | | |].
      - rewrite map_app. cbn [map newParticipant part_id].
        apply NoDup_app. split; [done|].
        split; [|apply NoDup_singleton].
        intros x Hx Hx'. apply list_elem_of_singleton in Hx' as ->.
        apply Hfresh. by apply list_elem_of_In.
      - apply in_or_app. right. by left.
      - done.
      - intros q Hq Hid. apply bool_decide_eq_false_2. apply Hunused. by apply Hold.
      - by apply bool_decide_eq_true_2. }
    split; [done|]. split; [done|].
    intros old Hold' Hdiff Honly. rewrite Hsub by done.
    unfold getParticipantByWsTokenHash. rewrite Hparts.
    rewrite find_none_after_update; [done| |].
    + intros q Hq Hid. apply bool_decide_eq_false_2. intros Hw.
      pose proof (Honly q (Hold q Hq Hid) Hw) as Hq'. congruence.
    + intros q. apply bool_decide_eq_false_2. cbn [stamped ws_auth_token]. congruence.
Qed.

(** X15: a stale client token does not displace the stored one.  For a
    participant whose stored token has an expiry, a request whose expiry
    is absent or earlier leaves the stored access token and expiry as they
    are, and leaves a stored refresh token as it is; a request that sent a
    token and whose expiry is not earlier stores the access token and the
    expiry it sent. *)
Theorem stale_client_token_keeps_stored_token (body : WsTokenBody)
  (id plainToken uid : string) (now db : Z) (s : State) (p : ParticipantRow) :
  wt_userId body = Some uid -> uid <> "" ->
  getParticipantByUserId uid s = Some p ->
  github_token_expires_at p = Some db ->
  let s' := (handleGenerateWsToken hashToken body id plainToken now s).2 in
  exists p',
    getParticipantByUserId uid s' = Some p'
    /\ part_id p' = part_id p
    /\ ws_auth_token p' = Some (hashToken plainToken)
    /\ (wt_githubTokenExpiresAt body = None
        \/ (exists client, wt_githubTokenExpiresAt body = Some client /\ client < db) ->
        github_access_token_encrypted p' = github_access_token_encrypted p
        /\ github_token_expires_at p' = Some db
        /\ (github_refresh_token_encrypted p <> None ->
            github_refresh_token_encrypted p' = github_refresh_token_encrypted p))
    /\ (forall client token,
          wt_githubTokenExpiresAt body = Some client -> db <= client ->
          wt_githubTokenEncrypted body = Some token ->
          github_access_token_encrypted p' = Some token
          /\ github_token_expires_at p' = Some client).
Proof.
  intros Hu Hne Hp Hdb s'.
  destruct (handleGenerateWsToken_known body id plainToken uid now s p Hu Hne Hp)
    as (s1 & Heq & Hparts).
  unfold s'. rewrite Heq. cbn [snd].
  exists (stamped (hashToken plainToken) now (coalesced (coalesceFields body p) p)).
  split.
  { unfold getParticipantByUserId in *. rewrite Hparts.
    rewrite find_user_after_update by done. rewrite Hp. cbn [fmap option_fmap option_map].
    by rewrite String.eqb_refl. }
  split; [done|]. split; [done|].
  cbn [stamped coalesced coalesceFields github_access_token_encrypted
       github_token_expires_at github_refresh_token_encrypted
       pu_githubAccessTokenEncrypted pu_githubTokenExpiresAt
       pu_githubRefreshTokenEncrypted].
  split.
  - intros Hstale.
    assert (shouldUpdateTokens body p = false) as Hno.
    { unfold shouldUpdateTokens. rewrite Hdb.
      destruct Hstale as [->|(client & -> & Hlt)]; [apply andb_false_r|].
      apply andb_false_iff. right. apply Z.leb_gt. done. }
    rewrite Hno. cbn [nullish]. split; [done|]. split; [done|].
    intros Hstored. unfold shouldUpdateRefreshToken. rewrite Hno.
    destruct (github_refresh_token_encrypted p); [|done].
    cbn [notNull negb orb]. rewrite andb_false_r. done.
  - intros client token Hc Hle Ht.
    assert (shouldUpdateTokens body p = true) as Hyes.
    { unfold shouldUpdateTokens. rewrite Hdb, Hc, Ht. cbn [notNull orb andb].
      by apply Z.leb_le. }
    rewrite Hyes, Hc, Ht. done.
Qed.

End WithHash.

Import Fixtures.

Lemma issued_token_authenticates_witness :
  let body := mkWsTokenBody (Some "alice") None None None None None None None in
  let hash := fun t => "h(" ++ t ++ ")" in
  wt_userId body = Some "alice" /\ "alice" <> "" /\ "t1" <> ""
  /\ NoDup (map part_id (participants connected))
  /\ ~ In "p9" (map part_id (participants connected))
  /\ (forall q, In q (participants connected) -> ws_auth_token q <> Some (hash "t1"))
  /\ exists p',
       handleSubscribe_authenticate hash (Some "t1")
         (handleGenerateWsToken hash body "p9" "t1" 5 connected).2
       = Authenticated p'
       /\ user_id p' = "alice".
Proof.
  intros body hash.
  assert (wt_userId body = Some "alice") as Hu by reflexivity.
  assert ("alice" <> "") as Hne by discriminate.
  assert ("t1" <> "") as Htok by discriminate.
  assert (NoDup (map part_id (participants connected))) as Hnd.
  { apply NoDup_ListNoDup. repeat constructor; cbn; intros Hc;
      repeat (destruct Hc as [Hc|Hc]; [discriminate Hc|]); destruct Hc. }
  assert (~ In "p9" (map part_id (participants connected))) as Hfresh.
  { cbn. intros Hc. repeat (destruct Hc as [Hc|Hc]; [discriminate Hc|]). destruct Hc. }
  assert (forall q, In q (participants connected) ->
                    ws_auth_token q <> Some (hash "t1")) as Hunused.
  { intros q Hq. cbn in Hq. repeat (destruct Hq as [<-|Hq]; [discriminate|]).
    destruct Hq. }
  split; [exact Hu|]. split; [exact Hne|]. split; [exact Htok|].
  split; [exact Hnd|]. split; [exact Hfresh|]. split; [exact Hunused|].
  pose proof (issued_token_authenticates hash body "p9" "t1" "alice" 5 connected
                Hu Hne Htok Hnd Hfresh Hunused) as Hw.
  destruct (handleGenerateWsToken hash body "p9" "t1" 5 connected) as [response s'].
  destruct Hw as (p' & _ & Hauth & Huser & _).
  exists p'. split; [exact Hauth | exact Huser].
Defined.

Lemma stale_client_token_keeps_stored_token_witness :
  let carol :=
    mkParticipantRow "p3" "carol" None None None None "member"
      (Some "stored") (Some "refresh") (Some 100) None None 0 in
  let s := with_participants [carol] connected in
  let body :=
    mkWsTokenBody (Some "carol") None None None None (Some "older") None (Some 50) in
  wt_userId body = Some "carol" /\ "carol" <> ""
  /\ getParticipantByUserId "carol" s = Some carol
  /\ github_token_expires_at carol = Some 100
  /\ exists p',
       getParticipantByUserId "carol"
         (handleGenerateWsToken (fun t => t) body "p9" "t1" 5 s).2 = Some p'
       /\ github_access_token_encrypted p' = Some "stored"
       /\ github_token_expires_at p' = Some 100.
Proof.
  intros carol s body.
  assert (wt_userId body = Some "carol") as Hu by reflexivity.
  assert ("carol" <> "") as Hne by discriminate.
  assert (getParticipantByUserId "carol" s = Some carol) as Hp by reflexivity.
  assert (github_token_expires_at carol = Some 100) as Hdb by reflexivity.
  split; [exact Hu|]. split; [exact Hne|]. split; [exact Hp|]. split; [exact Hdb|].
  destruct (stale_client_token_keeps_stored_token (fun t => t) body "p9" "t1" "carol"
              5 100 s carol Hu Hne Hp Hdb) as (p' & Hfound & _ & _ & Hstale & _).
  exists p'. split; [exact Hfound|].
  destruct Hstale as (Ha & He & _).
  { right. exists 50. split; [reflexivity | lia]. }
  split; [exact Ha | exact He].
Defined.

End WsTokenFacts.

(* ===================================================================== *)
(** ** History pages for a client                                          *)
(* ===================================================================== *)

Module HistoryFacts.
Import JsString ClientHandler.

Lemma getClientInfo_cached (ws : Socket) mapping seenAt stampedAt (r : Registry)
  (c : Client) :
  clients r !! ws = Some c ->
  getClientInfo ws mapping seenAt stampedAt r = (Some c, r).
Proof. intros Hc. unfold getClientInfo. by rewrite Hc. Qed.

(** The registry once the client of [ws] has fetched at [now]. *)
Lemma fetched_lookup (ws : Socket) (c : Client) (now : Z) (r : Registry) :
  clients (mkRegistry
             (<[ws := mkClient (cl_participantId c) (cl_userId c) (cl_name c)
                        (cl_avatar c) (cl_status c) (cl_lastSeen c) (cl_clientId c)
                        (Some now)]> (clients r)) (closed r)) !! ws
  = Some (mkClient (cl_participantId c) (cl_userId c) (cl_name c) (cl_avatar c)
            (cl_status c) (cl_lastSeen c) (cl_clientId c) (Some now)).
Proof. cbn [clients]. apply lookup_insert_eq. Qed.

(** X16: the history fetch of a subscribed client.  A request with a
    well-formed cursor that comes 200 ms or more after the last one served
    (or is the first) is served: the page is asked for with a limit
    between 1 and 500, which is 200 when the request names none; the
    frame carries the events of the page that parse, in order, and the
    position of the first row of the page as cursor.  From then on a
    request that comes less than 200 ms after it is refused as rate
    limited and leaves the registry as it is, so that refused requests do
    not postpone the next one that is served: any request 200 ms or more
    after the one served is served again. *)
Theorem fetch_history_is_rate_limited (ws : Socket) (c : Client)
  (cursor limit : option Json) (timestamp : Z) (id : string)
  mapping (seenAt stampedAt now : Z)
  (getEventsHistoryPage : Z -> string -> Z -> HistoryPage) (r : Registry) :
  clients r !! ws = Some c ->
  cursorFields cursor = Some (timestamp, id) ->
  now <> 0 ->
  (forall lastFetch, cl_lastFetchHistoryAt c = Some lastFetch ->
                     lastFetch = 0 \/ 200 <= now - lastFetch) ->
  let '(frame, r1) :=
    handleFetchHistory ws cursor limit mapping seenAt stampedAt now
      getEventsHistoryPage r in
  (exists limit',
     1 <= limit' <= 500
     /\ (forall n, limit = Some (JNum n) -> limit' = Z.max 1 (Z.min n 500))
     /\ ((forall n, limit <> Some (JNum n)) -> limit' = 200)
     /\ frame
        = history_page (omap hi_data (hp_events (getEventsHistoryPage timestamp id limit')))
            (hp_hasMore (getEventsHistoryPage timestamp id limit'))
            ((fun e => (hi_created_at e, hi_id e))
               <$> head (hp_events (getEventsHistoryPage timestamp id limit'))))
  /\ closed r1 = closed r
  /\ (forall cursor2 limit2 mapping2 seenAt2 stampedAt2 now2 page2,
        cursorFields cursor2 <> None ->
        now2 - now < 200 ->
        handleFetchHistory ws cursor2 limit2 mapping2 seenAt2 stampedAt2 now2 page2 r1
        = (history_error "RATE_LIMITED" "Too many requests", r1))
  /\ (forall cursor3 limit3 mapping3 seenAt3 stampedAt3 now3 page3,
        cursorFields cursor3 <> None ->
        200 <= now3 - now ->
        exists items hasMore position,
          (handleFetchHistory ws cursor3 limit3 mapping3 seenAt3 stampedAt3 now3
             page3 r1).1
          = history_page items hasMore position).
Proof.
  intros Hc Hcur Hnow Hlast.
  unfold handleFetchHistory at 1. rewrite (getClientInfo_cached _ _ _ _ _ _ Hc), Hcur.
  assert (match cl_lastFetchHistoryAt c with
          | Some lastFetch => negb (lastFetch =? 0) && (now - lastFetch <? 200)
          | None => false
          end = false) as ->.
  { destruct (cl_lastFetchHistoryAt c) as [lastFetch|]; [|done].
    destruct (Hlast lastFetch eq_refl) as [->|Hge]; [done|].
    apply andb_false_iff. right. apply Z.ltb_ge. lia. }
  split.
  { eexists. split; [|split; [|split; [|reflexivity]]].
    - lia.
    - by intros n ->.
    - intros Hno. destruct limit as [[]|]; try done. by destruct (Hno z). }
  split; [reflexivity|]. split.
  - intros cursor2 limit2 mapping2 seenAt2 stampedAt2 now2 page2 Hcur2 Hsoon.
    unfold handleFetchHistory.
    rewrite (getClientInfo_cached _ _ _ _ _ _ (fetched_lookup ws c now r)).
    destruct (cursorFields cursor2) as [[t2 i2]|]; [|done].
    cbn [cl_lastFetchHistoryAt].
    assert (negb (now =? 0) && (now2 - now <? 200) = true) as ->; [|done].
    apply andb_true_iff. split; [|by apply Z.ltb_lt].
    apply negb_true_iff. by apply Z.eqb_neq.
  - intros cursor3 limit3 mapping3 seenAt3 stampedAt3 now3 page3 Hcur3 Hlate.
    unfold handleFetchHistory.
    rewrite (getClientInfo_cached _ _ _ _ _ _ (fetched_lookup ws c now r)).
    destruct (cursorFields cursor3) as [[t3 i3]|]; [|done].
    cbn [cl_lastFetchHistoryAt].
    assert (negb (now =? 0) && (now3 - now <? 200) = false) as ->.
    { apply andb_false_iff. right. apply Z.ltb_ge. lia. }
    cbn [fst]. by do 3 eexists.
Qed.

Lemma fetch_history_is_rate_limited_witness :
  let served :=
    handleFetchHistory 3%nat (Some SessionFixtures.historyCursor) None None 0 0 1000
      SessionFixtures.historyOf SessionFixtures.subscribed in
  served.1
  = history_page [Fixtures.event "token" (Some "m1") None] true (Some (80, "e3"))
  /\ handleFetchHistory 3%nat (Some SessionFixtures.historyCursor) None None 0 0 1100
       SessionFixtures.historyOf served.2
     = (history_error "RATE_LIMITED" "Too many requests", served.2)
  /\ exists items hasMore position,
       (handleFetchHistory 3%nat (Some SessionFixtures.historyCursor) None None 0 0
          1200 SessionFixtures.historyOf served.2).1
       = history_page items hasMore position.
Proof.
  intros served.
  assert (clients SessionFixtures.subscribed !! 3%nat
          = Some (mkClient "p1" "alice" "Alice" None "active" 0 "client-1" None)) as Hc
    by (vm_compute; reflexivity).
  pose proof (fetch_history_is_rate_limited 3%nat _ (Some SessionFixtures.historyCursor)
                None 100 "e5" None 0 0 1000 SessionFixtures.historyOf
                SessionFixtures.subscribed Hc eq_refl ltac:(discriminate)
                ltac:(discriminate)) as Hf.
  fold served in Hf. destruct served as [frame r1].
  destruct Hf as ((limit' & _ & _ & _ & Hframe) & _ & Hsoon & Hlater).
  split; [exact Hframe|]. split.
  - apply Hsoon; [discriminate|lia].
  - apply Hlater; [discriminate|lia].
Defined.

End HistoryFacts.

Module SocketFacts.
Import JsString Repository SandboxHandler SessionDO SandboxHandlerFacts.

Section WithModels.
Context `{Models}.

Lemma processMessageQueue_sandbox now s :
  sandbox (processMessageQueue now s) = sandbox s.
Proof. unfold processMessageQueue. frame. Qed.

(** What an accepted upgrade leaves behind, whatever runs after its await
    among the steps that leave the socket and the Sandbox row alone. *)
Lemma upgrade_accepted authHeader sandboxId ws now s s' :
  handleSandboxWebSocketUpgrade authHeader sandboxId ws now s = (Switching101, s') ->
  sandboxSocket s' = Some ws
  /\ sb_status <$> sandbox s' = (fun _ => "ready") <$> sandbox s.
Proof.
  unfold handleSandboxWebSocketUpgrade, handleSandboxWebSocketUpgrade_with.
  repeat case_match; try discriminate; intros [= <-];
    rewrite processMessageQueue_sandboxSocket, processMessageQueue_sandbox;
    fields; (split; [reflexivity|]); by destruct (sandbox s).
Qed.

Lemma upgrade_rejected authHeader sandboxId ws now s st s' :
  handleSandboxWebSocketUpgrade authHeader sandboxId ws now s = (st, s') ->
  st <> Switching101 -> s' = s.
Proof.
  unfold handleSandboxWebSocketUpgrade, handleSandboxWebSocketUpgrade_with.
  repeat case_match; intros [= <- <-]; congruence.
Qed.

(** X17: a sandbox that reconnects.  When an upgrade is accepted while an
    older sandbox socket is still registered, the new socket takes its
    place and the Sandbox is ready; the close of the older socket that
    arrives afterwards, with whatever code, changes nothing: the new
    socket stays registered and the Sandbox status is not touched. *)
Theorem close_of_replaced_socket_is_ignored authHeader sandboxId
  (old new : Socket) now (code : Z) s s' :
  sandboxSocket s = Some old ->
  old <> new ->
  handleSandboxWebSocketUpgrade authHeader sandboxId new now s = (Switching101, s') ->
  sandboxSocket s' = Some new
  /\ sb_status <$> sandbox s' = (fun _ => "ready") <$> sandbox s
  /\ webSocketClose old code s' = s'.
Proof.
  intros _ Hne Hup. destruct (upgrade_accepted _ _ _ _ _ _ Hup) as [Hsock Hst].
  split; [done|]. split; [done|].
  unfold webSocketClose. rewrite Hsock.
  rewrite bool_decide_eq_false_2; [done|]. congruence.
Qed.


End WithModels.

Import Fixtures.

Lemma close_of_replaced_socket_is_ignored_witness :
  let s' :=
    (handleSandboxWebSocketUpgrade (Some "Bearer tok") None 8%nat 5
       connected).2 in
  sandboxSocket s' = Some 8%nat /\ webSocketClose 7%nat 1006 s' = s'.
Proof.
  intros s'.
  assert (handleSandboxWebSocketUpgrade (Some "Bearer tok") None 8%nat 5
            connected = (Switching101, s')) as Hup
    by (vm_compute; reflexivity).
  destruct (close_of_replaced_socket_is_ignored _ _ 7%nat 8%nat _ 1006
              connected s' eq_refl ltac:(discriminate) Hup)
    as (Hs & _ & Hc).
  split; [exact Hs | exact Hc].
Defined.


End SocketFacts.

(* ===================================================================== *)
(** ** The push handshake: timeout and superseded pushes                   *)
(* ===================================================================== *)

Module PushFacts.
Import JsString Repository SandboxHandler SessionDO JsStringFacts SandboxHandlerFacts.

Section WithModels.
Context `{Models}.

Lemma handlePushEvent_unregistered (event : SandboxEvent) (branchName : string)
  (s : State) :
  ev_branchName event = Some branchName ->
  pendingPushResolvers s !! normalizeBranchName branchName = None ->
  handlePushEvent event s = s.
Proof.
  intros Hb Hr. unfold handlePushEvent. rewrite Hb.
  destruct (truthy branchName); [|done]. cbn [negb]. by rewrite Hr.
Qed.

Lemma processSandboxEvent_push_promises now eventId event s :
  ev_type event = "push_complete" \/ ev_type event = "push_error" ->
  promises (processSandboxEvent now eventId event s)
  = promises (handlePushEvent event
                (createEvent (mkEventRow eventId (ev_type event) event
                                (attributedMessage event s) now) s))
  /\ pendingPushResolvers (processSandboxEvent now eventId event s)
     = pendingPushResolvers
         (handlePushEvent event
            (createEvent (mkEventRow eventId (ev_type event) event
                            (attributedMessage event s) now) s)).
Proof. intros Ht. by rewrite processSandboxEvent_push. Qed.

(** X19: when the timer of a push fires while its resolver is still
    registered, the push fails with the time-out error and the resolver is
    removed; a [push_complete] for the branch that arrives afterwards is
    logged like any event but settles nothing. *)
Theorem push_times_out (b b' : string) (pushSpec : GitPushSpec) (ws : Socket)
  now eventId (late : SandboxEvent) (s : State) :
  sandboxSocket s = Some ws ->
  ev_type late = "push_complete" ->
  ev_branchName late = Some b' ->
  normalizeBranchName b' = normalizeBranchName b ->
  exists pid s1,
    pushBranchToRemote_start b pushSpec s
    = (PushAwaiting pid (normalizeBranchName b), s1)
    /\ let s2 := pushTimeout pid (normalizeBranchName b) s1 in
       promises s2 !! pid = Some (Rejected "Push operation timed out after 180 seconds")
       /\ promises s2 !! pid ≫= pushBranchToRemote_finish
          = Some (PushFailure ("Failed to push branch: Error: Push operation timed out after 180 seconds"))
       /\ pendingPushResolvers s2 !! normalizeBranchName b = None
       /\ let s3 := processSandboxEvent now eventId late s2 in
          promises s3 = promises s2
          /\ pendingPushResolvers s3 = pendingPushResolvers s2
          /\ length (events s3) = S (length (events s2)).
Proof.
  intros Hs Ht Hb Hn.
  destruct (pushBranchToRemote_start_registers b pushSpec ws s Hs)
    as (s1 & Hstart & Hreg & Hprom & _).
  exists (length (promises s)), s1. split; [done|].
  assert (promises s1 !! length (promises s) = Some Pending) as Hpend.
  { rewrite Hprom, lookup_app_r by done. by rewrite Nat.sub_diag. }
  set (s2 := pushTimeout (length (promises s)) (normalizeBranchName b) s1).
  assert (promises s2 !! length (promises s) = Some (Rejected "Push operation timed out after 180 seconds")
          /\ pendingPushResolvers s2 !! normalizeBranchName b = None) as [Hrej Hgone].
  { unfold s2, pushTimeout. rewrite Hreg. split.
    - by apply settle_pending.
    - unfold settle. fields. rewrite Hpend. fields. apply lookup_delete_eq. }
  cbn zeta. split; [done|]. split; [by rewrite Hrej|]. split; [done|].
  destruct (processSandboxEvent_push_promises now eventId late s2 (or_introl Ht))
    as [-> ->].
  rewrite (handlePushEvent_unregistered late b'); [| done | by rewrite Hn].
  split; [done|]. split; [done|].
  rewrite processSandboxEvent_events by (rewrite Ht; discriminate).
  rewrite length_app. simpl. lia.
Qed.

(** X20: a second push for the same normalized branch takes over the
    resolver of the first.  A [push_complete] for the branch then settles
    the second push only; the first stays pending, and when its timer
    fires afterwards it finds no resolver and leaves it pending. *)
Theorem second_push_takes_over_resolver (b1 b2 b' : string)
  (spec1 spec2 : GitPushSpec) (ws : Socket) now eventId (complete : SandboxEvent)
  (s : State) :
  sandboxSocket s = Some ws ->
  normalizeBranchName b2 = normalizeBranchName b1 ->
  ev_type complete = "push_complete" ->
  ev_branchName complete = Some b' -> b' <> "" ->
  normalizeBranchName b' = normalizeBranchName b1 ->
  exists pid1 pid2 s1 s2,
    pushBranchToRemote_start b1 spec1 s
    = (PushAwaiting pid1 (normalizeBranchName b1), s1)
    /\ pushBranchToRemote_start b2 spec2 s1
       = (PushAwaiting pid2 (normalizeBranchName b1), s2)
    /\ pid1 <> pid2
    /\ pendingPushResolvers s2 !! normalizeBranchName b1 = Some pid2
    /\ let s3 := processSandboxEvent now eventId complete s2 in
       promises s3 !! pid2 = Some Resolved
       /\ promises s3 !! pid1 = Some Pending
       /\ pushTimeout pid1 (normalizeBranchName b1) s3 = s3.
Proof.
  intros Hs Hn2 Ht Hb Hne Hn.
  destruct (pushBranchToRemote_start_registers b1 spec1 ws s Hs)
    as (s1 & Hstart1 & Hreg1 & Hprom1 & _).
  assert (sandboxSocket s1 = Some ws) as Hs1.
  { revert Hstart1. unfold pushBranchToRemote_start. rewrite Hs.
    intros [= <-]. fields. exact Hs. }
  destruct (pushBranchToRemote_start_registers b2 spec2 ws s1 Hs1)
    as (s2 & Hstart2 & Hreg2 & Hprom2 & _).
  rewrite Hn2 in Hstart2, Hreg2.
  exists (length (promises s)), (length (promises s1)), s1, s2.
  split; [done|]. split; [done|].
  assert (length (promises s1) = S (length (promises s))) as Hlen.
  { rewrite Hprom1, length_app. simpl. lia. }
  split; [lia|]. split; [done|].
  assert (promises s2 !! length (promises s1) = Some Pending) as Hpend2.
  { rewrite Hprom2, lookup_app_r by done. by rewrite Nat.sub_diag. }
  assert (promises s2 !! length (promises s) = Some Pending) as Hpend1.
  { rewrite Hprom2, lookup_app_l by lia.
    rewrite Hprom1, lookup_app_r by done. by rewrite Nat.sub_diag. }
  cbn zeta.
  destruct (processSandboxEvent_push_promises now eventId complete s2 (or_introl Ht))
    as [Hp Hr].
  set (row := mkEventRow eventId (ev_type complete) complete (attributedMessage complete s2) now)
    in *.
  set (settled := settle (length (promises s1)) Resolved (createEvent row s2)).
  assert (handlePushEvent complete (createEvent row s2)
          = with_pendingPushResolvers
              (delete (normalizeBranchName b1) (pendingPushResolvers settled))
              settled) as Hh.
  { unfold handlePushEvent. rewrite Hb, (truthy_nonempty _ Hne), Hn. cbn [negb].
    fields. rewrite Hreg2, Ht. reflexivity. }
  assert (promises (processSandboxEvent now eventId complete s2)
          = <[length (promises s1) := Resolved]> (promises s2)) as Hprom3.
  { rewrite Hp, Hh. fields. unfold settled, settle. fields. rewrite Hpend2.
    reflexivity. }
  split.
  { rewrite Hprom3. apply list_lookup_insert_eq. by eapply lookup_lt_Some. }
  split.
  { rewrite Hprom3, list_lookup_insert_ne by lia. done. }
  unfold pushTimeout. rewrite Hr, Hh. fields.
  by rewrite lookup_delete_eq.
Qed.

End WithModels.

Import Fixtures.

Lemma push_times_out_witness :
  exists pid s1,
    pushBranchToRemote_start "Feature/X" "spec" connected
    = (PushAwaiting pid "feature/x", s1)
    /\ promises (pushTimeout pid "feature/x" s1) !! pid
       = Some (Rejected "Push operation timed out after 180 seconds")
    /\ promises
         (processSandboxEvent 9 "e1"
            (event "push_complete" None (Some " feature/x "))
            (pushTimeout pid "feature/x" s1))
       = promises (pushTimeout pid "feature/x" s1).
Proof.
  assert (normalizeBranchName " feature/x " = normalizeBranchName "Feature/X") as Hn
    by (vm_compute; reflexivity).
  destruct (push_times_out "Feature/X" " feature/x " "spec" 7%nat 9 "e1"
              (event "push_complete" None (Some " feature/x "))
              connected eq_refl eq_refl eq_refl Hn)
    as (pid & s1 & Hstart & Hrej & _ & _ & Hlate & _).
  exists pid, s1. split; [exact Hstart|]. split; [exact Hrej | exact Hlate].
Defined.

Lemma second_push_takes_over_resolver_witness :
  exists pid1 pid2 s1 s2,
    pushBranchToRemote_start "Feature/X" "spec-1" connected
    = (PushAwaiting pid1 "feature/x", s1)
    /\ pushBranchToRemote_start "feature/x " "spec-2" s1
       = (PushAwaiting pid2 "feature/x", s2)
    /\ let s3 :=
         processSandboxEvent 9 "e1"
           (event "push_complete" None (Some "feature/x")) s2 in
       promises s3 !! pid2 = Some Resolved
       /\ promises s3 !! pid1 = Some Pending
       /\ pushTimeout pid1 "feature/x" s3 = s3.
Proof.
  assert (normalizeBranchName "feature/x " = normalizeBranchName "Feature/X") as Hn2
    by (vm_compute; reflexivity).
  assert (normalizeBranchName "feature/x" = normalizeBranchName "Feature/X") as Hn
    by (vm_compute; reflexivity).
  destruct (second_push_takes_over_resolver "Feature/X" "feature/x " "feature/x"
              "spec-1" "spec-2" 7%nat 9 "e1"
              (event "push_complete" None (Some "feature/x"))
              connected eq_refl Hn2 eq_refl eq_refl ltac:(discriminate) Hn)
    as (pid1 & pid2 & s1 & s2 & Hstart1 & Hstart2 & _ & _ & Hafter).
  exists pid1, pid2, s1, s2. split; [exact Hstart1|]. split; [exact Hstart2|].
  exact Hafter.
Defined.

End PushFacts.

(* ===================================================================== *)
(** ** The prompt queue: dispatch, progress, and what events leave alone   *)
(* ===================================================================== *)

Module QueueProgressFacts.
Import JsString Repository SandboxHandler SessionDO SandboxHandlerFacts QueueFacts
  FindFacts.

(** Completing the Message that is processing leaves none processing. *)
Lemma none_processing_after_completion (M : list MessageRow) (p : MessageRow)
  (st : MessageStatus) (now : Z) :
  (forall a, In a M -> status a = processing -> msg_id a = msg_id p) ->
  st <> processing ->
  find (fun m => bool_decide (status m = processing)) (map (markCompletion (msg_id p) st now) M) = None.
Proof.
  intros Hone Hst. apply find_all_false. intros x Hx.
  apply in_map_iff in Hx as (y & <- & Hy).
  apply bool_decide_eq_false. unfold markCompletion.
  destruct (String.eqb_spec (msg_id y) (msg_id p)) as [He|Hne]; [done|].
  intros Hp. by destruct Hne, (Hone y Hy Hp).
Qed.

(** Completing a Message that is not pending leaves the pending ones. *)
Lemma pending_after_completion (M : list MessageRow) (p : MessageRow)
  (st : MessageStatus) (now : Z) :
  (forall a, In a M -> msg_id a = msg_id p -> status a <> pending) ->
  st <> pending ->
  find (fun m => bool_decide (status m = pending)) (map (markCompletion (msg_id p) st now) M) = find (fun m => bool_decide (status m = pending)) M.
Proof.
  intros Hp Hst. induction M as [|x M IH]; [done|]. cbn [map find].
  assert (find (fun m => bool_decide (status m = pending)) (map (markCompletion (msg_id p) st now) M)
          = find (fun m => bool_decide (status m = pending)) M) as IH'.
  { apply IH. intros a Ha. apply Hp. by right. }
  rewrite IH'. unfold markCompletion.
  destruct (String.eqb_spec (msg_id x) (msg_id p)) as [He|Hne]; [|done].
  cbn [status]. rewrite !bool_decide_eq_false_2; [done| |done].
  apply (Hp x); [by left|done].
Qed.

Section WithModels.
Context `{Models}.

Lemma processMessageQueue_participants now s :
  participants (processMessageQueue now s) = participants s.
Proof. unfold processMessageQueue. frame. Qed.

Lemma processMessageQueue_ids now s :
  map msg_id (messages (processMessageQueue now s)) = map msg_id (messages s).
Proof.
  unfold processMessageQueue.
  destruct (getProcessingMessage s); [done|].
  destruct (getNextPendingMessage s); [|done].
  destruct (sandboxSocket s); [|done].
  cbv zeta. fields. apply map_markProcessing_ids.
Qed.

Lemma handlePushEvent_participants event s :
  participants (handlePushEvent event s) = participants s.
Proof. unfold handlePushEvent. frame. Qed.

Lemma handlePushEvent_artifacts event s :
  artifacts (handlePushEvent event s) = artifacts s.
Proof. unfold handlePushEvent. frame. Qed.

Lemma handlePushEvent_sandboxSocket event s :
  sandboxSocket (handlePushEvent event s) = sandboxSocket s.
Proof. unfold handlePushEvent. frame. Qed.

(** X21: what a sandbox event leaves alone.  No event creates, removes or
    reorders a Message, and none touches the participants or the
    artifacts; an event other than [execution_complete] leaves every
    Message exactly as it is, and the sandbox socket as well. *)
Theorem sandbox_event_leaves_rows now eventId event s :
  let s' := processSandboxEvent now eventId event s in
  participants s' = participants s
  /\ artifacts s' = artifacts s
  /\ map msg_id (messages s') = map msg_id (messages s)
  /\ (ev_type event <> "execution_complete" ->
      messages s' = messages s /\ sandboxSocket s' = sandboxSocket s).
Proof.
  intros s'. unfold s', processSandboxEvent, processSandboxEvent_with.
  destruct (String.eqb (ev_type event) "heartbeat"); [by repeat split|].
  cbv zeta.
  destruct (String.eqb_spec (ev_type event) "execution_complete") as [Ht|Ht].
  - rewrite processMessageQueue_participants, processMessageQueue_artifacts,
      processMessageQueue_ids.
    split; [frame|]. split; [frame|]. split; [|done].
    fields.
    destruct (nullish (ev_messageId event) (msg_id <$> getProcessingMessage s))
      as [id|]; [|done].
    destruct (getProcessingMessage s) as [p|]; [|done].
    destruct (String.eqb (msg_id p) id); [|done].
    fields. apply map_markCompletion_ids.
  - fields.
    assert (forall t,
              participants (if String.eqb (ev_type event) "push_complete"
                               || String.eqb (ev_type event) "push_error"
                            then handlePushEvent event t else t) = participants t
              /\ artifacts (if String.eqb (ev_type event) "push_complete"
                               || String.eqb (ev_type event) "push_error"
                            then handlePushEvent event t else t) = artifacts t
              /\ messages (if String.eqb (ev_type event) "push_complete"
                              || String.eqb (ev_type event) "push_error"
                           then handlePushEvent event t else t) = messages t
              /\ sandboxSocket (if String.eqb (ev_type event) "push_complete"
                                   || String.eqb (ev_type event) "push_error"
                                then handlePushEvent event t else t)
                 = sandboxSocket t) as Hpush.
    { intros t. destruct (_ || _); [|done].
      by rewrite handlePushEvent_participants, handlePushEvent_artifacts,
        handlePushEvent_messages, handlePushEvent_sandboxSocket. }
    match goal with
    | |- context [if _ || _ then handlePushEvent event ?t else ?t] =>
        destruct (Hpush t) as (-> & -> & Hm & Hs)
    end.
    rewrite Hm, Hs.
    split; [frame|]. split; [frame|]. split; [f_equal; frame|].
    intros _. split; frame.
Qed.

(** With a sandbox socket and nothing in flight, the queue hands the
    oldest pending Message to the sandbox. *)
Lemma processMessageQueue_dispatch now s q ws :
  NoDup (map msg_id (messages s)) ->
  getProcessingMessage s = None ->
  getNextPendingMessage s = Some q ->
  sandboxSocket s = Some ws ->
  getProcessingMessage (processMessageQueue now s) = Some (started q now)
  /\ messages (processMessageQueue now s)
     = map (markProcessing (msg_id q) now) (messages s)
  /\ exists model effort author att,
       effects (processMessageQueue now s)
       = (effects s
          ++ [Broadcast (sm_processing_status true); UpdateLastActivity now;
              Send ws (cmd_prompt (msg_id q) (content q) model effort author att)])%list.
Proof.
  intros Hnd Hnone Hnext Hws.
  assert (forall m, In m (messages s) -> status m <> processing) as Hidle.
  { intros m. by apply getProcessingMessage_None. }
  destruct (getNextPendingMessage_split _ _ Hnext) as (l1 & l2 & Hm & _ & _).
  unfold processMessageQueue. rewrite Hnone, Hnext, Hws. cbv zeta.
  split; [|split].
  - unfold getProcessingMessage. fields. rewrite Hm in Hnd, Hidle |- *.
    rewrite (map_markProcessing_split _ _ _ _ Hnd).
    rewrite find_app_none.
    + cbn [find started status]. by rewrite bool_decide_eq_true_2.
    + apply find_all_false. intros x Hx. apply bool_decide_eq_false.
      apply Hidle, in_or_app. by left.
  - by fields.
  - do 4 eexists. fields. rewrite <- !app_assoc. reflexivity.
Qed.

(** Without a sandbox socket the queue asks for a sandbox and leaves the
    Messages as they are. *)
Lemma processMessageQueue_spawns now s q :
  getProcessingMessage s = None ->
  getNextPendingMessage s = Some q ->
  sandboxSocket s = None ->
  messages (processMessageQueue now s) = messages s
  /\ effects (processMessageQueue now s)
     = (effects s ++ [Broadcast sm_sandbox_spawning; SpawnSandbox])%list.
Proof.
  intros Hnone Hnext Hws. unfold processMessageQueue.
  rewrite Hnone, Hnext, Hws. fields. split; [done|].
  by rewrite <- app_assoc.
Qed.

(** Two stored Messages with the same id are the same row. *)
Lemma same_id_same_row l (a b : MessageRow) :
  NoDup (map msg_id l) -> In a l -> In b l -> msg_id a = msg_id b -> a = b.
Proof.
  intros Hnd Ha Hb Hid.
  pose proof (find_hasId_In l a Hnd Ha) as Hfa.
  pose proof (find_hasId_In l b Hnd Hb) as Hfb.
  rewrite Hid in Hfa. congruence.
Qed.

(** X22: hand-over on completion.  In a reachable state with the sandbox
    connected, a Message [p] processing and [q] the oldest pending one, the
    sandbox's [execution_complete] for [p] (named in the event, or
    unnamed) ends [p] as completed or failed by the event's success flag,
    makes [q] the processing Message with its start time set, and sends
    the sandbox a prompt command carrying [q]'s id and content as the
    last effect. *)
Theorem completion_starts_next_pending now eventId event s p q ws :
  reachable s ->
  ev_type event = "execution_complete" ->
  ev_messageId event = None \/ ev_messageId event = Some (msg_id p) ->
  getProcessingMessage s = Some p ->
  getNextPendingMessage s = Some q ->
  sandboxSocket s = Some ws ->
  let s' := processSandboxEvent now eventId event s in
  statusOf (msg_id p) s' = Some (if ev_success event then completed else failed)
  /\ getProcessingMessage s' = Some (started q now)
  /\ exists l model effort author att,
       effects s'
       = (effects s ++ l
          ++ [Send ws (cmd_prompt (msg_id q) (content q) model effort author att)])%list.
Proof.
  intros Hr Ht Hid Hp Hq Hws s'.
  destruct (reachable_wellFormed _ Hr) as (Hnd & Hsf & _).
  destruct (getProcessingMessage_Some _ _ Hp) as [Hpin Hpst].
  destruct (getNextPendingMessage_Some _ _ Hq) as [Hqin Hqst].
  set (st := if ev_success event then completed else failed).
  assert (st <> processing /\ st <> pending) as [Hst1 Hst2].
  { unfold st. by destruct (ev_success event). }
  set (row := mkEventRow eventId (ev_type event) event (Some (msg_id p)) now).
  set (handled :=
         emit (NotifySlackBot (msg_id p) (ev_success event))
           (broadcast
              (sm_processing_status
                 (bool_decide
                    (getProcessingMessage
                       (broadcast (sm_sandbox_event event)
                          (updateMessageCompletion (msg_id p) st now
                             (createEvent row s))) <> None)))
              (broadcast (sm_sandbox_event event)
                 (updateMessageCompletion (msg_id p) st now (createEvent row s))))).
  set (s5 := emit ScheduleInactivityCheck
               (emit (UpdateLastActivity now)
                  (emit (TriggerSnapshot "execution_complete") handled))).
  assert (s' = processMessageQueue now s5) as Hs'.
  { unfold s', processSandboxEvent, processSandboxEvent_with.
    assert (String.eqb (ev_type event) "heartbeat" = false) as -> by (by rewrite Ht).
    assert (String.eqb (ev_type event) "execution_complete" = true) as ->
      by (by rewrite Ht).
    rewrite Hp. cbn [fmap option_fmap option_map]. cbv zeta.
    assert (nullish (ev_messageId event) (Some (msg_id p)) = Some (msg_id p)) as ->.
    { by destruct Hid as [-> | ->]. }
    by rewrite String.eqb_refl. }
  assert (messages s5 = map (markCompletion (msg_id p) st now) (messages s)) as Hm5.
  { unfold s5, handled. by fields. }
  assert (exists l5, effects s5 = (effects s ++ l5)%list) as [l5 He5].
  { unfold s5, handled. fields. rewrite <- !app_assoc. by eexists. }
  assert (sandboxSocket s5 = Some ws) as Hws5.
  { unfold s5, handled. by fields. }
  assert (getProcessingMessage s5 = None) as Hnone5.
  { unfold getProcessingMessage. rewrite Hm5.
    apply none_processing_after_completion; [|done].
    intros a Ha Hast. by apply Hsf. }
  assert (getNextPendingMessage s5 = Some q) as Hq5.
  { unfold getNextPendingMessage. rewrite Hm5.
    rewrite pending_after_completion; [exact Hq| |done].
    intros a Ha Haid. rewrite (same_id_same_row _ a p Hnd Ha Hpin Haid), Hpst.
    done. }
  assert (NoDup (map msg_id (messages s5))) as Hnd5.
  { by rewrite Hm5, map_markCompletion_ids. }
  destruct (processMessageQueue_dispatch now s5 q ws Hnd5 Hnone5 Hq5 Hws5)
    as (Hproc & Hmsgs & model & effort & author & att & Heff).
  rewrite Hs'. split; [|split].
  - rewrite statusOf_unfold, Hmsgs, Hm5, find_hasId_markProcessing.
    destruct (String.eqb_spec (msg_id p) (msg_id q)) as [Hpq|_].
    { pose proof (same_id_same_row _ p q Hnd Hpin Hqin Hpq) as Heq.
      rewrite Heq, Hqst in Hpst. discriminate. }
    rewrite find_hasId_markCompletion, String.eqb_refl.
    by rewrite (find_hasId_In _ _ Hnd Hpin).
  - exact Hproc.
  - exists (l5 ++ [Broadcast (sm_processing_status true); UpdateLastActivity now])%list,
      model, effort, author, att.
    rewrite Heff, He5, <- !app_assoc. reflexivity.
Qed.

(** X23: a prompt that arrives while a Message is processing waits.  The
    client's prompt is stored last in the table with status pending, under
    the generated id and with the client's content; the processing
    Message stays the processing one; the client is told its queue
    position, the number of pending and processing Messages before it plus
    one; and besides the user-message broadcast and that reply nothing is
    emitted: no command goes to the sandbox and no sandbox is spawned. *)
Theorem prompt_waits_behind_processing_message ws client data ids now s p :
  getProcessingMessage s = Some p ->
  let s' := handlePromptMessage ws (Some client) data ids now s in
  (exists row,
      messages s' = (messages s ++ [row])%list
      /\ msg_id row = pi_message ids
      /\ content row = cp_content data
      /\ status row = pending
      /\ created_at row = now)
  /\ getProcessingMessage s' = Some p
  /\ effects s'
     = (effects s
        ++ [Broadcast
              (sm_sandbox_event
                 (mkSandboxEvent "user_message" (Some (pi_message ids)) false None
                    None None None None (Some now) (Some (cp_content data))));
            Reply ws
              (sm_prompt_queued (pi_message ids)
                 (S (getPendingOrProcessingCount s)))])%list.
Proof.
  intros Hp s'. unfold s', handlePromptMessage.
  set (found := match getParticipantByUserId (ci_userId client) s with
                | Some p0 => (p0, s)
                | None => createParticipantRecord (pi_participant ids)
                            (ci_userId client) (ci_name client) now s
                end).
  assert (messages found.2 = messages s /\ effects found.2 = effects s) as [Hm He].
  { unfold found. by destruct (getParticipantByUserId _ s). }
  destruct found as [participant s1]. cbn [snd] in Hm, He. cbv zeta.
  match goal with
  | |- context [processMessageQueue now ?t] =>
      assert (getProcessingMessage t = Some p) as Hbusy
  end.
  { unfold getProcessingMessage, writeUserMessageEvent. fields. rewrite Hm.
    by apply find_app_some. }
  rewrite (processMessageQueue_noop _ _ _ Hbusy).
  unfold writeUserMessageEvent in *. fields. rewrite Hm, He.
  split; [eexists; by repeat split|]. split; [exact Hbusy|].
  rewrite <- !app_assoc. cbn [app]. do 3 f_equal.
  unfold getPendingOrProcessingCount. fields. rewrite Hm.
  rewrite List.filter_app, length_app. cbn [List.filter status].
  rewrite bool_decide_eq_true_2 by done. cbn [orb length].
  by rewrite Nat.add_1_r.
Qed.

(** X24: a prompt on an idle session is dispatched at once.  With the
    sandbox connected, no Message processing or pending, distinct message
    ids and a fresh generated id, [POST /internal/prompt] stores the
    Message and makes it the processing one in the same step, started at
    the time of the request, and the last effect is the prompt command
    sent to the sandbox with that id and the request's content.  Without a
    sandbox socket the Message stays pending and a sandbox is spawned. *)
Theorem idle_prompt_is_dispatched_or_spawns body ids now s :
  NoDup (map msg_id (messages s)) ->
  pi_message ids ∉ map msg_id (messages s) ->
  getProcessingMessage s = None ->
  getNextPendingMessage s = None ->
  let s' := handleEnqueuePrompt body ids now s in
  match sandboxSocket s with
  | Some ws =>
      (exists row,
          getProcessingMessage s' = Some row
          /\ messages s' = (messages s ++ [row])%list
          /\ msg_id row = pi_message ids
          /\ content row = pb_content body
          /\ started_at row = Some now)
      /\ exists l model effort author att,
           effects s'
           = (effects s ++ l
              ++ [Send ws (cmd_prompt (pi_message ids) (pb_content body) model
                             effort author att)])%list
  | None =>
      statusOf (pi_message ids) s' = Some pending
      /\ getProcessingMessage s' = None
      /\ exists l,
           effects s'
           = (effects s ++ l ++ [Broadcast sm_sandbox_spawning; SpawnSandbox])%list
  end.
Proof.
  intros Hnd Hfresh Hnone Hnopending s'. unfold s', handleEnqueuePrompt.
  set (found := match getParticipantByUserId (pb_authorId body) s with
                | Some p0 => (p0, s)
                | None => createParticipantRecord (pi_participant ids)
                            (pb_authorId body) (pb_authorId body) now s
                end).
  assert (messages found.2 = messages s /\ effects found.2 = effects s
          /\ sandboxSocket found.2 = sandboxSocket s) as (Hm & He & Hw).
  { unfold found. by destruct (getParticipantByUserId _ s). }
  destruct found as [participant s1]. cbn [snd] in Hm, He, Hw. cbv zeta.
  match goal with
  | |- context [createMessage ?r s1] => set (row := r)
  end.
  set (s3 := writeUserMessageEvent (pi_event ids) participant (pb_content body)
               (pi_message ids) now (createMessage row s1)).
  assert (messages s3 = (messages s ++ [row])%list) as Hm3.
  { unfold s3, writeUserMessageEvent. fields. by rewrite Hm. }
  assert (exists e, effects s3 = (effects s ++ [e])%list) as [e He3].
  { unfold s3, writeUserMessageEvent. fields. rewrite He. by eexists. }
  assert (sandboxSocket s3 = sandboxSocket s) as Hw3.
  { unfold s3, writeUserMessageEvent. by fields. }
  assert (getProcessingMessage s3 = None) as Hnone3.
  { unfold getProcessingMessage. rewrite Hm3.
    rewrite find_app_none by exact Hnone. cbn [find row status].
    by rewrite bool_decide_eq_false_2. }
  assert (getNextPendingMessage s3 = Some row) as Hnext3.
  { unfold getNextPendingMessage. rewrite Hm3.
    rewrite find_app_none by exact Hnopending. cbn [find row status].
    by rewrite bool_decide_eq_true_2. }
  assert (NoDup (map msg_id (messages s3))) as Hnd3.
  { rewrite Hm3, map_app. apply NoDup_app. split; [done|]. split.
    - intros x Hx Hx'. cbn in Hx'. apply list_elem_of_singleton in Hx' as ->.
      by apply Hfresh.
    - apply NoDup_singleton. }
  destruct (sandboxSocket s) as [ws|] eqn:Hws.
  - destruct (processMessageQueue_dispatch now s3 row ws Hnd3 Hnone3 Hnext3 Hw3)
      as (Hproc & Hmsgs & model & effort & author & att & Heff).
    split.
    + exists (started row now). split; [exact Hproc|]. split; [|done].
      rewrite Hmsgs, Hm3. rewrite Hm3 in Hnd3.
      exact (map_markProcessing_split (messages s) row [] now Hnd3).
    + exists [e; Broadcast (sm_processing_status true); UpdateLastActivity now],
        model, effort, author, att.
      rewrite Heff, He3, <- !app_assoc. reflexivity.
  - destruct (processMessageQueue_spawns now s3 row Hnone3 Hnext3 Hw3)
      as [Hmsgs Heff].
    split; [|split].
    + rewrite statusOf_unfold, Hmsgs, Hm3.
      assert (In row (messages s ++ [row])) as Hin by (apply in_or_app; right; by left).
      rewrite <- Hm3 in Hin |- *.
      pose proof (find_hasId_In _ row Hnd3 Hin) as Hf.
      change (msg_id row) with (pi_message ids) in Hf. by rewrite Hf.
    + unfold getProcessingMessage. rewrite Hmsgs. exact Hnone3.
    + exists [e]. by rewrite Heff, He3, <- !app_assoc.
Qed.

End WithModels.

Import Fixtures SessionFixtures.

Lemma queued_reachable : reachable queued.
Proof.
  unfold queued. apply reaches_step; [exact running_reachable|].
  cbn [admissible]. rewrite list_elem_of_In. vm_compute.
  intros [Hm|[]]. discriminate Hm.
Defined.

Lemma completion_starts_next_pending_witness :
  let s' :=
    processSandboxEvent 9 "e3" (event "execution_complete" (Some "m1") None) queued in
  statusOf "m1" s' = Some completed
  /\ getProcessingMessage s'
     = Some (mkMessageRow "m2" "p8" "next" "web" None None None None processing 2
               (Some 9) None)
  /\ exists l model effort author att,
       effects s'
       = (effects queued ++ l
          ++ [Send 7%nat (cmd_prompt "m2" "next" model effort author att)])%list.
Proof.
  intros s'.
  assert (getProcessingMessage queued
          = Some (mkMessageRow "m1" "p9" "hi" "web" None None None None processing 1
                    (Some 1) None)) as Hp by (vm_compute; reflexivity).
  assert (getNextPendingMessage queued
          = Some (mkMessageRow "m2" "p8" "next" "web" None None None None pending 2
                    None None)) as Hq by (vm_compute; reflexivity).
  exact (completion_starts_next_pending 9 "e3"
           (event "execution_complete" (Some "m1") None) queued
           (mkMessageRow "m1" "p9" "hi" "web" None None None None processing 1
              (Some 1) None)
           (mkMessageRow "m2" "p8" "next" "web" None None None None pending 2
              None None)
           7%nat queued_reachable eq_refl (or_intror eq_refl) Hp Hq eq_refl).
Defined.

Lemma prompt_waits_behind_processing_message_witness :
  let s' :=
    handlePromptMessage 4%nat (Some (mkClientInfo "bob" "Bob"))
      (mkClientPromptData "more" None None None) (mkPromptIds "p8" "m2" "e2") 3
      running in
  getProcessingMessage s' = getProcessingMessage running
  /\ statusOf "m2" s' = Some pending
  /\ last (effects s') = Some (Reply 4%nat (sm_prompt_queued "m2" 2)).
Proof.
  intros s'.
  assert (getProcessingMessage running
          = Some (mkMessageRow "m1" "p9" "hi" "web" None None None None processing 1
                    (Some 1) None)) as Hp by (vm_compute; reflexivity).
  destruct (prompt_waits_behind_processing_message 4%nat (mkClientInfo "bob" "Bob")
              (mkClientPromptData "more" None None None) (mkPromptIds "p8" "m2" "e2")
              3 running _ Hp) as ((row & Hm & Hid & _ & Hst & _) & Hproc & Heff).
  fold s' in Hm, Hproc, Heff.
  split; [by rewrite Hproc, Hp|]. split.
  - rewrite statusOf_unfold, Hm.
    assert (find (hasId "m2") (messages running) = None) as Hnone
      by (vm_compute; reflexivity).
    rewrite find_app_none by exact Hnone. cbn [find]. unfold hasId.
    rewrite Hid. cbn [pi_message]. rewrite String.eqb_refl.
    cbn [fmap option_fmap option_map]. by rewrite Hst.
  - rewrite Heff. rewrite last_app. reflexivity.
Defined.

Lemma idle_prompt_is_dispatched_or_spawns_witness :
  let s' :=
    handleEnqueuePrompt (prompt "hi" "alice") (mkPromptIds "p9" "m1" "e1") 1
      connected in
  exists row,
    getProcessingMessage s' = Some row
    /\ messages s' = [row]
    /\ msg_id row = "m1" /\ content row = "hi" /\ started_at row = Some 1.
Proof.
  intros s'.
  destruct (idle_prompt_is_dispatched_or_spawns (prompt "hi" "alice")
              (mkPromptIds "p9" "m1" "e1") 1 connected NoDup_nil_2
              (not_elem_of_nil _) eq_refl eq_refl) as [Hrow _].
  exact Hrow.
Defined.

End QueueProgressFacts.

(* ===================================================================== *)
(** ** The create-PR route: what it stores, and the path to a pull request *)
(* ===================================================================== *)

Module CreatePrOutcomeFacts.
Import JsString Repository SandboxHandler CreatePr CreatePrOutcome
  SandboxHandlerFacts CreatePrFacts FindFacts.

Section WithCollaborators.
Context `{SourceControlProvider} `{BranchNaming}.
Variable env : Env.

Lemma fallback_storedBy b arts artifactId now s t1 s1 :
  fallback b arts artifactId now s = (t1, s1) ->
  storedBy artifactId now t1 (artifacts s) (artifacts s1).
Proof.
  unfold fallback, buildManualPrFallbackResponse.
  destruct (getExistingManualBranchArtifact _ _); intros [= <- <-]; cbn [storedBy].
  - by left.
  - right. fields. by eexists.
Qed.

Lemma afterPush_storedBy b pushResult artifactId now s t1 s1 :
  afterPush env b pushResult artifactId now s = (t1, s1) ->
  storedBy artifactId now t1 (artifacts s) (artifacts s1).
Proof.
  unfold afterPush, listArtifacts. intros Hp.
  repeat case_match; simplify_eq; try done;
    match goal with
    | Hf : fallback _ _ _ _ _ = _ |- _ => by apply fallback_storedBy in Hf
    end.
Qed.

(** One resumption of a request: what it stores shows in what it has come
    to. *)
Lemma resume_storedBy a artifactId now t s t1 s1 :
  resume env a artifactId now t s = Some (t1, s1) ->
  storedBy artifactId now t1 (artifacts s) (artifacts s1).
Proof.
  unfold resume.
  destruct t as [st|st pushAuth|b w0|b arts|b arts rp|b auth req|r0];
    destruct a; try discriminate; try (destruct w0; discriminate).
  - intros [= <- <-]. unfold afterPushAuth. by repeat case_match.
  - unfold afterRepository, pushBranchToRemote_start.
    intros Hr. repeat case_match; simplify_eq; try done.
    unfold caught. by repeat case_match.
  - destruct w0 as [|pid nb].
    + intros Hp. apply (afterPush_storedBy b PushSuccess). congruence.
    + destruct (promises s !! pid ≫= pushBranchToRemote_finish) as [pr|]; [|done].
      intros Hp. apply (afterPush_storedBy b pr). congruence.
  - unfold afterRefresh. intros Hr.
    repeat case_match; simplify_eq; try done;
      match goal with
      | Hf : fallback _ _ _ _ _ = _ |- _ => by apply fallback_storedBy in Hf
      end.
  - unfold afterDecrypt. intros Hr.
    repeat case_match; simplify_eq; try done.
    match goal with
    | Hf : fallback _ _ _ _ _ = _ |- _ => by apply fallback_storedBy in Hf
    end.
  - unfold afterCreatePullRequest. intros Hr.
    destruct r as [e|prResult]; simplify_eq.
    + unfold caught. by repeat case_match.
    + cbn [storedBy]. fields. by eexists.
Qed.

Lemma drive_storedBy n w artifactId now t s :
  (forall r, t <> Finished r) ->
  storedBy artifactId now (drive env n w artifactId now t s).1 (artifacts s)
    (artifacts (drive env n w artifactId now t s).2).
Proof.
  revert t s. induction n as [|n IH]; intros t s Hnf.
  { cbn [drive fst snd]. destruct t; try done. by destruct (Hnf r). }
  assert (drive env (S n) w artifactId now t s
          = match resume env (answer w t) artifactId now t s with
            | Some (t1, s1) => drive env n w artifactId now t1 s1
            | None => (t, s)
            end) as -> by (destruct t; try done; by destruct (Hnf r)).
  destruct (resume env (answer w t) artifactId now t s) as [[t1 s1]|] eqn:Hr.
  - pose proof (resume_storedBy _ _ _ _ _ _ _ Hr) as Hst.
    assert ((exists r, t1 = Finished r) \/ forall r, t1 <> Finished r) as [[r ->]|Hnf1]
      by (destruct t1; try (by right); left; by eexists).
    + by rewrite drive_finished.
    + assert (artifacts s1 = artifacts s) as Hsame.
      { destruct t1; try done. by destruct (Hnf1 r). }
      rewrite <- Hsame. by apply IH.
  - cbn [fst snd]. destruct t; try done. by destruct (Hnf r).
Qed.

(** X25: what a create-PR request stores.  A request that runs on its own
    appends an artifact only together with a link it answers with: with a
    created pull request, exactly one artifact of type "pr" under the
    generated id, for the URL of the response; with the manual fallback,
    nothing (an artifact is reused) or exactly one artifact of type
    "branch" for the URL of the response.  A request that ends in an error
    response, or that is still waiting for its push, leaves the artifacts
    as they were. *)
Theorem handleCreatePR_stores_artifact_with_its_link w artifactId now body s :
  let t := (handleCreatePR env w artifactId now body s).1 in
  let after := artifacts (handleCreatePR env w artifactId now body s).2 in
  match t with
  | Finished (PrCreated _ prUrl _) =>
      exists metadata,
        after = (artifacts s
                 ++ [mkArtifactRow artifactId "pr" (Some prUrl) metadata now])%list
  | Finished (ManualPr createPrUrl _ _) =>
      after = artifacts s
      \/ exists metadata,
           after = (artifacts s
                    ++ [mkArtifactRow artifactId "branch" (Some createPrUrl)
                          metadata now])%list
  | _ => after = artifacts s
  end.
Proof.
  cbv zeta. unfold handleCreatePR.
  assert ((exists st e, begin body s = Finished (JsonError st e))
          \/ forall r, begin body s <> Finished r) as [(st & e & ->)|Hnf].
  { unfold begin, getPromptingParticipantForPR, alreadyCreated.
    repeat case_match; simplify_eq; try (by right); left; by eexists _, _. }
  - by rewrite drive_finished.
  - exact (drive_storedBy 6 w artifactId now (begin body s) s Hnf).
Qed.


End WithCollaborators.

Import Fixtures SessionFixtures.


End CreatePrOutcomeFacts.
